(** * Gym Buddy: the workout/exercise update reconciliation engine

    A shallow embedding of the API layer of the workout manager:
    - the relational store behind the data-mapping client, as three
      finite maps keyed by row id (workouts, exercises, completions);
    - the interactive transaction, as a state-and-exception monad whose
      [transaction] combinator restores the snapshot when the body throws;
    - [handleExerciseUpdates] and the handlers [GET], [PUT], [PATCH],
      [POST] of the routes, which take the store and return the response
      and the store after the call;
    - the validators of [workout-validation.ts] and [api-utils.ts], on
      untyped values.

    Row ids are strings, numbers that reach an [Int] column are integers
    ([Z]), instants are integers too and are kept as such in the responses.
    An optional property [p?: T] is an [option T]; a property that may also
    hold [null] is an [option (option T)] ([None] is [undefined],
    [Some None] is [null]).  [PUT] and [POST] take the outcome of the
    validator as the typed request of [types/api.ts] or the exception
    thrown; the validators themselves are modelled on values as the parsed
    body holds them, with the runtime's [Number] and [parseInt] as
    parameters.  Text is ASCII.  Requests are handled one at a time. *)

From stdpp Require Import gmap strings list sorting pretty.
From Stdlib Require Import ZArith QArith Qabs Qround Ascii.

Open Scope Z_scope.
Open Scope string_scope.

(** ** Data model (the schema of the store) *)

Record Workout := {
  w_name : string;
  w_description : option string;
  w_category : string;
  w_isFavorite : bool;
  w_createdAt : Z;
  w_updatedAt : Z
}.

Record Exercise := {
  e_name : string;
  e_reps : option Z;
  e_sets : option Z;
  e_duration : option string;
  e_notes : option string;
  e_workoutId : string;
  e_order : Z
}.

Record WorkoutCompletion := {
  c_workoutId : string;
  c_completedAt : Z;
  c_notes : option string;
  c_duration : option Z
}.

(** The store: one table per model, the primary key [id] is the map key. *)
Record DB := {
  workouts : gmap string Workout;
  exercises : gmap string Exercise;
  completions : gmap string WorkoutCompletion
}.

Definition set_workouts (f : gmap string Workout → gmap string Workout) (db : DB) : DB :=
  {| workouts := f (workouts db); exercises := exercises db; completions := completions db |}.

Definition set_exercises (f : gmap string Exercise → gmap string Exercise) (db : DB) : DB :=
  {| workouts := workouts db; exercises := f (exercises db); completions := completions db |}.

Definition set_completions
    (f : gmap string WorkoutCompletion → gmap string WorkoutCompletion) (db : DB) : DB :=
  {| workouts := workouts db; exercises := exercises db; completions := f (completions db) |}.

(** Every exercise id was picked by the store, so none is the empty string. *)
Definition ids_nonempty (db : DB) : Prop := "" ∉ dom (exercises db).

(** [@default(cuid())]: the store picks the id of a new row.  All that is
    used of it is that the id is not yet taken in the table and is a
    non-empty string. *)
Class IdGen := {
  cuid : gset string → string;
  cuid_fresh : ∀ X, cuid X ∉ X;
  cuid_nonempty : ∀ X, cuid X ≠ ""
}.

(** ** Request types ([types/api.ts])

    The requests as the handlers type them, their numbers being those an
    [Int] column takes.  What a validator returns is a JS object and may
    hold another number there (an [order] handed on as it was sent,
    a [parseInt] that came out as NaN); such an object is no value of
    these types, and what is proved of typed requests says nothing of it. *)

Inductive Action := ActUpdate | ActCreate | ActDelete.

Global Instance Action_eq_dec : EqDecision Action.
Proof. solve_decision. Defined.

Record UpdateExerciseData := {
  u_id : option string;
  u_name : option string;
  u_reps : option (option Z);
  u_sets : option (option Z);
  u_duration : option (option string);
  u_notes : option (option string);
  u_order : option Z;
  u_action : option Action
}.

Record UpdateWorkoutRequest := {
  r_name : option string;
  r_description : option (option string);
  r_category : option string;
  r_exercises : option (list UpdateExerciseData)
}.

Record CreateExerciseData := {
  ce_name : string;
  ce_reps : option Z;
  ce_sets : option Z;
  ce_duration : option string;
  ce_notes : option string;
  ce_order : Z
}.

Record CreateWorkoutRequest := {
  cr_name : string;
  cr_description : option string;
  cr_category : string;
  cr_exercises : list CreateExerciseData
}.

(** ** Errors and responses ([api-utils.ts]) *)

Inductive Exn :=
  | ValidationError (message : string) (details : option (list string))
  | PrismaError (code : string)
  | OtherError.

Module HTTP_STATUS.
Definition OK : Z := 200.
Definition CREATED : Z := 201.
Definition NO_CONTENT : Z := 204.
Definition BAD_REQUEST : Z := 400.
Definition UNAUTHORIZED : Z := 401.
Definition FORBIDDEN : Z := 403.
Definition NOT_FOUND : Z := 404.
Definition METHOD_NOT_ALLOWED : Z := 405.
Definition CONFLICT : Z := 409.
Definition UNPROCESSABLE_ENTITY : Z := 422.
Definition INTERNAL_SERVER_ERROR : Z := 500.
End HTTP_STATUS.

Record ExerciseResponse := {
  er_id : string;
  er_name : string;
  er_reps : option Z;
  er_sets : option Z;
  er_duration : option string;
  er_notes : option string;
  er_order : Z
}.

Record WorkoutCompletionResponse := {
  wc_id : string;
  wc_completedAt : Z;
  wc_notes : option string;
  wc_duration : option Z
}.

Record WorkoutResponse := {
  wr_id : string;
  wr_name : string;
  wr_description : option string;
  wr_category : string;
  wr_isFavorite : bool;
  wr_createdAt : Z;
  wr_updatedAt : Z;
  wr_exerciseCount : nat;
  wr_completionCount : nat;
  wr_lastCompleted : option Z;
  wr_exercises : list ExerciseResponse;
  wr_completions : option (list WorkoutCompletionResponse)
}.

Record Pagination := {
  pg_page : Z;
  pg_limit : Z;
  pg_total : nat
}.

Inductive Body :=
  | BError (error message : string) (details : option (list string))
  | BWorkout (w : WorkoutResponse)
  | BWorkoutList (data : list WorkoutResponse) (pagination : Pagination)
  | BCompletion (message : string) (completion : WorkoutCompletionResponse)
  | BMessage (message : string).

Record Response := { status : Z; body : Body }.

Definition getErrorType (statusCode : Z) : string :=
  if decide (statusCode = HTTP_STATUS.BAD_REQUEST) then "Bad Request"
  else if decide (statusCode = HTTP_STATUS.UNAUTHORIZED) then "Unauthorized"
  else if decide (statusCode = HTTP_STATUS.FORBIDDEN) then "Forbidden"
  else if decide (statusCode = HTTP_STATUS.NOT_FOUND) then "Not Found"
  else if decide (statusCode = HTTP_STATUS.METHOD_NOT_ALLOWED) then "Method Not Allowed"
  else if decide (statusCode = HTTP_STATUS.CONFLICT) then "Conflict"
  else if decide (statusCode = HTTP_STATUS.UNPROCESSABLE_ENTITY) then "Unprocessable Entity"
  else if decide (statusCode = HTTP_STATUS.INTERNAL_SERVER_ERROR) then "Internal Server Error"
  else "Unknown Error".

Definition createErrorResponse
    (message : string) (statusCode : Z) (details : option (list string)) : Response :=
  {| status := statusCode; body := BError (getErrorType statusCode) message details |}.

Definition createSuccessResponse (data : Body) (statusCode : Z) : Response :=
  {| status := statusCode; body := data |}.

(** Outside development mode the detail of a store error or of an
    unexpected error is suppressed; the field-name details of P2002 and
    P2003 are not modelled. *)
Definition handlePrismaError (code : string) : Response :=
  if decide (code = "P2002") then
    createErrorResponse "A record with this data already exists" HTTP_STATUS.CONFLICT None
  else if decide (code = "P2025") then
    createErrorResponse "Record not found" HTTP_STATUS.NOT_FOUND None
  else if decide (code = "P2003") then
    createErrorResponse "Foreign key constraint failed" HTTP_STATUS.BAD_REQUEST None
  else
    createErrorResponse "Database operation failed" HTTP_STATUS.INTERNAL_SERVER_ERROR None.

Definition handleApiError (error : Exn) : Response :=
  match error with
  | ValidationError message details =>
      createErrorResponse message HTTP_STATUS.BAD_REQUEST details
  | PrismaError code =>
      if String.prefix "P" code then handlePrismaError code
      else createErrorResponse "An unexpected error occurred"
             HTTP_STATUS.INTERNAL_SERVER_ERROR None
  | OtherError =>
      createErrorResponse "An unexpected error occurred" HTTP_STATUS.INTERNAL_SERVER_ERROR None
  end.

(** ** The transaction client

    A store operation runs on the working copy of the store and either
    returns a value or throws.  The working copy is threaded through even
    when the operation throws: it is [transaction] that discards it. *)

Definition Tx (A : Type) : Type := DB → (Exn + A) * DB.

Definition ret {A} (a : A) : Tx A := λ db, (inr a, db).

Definition bind {A B} (m : Tx A) (k : A → Tx B) : Tx B :=
  λ db, match m db with
        | (inl e, db') => (inl e, db')
        | (inr a, db') => k a db'
        end.

Notation "'let!' x ':=' m 'in' k" := (bind m (λ x, k))
  (at level 10, x name, m at level 100, k at level 200, only parsing).
Notation "m >> k" := (bind m (λ _, k))
  (at level 90, right associativity, only parsing).

(** [prisma.$transaction(async (tx) => ...)]: commit when the callback
    returns, roll back to the snapshot when it throws. *)
Definition transaction {A} (callback : Tx A) : Tx A :=
  λ db, match callback db with
        | (inl e, _) => (inl e, db)
        | (inr a, db') => (inr a, db')
        end.

(** The [data] of [tx.exercise.update]: only the keys that were assigned. *)
Record ExerciseUpdateData := {
  ud_name : option string;
  ud_reps : option (option Z);
  ud_sets : option (option Z);
  ud_duration : option (option string);
  ud_notes : option (option string);
  ud_order : option Z
}.

(** [Object.keys(updateData).length > 0] *)
Definition has_keys (d : ExerciseUpdateData) : bool :=
  bool_decide (is_Some (ud_name d)) || bool_decide (is_Some (ud_reps d))
  || bool_decide (is_Some (ud_sets d)) || bool_decide (is_Some (ud_duration d))
  || bool_decide (is_Some (ud_notes d)) || bool_decide (is_Some (ud_order d)).

Definition apply_update (d : ExerciseUpdateData) (e : Exercise) : Exercise :=
  {| e_name := default (e_name e) (ud_name d);
     e_reps := default (e_reps e) (ud_reps d);
     e_sets := default (e_sets e) (ud_sets d);
     e_duration := default (e_duration e) (ud_duration d);
     e_notes := default (e_notes e) (ud_notes d);
     e_workoutId := e_workoutId e;
     e_order := default (e_order e) (ud_order d) |}.

(** The [data] of [tx.exercise.create]; a key left out is stored as NULL. *)
Record ExerciseCreateData := {
  cd_workoutId : string;
  cd_name : string;
  cd_order : Z;
  cd_reps : option (option Z);
  cd_sets : option (option Z);
  cd_duration : option (option string);
  cd_notes : option (option string)
}.

Definition new_row (d : ExerciseCreateData) : Exercise :=
  {| e_name := cd_name d;
     e_reps := default None (cd_reps d);
     e_sets := default None (cd_sets d);
     e_duration := default None (cd_duration d);
     e_notes := default None (cd_notes d);
     e_workoutId := cd_workoutId d;
     e_order := cd_order d |}.

(** [tx.exercise.delete({ where: { id } })]: P2025 when no row has the id. *)
Definition exercise_delete (id : string) : Tx unit :=
  λ db, match exercises db !! id with
        | Some _ => (inr (), set_exercises (delete id) db)
        | None => (inl (PrismaError "P2025"), db)
        end.

(** [tx.exercise.update({ where: { id }, data })]: P2025 when no row has the id. *)
Definition exercise_update (id : string) (data : ExerciseUpdateData) : Tx unit :=
  λ db, match exercises db !! id with
        | Some e => (inr (), set_exercises <[id := apply_update data e]> db)
        | None => (inl (PrismaError "P2025"), db)
        end.

(** [tx.exercise.deleteMany({ where: { id: { in: ids } } })] never throws. *)
Definition exercise_deleteMany (ids : list string) : Tx unit :=
  λ db, (inr (), set_exercises (filter (λ kv, kv.1 ∉ ids)) db).

(** Truthiness of an optional string: [undefined] and [""] are falsy. *)
Definition truthy (s : option string) : bool :=
  match s with
  | Some s => bool_decide (s ≠ "")
  | None => false
  end.

(** The [data] of [workout.update]; [updatedAt] is set by the store
    ([@updatedAt]) to the instant of the write. *)
Record WorkoutUpdateData := {
  wd_name : option string;
  wd_description : option (option string);
  wd_category : option string;
  wd_isFavorite : option bool
}.

Definition apply_workout_update (now : Z) (d : WorkoutUpdateData) (w : Workout) : Workout :=
  {| w_name := default (w_name w) (wd_name d);
     w_description := default (w_description w) (wd_description d);
     w_category := default (w_category w) (wd_category d);
     w_isFavorite := default (w_isFavorite w) (wd_isFavorite d);
     w_createdAt := w_createdAt w;
     w_updatedAt := now |}.

Definition workout_update (now : Z) (id : string) (data : WorkoutUpdateData) : Tx Workout :=
  λ db, match workouts db !! id with
        | Some w =>
            let w' := apply_workout_update now data w in
            (inr w', set_workouts <[id := w']> db)
        | None => (inl (PrismaError "P2025"), db)
        end.

(** *** Reads with [include] *)

(** [include: { exercises: true }]: the rows owned by the workout, in the
    order the store returns them. *)
Definition exercises_of (id : string) (db : DB) : list (string * Exercise) :=
  map_to_list (filter (λ kv, e_workoutId kv.2 = id) (exercises db)).

Definition completions_of (id : string) (db : DB) : list (string * WorkoutCompletion) :=
  map_to_list (filter (λ kv, c_workoutId kv.2 = id) (completions db)).

(** [orderBy: { order: 'asc' }] *)
Definition order_asc : relation (string * Exercise) :=
  λ a b, (e_order a.2 ≤ e_order b.2)%Z.

(** [orderBy: { completedAt: 'desc' }] *)
Definition completedAt_desc : relation (string * WorkoutCompletion) :=
  λ a b, (c_completedAt b.2 ≤ c_completedAt a.2)%Z.

Global Instance order_asc_dec : RelDecision order_asc.
Proof. intros a b. unfold order_asc. apply _. Defined.

Global Instance completedAt_desc_dec : RelDecision completedAt_desc.
Proof. intros a b. unfold completedAt_desc. apply _. Defined.

(** What [findUnique] / [findMany] / [update] hand back for one workout
    under [include: { exercises, completions, _count }]. *)
Record WorkoutWithIncludes := {
  wi_id : string;
  wi_row : Workout;
  wi_exercises : list (string * Exercise);
  wi_completions : list (string * WorkoutCompletion);
  wi_count_exercises : nat;
  wi_count_completions : nat
}.

(** [take1] holds where the query includes the completions with [take: 1]. *)
Definition with_includes (take1 : bool) (id : string) (w : Workout) (db : DB)
    : WorkoutWithIncludes :=
  let cs := merge_sort completedAt_desc (completions_of id db) in
  {| wi_id := id;
     wi_row := w;
     wi_exercises := merge_sort order_asc (exercises_of id db);
     wi_completions := if take1 then take 1 cs else cs;
     wi_count_exercises := length (exercises_of id db);
     wi_count_completions := length (completions_of id db) |}.

Definition workout_findUnique (take1 : bool) (id : string) : Tx (option WorkoutWithIncludes) :=
  λ db, (inr ((λ w, with_includes take1 id w db) <$> workouts db !! id), db).

(** *** The response transformation shared by the handlers *)

Definition exerciseResponse (exercise : string * Exercise) : ExerciseResponse :=
  {| er_id := exercise.1;
     er_name := e_name exercise.2;
     er_reps := e_reps exercise.2;
     er_sets := e_sets exercise.2;
     er_duration := e_duration exercise.2;
     er_notes := e_notes exercise.2;
     er_order := e_order exercise.2 |}.

Definition completionResponse (completion : string * WorkoutCompletion)
    : WorkoutCompletionResponse :=
  {| wc_id := completion.1;
     wc_completedAt := c_completedAt completion.2;
     wc_notes := c_notes completion.2;
     wc_duration := c_duration completion.2 |}.

(** [lastCompleted] is [completions[0]?.completedAt || null], except after a
    creation where it is the constant [null]; [completions] is part of
    the single fetch only. *)
Definition workoutResponse (with_last with_completions : bool) (workout : WorkoutWithIncludes)
    : WorkoutResponse :=
  {| wr_id := wi_id workout;
     wr_name := w_name (wi_row workout);
     wr_description := w_description (wi_row workout);
     wr_category := w_category (wi_row workout);
     wr_isFavorite := w_isFavorite (wi_row workout);
     wr_createdAt := w_createdAt (wi_row workout);
     wr_updatedAt := w_updatedAt (wi_row workout);
     wr_exerciseCount := wi_count_exercises workout;
     wr_completionCount := wi_count_completions workout;
     wr_lastCompleted :=
       if with_last then (λ c, c_completedAt c.2) <$> head (wi_completions workout) else None;
     wr_exercises := exerciseResponse <$> wi_exercises workout;
     wr_completions :=
       if with_completions then Some (completionResponse <$> wi_completions workout) else None |}.

Definition not_found (id : string) : Response :=
  createErrorResponse ("Workout with id " +:+ id +:+ " not found") HTTP_STATUS.NOT_FOUND None.

(** *** ASCII helpers: [toLowerCase] and the substring test *)

Definition lower_ascii (c : Ascii.ascii) : Ascii.ascii :=
  let n := Ascii.nat_of_ascii c in
  if bool_decide (65 ≤ n)%nat && bool_decide (n ≤ 90)%nat
  then Ascii.ascii_of_nat (n + 32) else c.

Fixpoint toLowerCase (s : string) : string :=
  match s with
  | EmptyString => EmptyString
  | String c s' => String (lower_ascii c) (toLowerCase s')
  end.

Fixpoint contains (needle hay : string) : bool :=
  String.prefix needle hay ||
  match hay with
  | EmptyString => false
  | String _ hay' => contains needle hay'
  end.

(** ** Read handlers *)

(** [GET /api/workouts/[id]] *)
Definition GET (id : string) (db : DB) : Response * DB :=
  match workouts db !! id with
  | None => (not_found id, db)
  | Some workout =>
      (createSuccessResponse
         (BWorkout (workoutResponse true true (with_includes false id workout db)))
         HTTP_STATUS.OK, db)
  end.

(** The parsed query of [GET /api/workouts]. *)
Record WorkoutQuery := {
  q_category : option string;
  q_search : option string;
  q_favorite : option string;
  q_page : Z;
  q_limit : Z
}.

(** The store's string filters under [mode: 'insensitive'], each taking
    the column's value and the operand of the query.  What they match is
    the database's matter (its folding of case, and what it makes of the
    pattern characters [%] and [_] in the operand), so the handler is
    given them. *)
Record StringFilters := {
  insensitive_equals : string → string → bool;
  insensitive_contains : string → string → bool
}.

(** The [where] clause built from the query. *)
Definition where_clause (store : StringFilters) (q : WorkoutQuery) (w : Workout) : bool :=
  (if truthy (q_category q)
   then insensitive_equals store (w_category w) (toLowerCase (default "" (q_category q)))
   else true)
  && (if truthy (q_search q)
      then insensitive_contains store (w_name w) (default "" (q_search q))
           || from_option
                (λ d, insensitive_contains store d (default "" (q_search q)))
                false (w_description w)
      else true)
  && match q_favorite q with
     | Some favorite =>
         bool_decide (w_isFavorite w = bool_decide (toLowerCase favorite = "true"))
     | None => true
     end.

(** [orderBy: [{ isFavorite: 'desc' }, { updatedAt: 'desc' }]] *)
Definition favorites_first : relation (string * Workout) :=
  λ a b, match w_isFavorite a.2, w_isFavorite b.2 with
         | true, false => True
         | false, true => False
         | _, _ => (w_updatedAt b.2 ≤ w_updatedAt a.2)%Z
         end.

Global Instance favorites_first_dec : RelDecision favorites_first.
Proof.
  intros a b. unfold favorites_first.
  destruct (w_isFavorite a.2), (w_isFavorite b.2); apply _.
Defined.

(** [GET /api/workouts].  [store] holds the string filters of the
    database; [window] stands for its [skip] / [take] on the filtered,
    ordered rows, which returns the rows of the page or throws (a [skip]
    the store refuses); [totalPages] (a floating-point quotient) is left
    out of the pagination object. *)
Definition GET_list (store : StringFilters)
    (window : Z → Z → list (string * Workout) → Exn + list (string * Workout))
    (q : WorkoutQuery) (db : DB) : Response * DB :=
  let skip := ((q_page q - 1) * q_limit q)%Z in
  let matching :=
    filter (λ kv, where_clause store q kv.2 = true) (map_to_list (workouts db)) in
  let totalCount := length matching in
  match window skip (q_limit q) (merge_sort favorites_first matching) with
  | inl error => (handleApiError error, db)
  | inr page =>
      (createSuccessResponse
         (BWorkoutList
            ((λ kv, workoutResponse true false (with_includes true kv.1 kv.2 db)) <$> page)
            {| pg_page := q_page q; pg_limit := q_limit q; pg_total := totalCount |})
         HTTP_STATUS.OK, db)
  end.

(** ** [PATCH /api/workouts/[id]/favorite] *)
Definition PATCH (now : Z) (id : string) (db : DB) : Response * DB :=
  match workouts db !! id with
  | None => (not_found id, db)
  | Some existingWorkout =>
      let data := {| wd_name := None; wd_description := None; wd_category := None;
                     wd_isFavorite := Some (negb (w_isFavorite existingWorkout)) |} in
      match workout_update now id data db with
      | (inl error, db') => (handleApiError error, db')
      | (inr updatedWorkout, db') =>
          (createSuccessResponse
             (BWorkout (workoutResponse true false (with_includes true id updatedWorkout db')))
             HTTP_STATUS.OK, db')
      end
  end.

Section with_idgen.
Context `{IdGen}.

(** [tx.exercise.create({ data })]: the owning workout must exist (P2003,
    the relation's foreign key); the new row gets its id from the store. *)
Definition exercise_create (data : ExerciseCreateData) : Tx (string * Exercise) :=
  λ db, match workouts db !! cd_workoutId data with
        | Some _ =>
            let id := cuid (dom (exercises db)) in
            (inr (id, new_row data), set_exercises <[id := new_row data]> db)
        | None => (inl (PrismaError "P2003"), db)
        end.

(** ** The reconciliation engine ([handleExerciseUpdates]) *)

Definition is_action (a : Action) (d : UpdateExerciseData) : bool :=
  bool_decide (u_action d = Some a).

Definition updateData_of (exerciseData : UpdateExerciseData) : ExerciseUpdateData :=
  {| ud_name := u_name exerciseData;
     ud_reps := u_reps exerciseData;
     ud_sets := u_sets exerciseData;
     ud_duration := u_duration exerciseData;
     ud_notes := u_notes exerciseData;
     ud_order := u_order exerciseData |}.

(** [exerciseData.name || 'Untitled Exercise'] *)
Definition name_or_default (name : option string) : string :=
  match name with
  | Some n => if bool_decide (n ≠ "") then n else "Untitled Exercise"
  | None => "Untitled Exercise"
  end.

(** [exerciseData.order || 0] *)
Definition order_or_default (order : option Z) : Z :=
  match order with
  | Some n => if bool_decide (n ≠ 0) then n else 0
  | None => 0
  end.

Definition createData_of (workoutId : string) (exerciseData : UpdateExerciseData)
    : ExerciseCreateData :=
  {| cd_workoutId := workoutId;
     cd_name := name_or_default (u_name exerciseData);
     cd_order := order_or_default (u_order exerciseData);
     cd_reps := u_reps exerciseData;
     cd_sets := u_sets exerciseData;
     cd_duration := u_duration exerciseData;
     cd_notes := u_notes exerciseData |}.

(** The body of the [for ... of] loop for one directive; the result is
    the new value of [updatedExerciseIds]. *)
Definition handleDirective (workoutId : string) (existingExerciseIds : gset string)
    (exerciseData : UpdateExerciseData) (updatedExerciseIds : gset string)
    : Tx (gset string) :=
  let id := default "" (u_id exerciseData) in
  if is_action ActDelete exerciseData && truthy (u_id exerciseData) then
    exercise_delete id >>
    ret updatedExerciseIds
  else if truthy (u_id exerciseData) && bool_decide (id ∈ existingExerciseIds) then
    let updateData := updateData_of exerciseData in
    (if has_keys updateData then exercise_update id updateData else ret ()) >>
    ret ({[id]} ∪ updatedExerciseIds)
  else
    let! newExercise := exercise_create (createData_of workoutId exerciseData) in
    ret ({[newExercise.1]} ∪ updatedExerciseIds).

Fixpoint handleDirectives (workoutId : string) (existingExerciseIds : gset string)
    (exerciseUpdates : list UpdateExerciseData) (updatedExerciseIds : gset string)
    : Tx (gset string) :=
  match exerciseUpdates with
  | [] => ret updatedExerciseIds
  | exerciseData :: rest =>
      let! updatedExerciseIds' :=
        handleDirective workoutId existingExerciseIds exerciseData updatedExerciseIds in
      handleDirectives workoutId existingExerciseIds rest updatedExerciseIds'
  end.

(** [u.id === e.id && u._action !== 'delete'] *)
Definition keeps (e : string * Exercise) (u : UpdateExerciseData) : bool :=
  bool_decide (u_id u = Some e.1) && negb (is_action ActDelete u).

Definition exercisesToDelete (exerciseUpdates : list UpdateExerciseData)
    (existingExercises : list (string * Exercise)) (updatedExerciseIds : gset string)
    : list (string * Exercise) :=
  filter (λ e, existsb (keeps e) exerciseUpdates = false)
    (filter (λ e, e.1 ∉ updatedExerciseIds) existingExercises).

(** [exerciseUpdates.some(e => !e.id || e._action === 'create')] *)
Definition hasCompleteExerciseList (exerciseUpdates : list UpdateExerciseData) : bool :=
  existsb (λ e, negb (truthy (u_id e)) || is_action ActCreate e) exerciseUpdates.

Definition handleExerciseUpdates (workoutId : string)
    (exerciseUpdates : list UpdateExerciseData)
    (existingExercises : list (string * Exercise)) : Tx unit :=
  let existingExerciseIds : gset string := list_to_set (existingExercises.*1) in
  let! updatedExerciseIds :=
    handleDirectives workoutId existingExerciseIds exerciseUpdates ∅ in
  let toDelete := exercisesToDelete exerciseUpdates existingExercises updatedExerciseIds in
  if hasCompleteExerciseList exerciseUpdates && bool_decide (0 < length toDelete)%nat then
    exercise_deleteMany (toDelete.*1)
  else ret ().

End with_idgen.


Section handlers.
Context `{IdGen}.

(** ** [PUT /api/workouts/[id]] *)

(** [Object.keys(workoutUpdateData).length > 0] *)
Definition workout_has_keys (d : WorkoutUpdateData) : bool :=
  bool_decide (is_Some (wd_name d)) || bool_decide (is_Some (wd_description d))
  || bool_decide (is_Some (wd_category d)).

(** The first step of the callback: the scalar workout fields. *)
Definition update_workout_fields (now : Z) (id : string)
    (validatedData : UpdateWorkoutRequest) : Tx unit :=
  let workoutUpdateData :=
    {| wd_name := r_name validatedData;
       wd_description := r_description validatedData;
       wd_category := r_category validatedData;
       wd_isFavorite := None |} in
  if workout_has_keys workoutUpdateData
  then workout_update now id workoutUpdateData >> ret ()
  else ret ().

(** The callback handed to [prisma.$transaction]. *)
Definition PUT_callback (now : Z) (id : string) (validatedData : UpdateWorkoutRequest)
    (existingExercises : list (string * Exercise)) : Tx (option WorkoutWithIncludes) :=
  update_workout_fields now id validatedData >>
  (match r_exercises validatedData with
   | Some exerciseUpdates => handleExerciseUpdates id exerciseUpdates existingExercises
   | None => ret ()
   end) >>
  workout_findUnique true id.

(** [validated] is the outcome of [validateUpdateWorkout] on the request
    body: the typed request, or the exception thrown. *)
Definition PUT (now : Z) (id : string) (validated : Exn + UpdateWorkoutRequest) (db : DB)
    : Response * DB :=
  match workouts db !! id with
  | None => (not_found id, db)
  | Some existingWorkout =>
      let existingExercises := exercises_of id db in
      match validated with
      | inl error => (handleApiError error, db)
      | inr validatedData =>
          match transaction (PUT_callback now id validatedData existingExercises) db with
          | (inl error, db') => (handleApiError error, db')
          | (inr None, db') =>
              (createErrorResponse "Failed to update workout"
                 HTTP_STATUS.INTERNAL_SERVER_ERROR None, db')
          | (inr (Some updatedWorkout), db') =>
              (createSuccessResponse
                 (BWorkout (workoutResponse true false updatedWorkout))
                 HTTP_STATUS.OK, db')
          end
      end
  end.

(** ** [POST /api/workouts] *)

Definition workout_create (now : Z) (name : string) (description : option string)
    (category : string) : Tx (string * Workout) :=
  λ db,
    let id := cuid (dom (workouts db)) in
    let w := {| w_name := name; w_description := description; w_category := category;
                w_isFavorite := false; w_createdAt := now; w_updatedAt := now |} in
    (inr (id, w), set_workouts <[id := w]> db).

Definition createMany_row (workoutId : string) (exercise : CreateExerciseData)
    : ExerciseCreateData :=
  {| cd_workoutId := workoutId;
     cd_name := ce_name exercise;
     cd_order := ce_order exercise;
     cd_reps := Some <$> ce_reps exercise;
     cd_sets := Some <$> ce_sets exercise;
     cd_duration := Some <$> ce_duration exercise;
     cd_notes := Some <$> ce_notes exercise |}.

Fixpoint exercise_createMany (data : list ExerciseCreateData) : Tx unit :=
  match data with
  | [] => ret ()
  | d :: rest => exercise_create d >> exercise_createMany rest
  end.

Definition POST_callback (now : Z) (validatedData : CreateWorkoutRequest)
    : Tx (option WorkoutWithIncludes) :=
  let! newWorkout :=
    workout_create now (cr_name validatedData) (cr_description validatedData)
      (cr_category validatedData) in
  (if bool_decide (0 < length (cr_exercises validatedData))%nat
   then exercise_createMany (createMany_row newWorkout.1 <$> cr_exercises validatedData)
   else ret ()) >>
  workout_findUnique true newWorkout.1.

Definition POST (now : Z) (validated : Exn + CreateWorkoutRequest) (db : DB)
    : Response * DB :=
  match validated with
  | inl error => (handleApiError error, db)
  | inr validatedData =>
      match transaction (POST_callback now validatedData) db with
      | (inl error, db') => (handleApiError error, db')
      | (inr None, db') =>
          (createErrorResponse "Failed to create workout"
             HTTP_STATUS.INTERNAL_SERVER_ERROR None, db')
      | (inr (Some workout), db') =>
          (createSuccessResponse
             (BWorkout (workoutResponse false false workout))
             HTTP_STATUS.CREATED, db')
      end
  end.

End handlers.

(** ** The validation layer ([api-utils.ts], [workout-validation.ts])

    The validators take the parsed request body, an untyped value, and
    return the object they build or throw. *)

Inductive number := NaN | PInf | NInf | Fin (q : Q).

#[warnings="-register-all"]
Inductive value :=
  | VUndefined
  | VNull
  | VBool (b : bool)
  | VNum (n : number)
  | VStr (s : string)
  | VArr (items : list value)
  | VObj (fields : list (string * value)).

(** [obj.key] on an object built from JSON: the last binding of the key
    wins; on another non-null value the keys read here are [undefined]. *)
Fixpoint lookup_field (key : string) (fields : list (string * value)) : value :=
  match fields with
  | [] => VUndefined
  | (k, v) :: rest =>
      match lookup_field key rest with
      | VUndefined => if decide (k = key) then v else VUndefined
      | later => later
      end
  end.

Definition get (data : value) (key : string) : value :=
  match data with
  | VObj fields => lookup_field key fields
  | _ => VUndefined
  end.

(** [result.key = v]: an existing key keeps its place, a new one is added
    last. *)
Fixpoint set (key : string) (v : value) (fields : list (string * value))
    : list (string * value) :=
  match fields with
  | [] => [(key, v)]
  | (k, x) :: rest =>
      if decide (k = key) then (k, v) :: rest else (k, x) :: set key v rest
  end.

Definition is_undefined (v : value) : bool :=
  match v with VUndefined => true | _ => false end.

Definition is_nullish (v : value) : bool :=
  match v with VUndefined | VNull => true | _ => false end.

Definition is_zero (q : Q) : bool := Qeq_bool q 0.

(** Truthiness of a value in a condition. *)
Definition truthy_value (v : value) : bool :=
  match v with
  | VUndefined | VNull => false
  | VBool b => b
  | VNum NaN => false
  | VNum (Fin q) => negb (is_zero q)
  | VNum _ => true
  | VStr s => bool_decide (s ≠ "")
  | VArr _ | VObj _ => true
  end.

Definition lt_num (n : number) (bound : Z) : bool :=
  match n with
  | NaN | PInf => false
  | NInf => true
  | Fin q => negb (Qle_bool (inject_Z bound) q)
  end.

Definition gt_num (n : number) (bound : Z) : bool :=
  match n with
  | NaN | NInf => false
  | PInf => true
  | Fin q => negb (Qle_bool q (inject_Z bound))
  end.

Definition isNaN (n : number) : bool :=
  match n with NaN => true | _ => false end.

(** [input.trim().replace(/\s+/g, ' ')] on ASCII text. *)
Definition is_space (c : Ascii.ascii) : bool :=
  let n := Ascii.nat_of_ascii c in
  bool_decide (n = 32)%nat || bool_decide (9 ≤ n ≤ 13)%nat.

(** [pending] says that white space was seen since the last kept
    character, [started] that a character was kept already. *)
Fixpoint sanitize_go (started pending : bool) (s : string) : string :=
  match s with
  | EmptyString => EmptyString
  | String c s' =>
      if is_space c then sanitize_go started true s'
      else if started && pending
           then String " "%char (String c (sanitize_go true false s'))
           else String c (sanitize_go true false s')
  end.

Definition sanitizeString (input : string) : string := sanitize_go false false input.

Definition join (sep : string) (l : list string) : string := String.concat sep l.

(** [a || b] on two results of a check ([null] is no error). *)
Definition or_else (a b : option string) : option string :=
  match a with Some e => Some e | None => b end.

Definition validateRequired (v : value) (fieldName : string) : option string :=
  match v with
  | VUndefined | VNull => Some (fieldName +:+ " is required")
  | VStr "" => Some (fieldName +:+ " is required")
  | _ => None
  end.

Definition validateString (v : value) (fieldName : string) (minLength maxLength : option Z)
    : option string :=
  match v with
  | VStr s =>
      let len := Z.of_nat (String.length s) in
      match minLength with
      | Some m =>
          if bool_decide (len < m)%Z
          then Some (fieldName +:+ " must be at least " +:+ pretty m +:+ " characters long")
          else match maxLength with
               | Some M =>
                   if bool_decide (M < len)%Z
                   then Some (fieldName +:+ " must be no more than " +:+ pretty M
                              +:+ " characters long")
                   else None
               | None => None
               end
      | None =>
          match maxLength with
          | Some M =>
              if bool_decide (M < len)%Z
              then Some (fieldName +:+ " must be no more than " +:+ pretty M
                         +:+ " characters long")
              else None
          | None => None
          end
      end
  | _ => Some (fieldName +:+ " must be a string")
  end.

Definition validateArray (v : value) (fieldName : string) : option string :=
  match v with
  | VArr _ => None
  | _ => Some (fieldName +:+ " must be an array")
  end.

Definition validCategories : list string :=
  ["strength"; "cardio"; "flexibility"; "sports"; "other"].

(** Called on a value that passed [validateString]. *)
Definition validateWorkoutCategory (category : value) : option string :=
  match category with
  | VStr c =>
      if bool_decide (toLowerCase c ∈ validCategories) then None
      else Some ("Category must be one of: " +:+ join ", " validCategories)
  | _ => None
  end.

Definition opt_to_list (o : option string) : list string :=
  match o with Some e => [e] | None => [] end.

Section validators.
(** The runtime's [Number(v)] and [parseInt(v)]. *)
Variable Number : value → number.
Variable parseInt : value → number.

Definition validateNumber (v : value) (fieldName : string) (min max : option Z)
    : option string :=
  let num := Number v in
  if isNaN num then Some (fieldName +:+ " must be a valid number")
  else match min with
       | Some m =>
           if lt_num num m then Some (fieldName +:+ " must be at least " +:+ pretty m)
           else match max with
                | Some M =>
                    if gt_num num M
                    then Some (fieldName +:+ " must be no more than " +:+ pretty M)
                    else None
                | None => None
                end
       | None =>
           match max with
           | Some M =>
               if gt_num num M
               then Some (fieldName +:+ " must be no more than " +:+ pretty M)
               else None
           | None => None
           end
       end.

Definition sanitized (v : value) : value :=
  match v with VStr s => VStr (sanitizeString s) | _ => v end.

(** The checks on the optional numeric and text fields of an exercise,
    shared by the create and the update validator. *)
Definition optional_field_errors (data : value) : list string :=
  (if is_nullish (get data "reps") then []
   else opt_to_list (validateNumber (get data "reps") "reps" (Some 1%Z) (Some 1000%Z)))
  ++ (if is_nullish (get data "sets") then []
      else opt_to_list (validateNumber (get data "sets") "sets" (Some 1%Z) (Some 100%Z)))
  ++ (if is_nullish (get data "duration") then []
      else opt_to_list (validateString (get data "duration") "duration"
                          (Some 1%Z) (Some 50%Z)))
  ++ (if is_nullish (get data "notes") then []
      else opt_to_list (validateString (get data "notes") "notes" (Some 0%Z) (Some 500%Z))).

Definition createExercise_errors (data : value) : list string :=
  opt_to_list (or_else (validateRequired (get data "name") "name")
                 (validateString (get data "name") "name" (Some 1%Z) (Some 100%Z)))
  ++ optional_field_errors data
  ++ opt_to_list (or_else (validateRequired (get data "order") "order")
                    (validateNumber (get data "order") "order" (Some 0%Z) (Some 1000%Z))).

(** Reading a property of [null] or [undefined] throws a [TypeError]. *)
Definition validateCreateExercise (data : value) : Exn + value :=
  if is_nullish data then inl OtherError
  else
    let errors := createExercise_errors data in
    if bool_decide (0 < length errors)%nat
    then inl (ValidationError (join ", " errors) None)
    else inr (VObj
      [ ("name", sanitized (get data "name"));
        ("reps", if truthy_value (get data "reps")
                 then VNum (parseInt (get data "reps")) else VUndefined);
        ("sets", if truthy_value (get data "sets")
                 then VNum (parseInt (get data "sets")) else VUndefined);
        ("duration", if truthy_value (get data "duration")
                     then sanitized (get data "duration") else VUndefined);
        ("notes", if truthy_value (get data "notes")
                  then sanitized (get data "notes") else VUndefined);
        ("order", VNum (parseInt (get data "order"))) ]).

(** The [forEach] over the exercises: a [ValidationError] becomes a
    message with the 1-based position, any other exception is swallowed. *)
Definition exercise_messages (validate : value → Exn + value) (items : list value)
    : list string :=
  mjoin (imap (λ index exercise,
           match validate exercise with
           | inl (ValidationError message _) =>
               ["Exercise " +:+ pretty (index + 1)%nat +:+ ": " +:+ message]
           | _ => []
           end) items).

(** [items.map(f)] where [f] may throw: the first exception propagates. *)
Fixpoint map_throwing (f : nat → value → Exn + value) (index : nat) (items : list value)
    : Exn + list value :=
  match items with
  | [] => inr []
  | item :: rest =>
      match f index item with
      | inl e => inl e
      | inr v =>
          match map_throwing f (S index) rest with
          | inl e => inl e
          | inr vs => inr (v :: vs)
          end
      end
  end.

Definition lowered (v : value) : value :=
  match v with VStr s => VStr (toLowerCase s) | _ => v end.

Definition items_of (v : value) : list value :=
  match v with VArr items => items | _ => [] end.

Definition createWorkout_errors (data : value) : list string :=
  opt_to_list (or_else (validateRequired (get data "name") "name")
                 (validateString (get data "name") "name" (Some 1%Z) (Some 100%Z)))
  ++ (if is_nullish (get data "description") then []
      else opt_to_list (validateString (get data "description") "description"
                          (Some 0%Z) (Some 500%Z)))
  ++ opt_to_list (or_else (validateRequired (get data "category") "category")
                    (or_else (validateString (get data "category") "category" None None)
                       (validateWorkoutCategory (get data "category"))))
  ++ match or_else (validateRequired (get data "exercises") "exercises")
             (validateArray (get data "exercises") "exercises") with
     | Some exercisesError => [exercisesError]
     | None =>
         if bool_decide (length (items_of (get data "exercises")) = 0)%nat
         then ["At least one exercise is required"]
         else exercise_messages validateCreateExercise (items_of (get data "exercises"))
     end.

(** [{ ...validateCreateExercise(exercise), order: exercise.order ?? index }] *)
Definition with_default_order (index : nat) (exercise : value) : Exn + value :=
  match validateCreateExercise exercise with
  | inl e => inl e
  | inr (VObj fields) =>
      inr (VObj (set "order"
                   (if is_nullish (get exercise "order")
                    then VNum (Fin (inject_Z (Z.of_nat index)))
                    else get exercise "order") fields))
  | inr v => inr v
  end.

Definition validateCreateWorkout (data : value) : Exn + value :=
  if is_nullish data then inl OtherError
  else
    let errors := createWorkout_errors data in
    if bool_decide (0 < length errors)%nat
    then inl (ValidationError "Validation failed" (Some errors))
    else
      match map_throwing with_default_order 0 (items_of (get data "exercises")) with
      | inl e => inl e
      | inr exercises =>
          inr (VObj
            [ ("name", sanitized (get data "name"));
              ("description", if truthy_value (get data "description")
                              then sanitized (get data "description") else VUndefined);
              ("category", lowered (get data "category"));
              ("exercises", VArr exercises) ])
      end.

Definition actions : list value := [VStr "update"; VStr "create"; VStr "delete"].

Definition value_eqb (a b : value) : bool :=
  match a, b with
  | VStr s, VStr t => bool_decide (s = t)
  | _, _ => false
  end.

Definition updateExercise_errors (data : value) : list string :=
  (if is_undefined (get data "id") then []
   else opt_to_list (validateString (get data "id") "id" None None))
  ++ (if is_undefined (get data "name") then []
      else opt_to_list (validateString (get data "name") "name" (Some 1%Z) (Some 100%Z)))
  ++ optional_field_errors data
  ++ (if is_undefined (get data "order") then []
      else opt_to_list (validateNumber (get data "order") "order" (Some 0%Z) (Some 1000%Z)))
  ++ (if is_undefined (get data "_action") then []
      else if existsb (value_eqb (get data "_action")) actions then []
           else ["_action must be one of: update, create, delete"]).

(** [if (data.key !== undefined) result.key = v] *)
Definition assign_if_defined (data : value) (key : string) (v : value)
    (fields : list (string * value)) : list (string * value) :=
  if is_undefined (get data key) then fields else set key v fields.

Definition validateUpdateExercise (data : value) : Exn + value :=
  if is_nullish data then inl OtherError
  else
    let errors := updateExercise_errors data in
    if bool_decide (0 < length errors)%nat
    then inl (ValidationError (join ", " errors) None)
    else inr (VObj
      (assign_if_defined data "_action" (get data "_action")
      (assign_if_defined data "order" (VNum (parseInt (get data "order")))
      (assign_if_defined data "notes"
         (if truthy_value (get data "notes") then sanitized (get data "notes") else VNull)
      (assign_if_defined data "duration"
         (if truthy_value (get data "duration") then sanitized (get data "duration")
          else VNull)
      (assign_if_defined data "sets"
         (if truthy_value (get data "sets") then VNum (parseInt (get data "sets"))
          else VNull)
      (assign_if_defined data "reps"
         (if truthy_value (get data "reps") then VNum (parseInt (get data "reps"))
          else VNull)
      (assign_if_defined data "name" (sanitized (get data "name"))
      (assign_if_defined data "id" (get data "id") []))))))))).

Definition updateWorkout_errors (data : value) : list string :=
  (if is_undefined (get data "name") then []
   else opt_to_list (validateString (get data "name") "name" (Some 1%Z) (Some 100%Z)))
  ++ (if is_undefined (get data "description") then []
      else opt_to_list (validateString (get data "description") "description"
                          (Some 0%Z) (Some 500%Z)))
  ++ (if is_undefined (get data "category") then []
      else opt_to_list (or_else (validateString (get data "category") "category" None None)
                          (validateWorkoutCategory (get data "category"))))
  ++ (if is_undefined (get data "exercises") then []
      else match validateArray (get data "exercises") "exercises" with
           | Some exercisesError => [exercisesError]
           | None =>
               exercise_messages validateUpdateExercise (items_of (get data "exercises"))
           end).

Definition validateUpdateWorkout (data : value) : Exn + value :=
  if is_nullish data then inl OtherError
  else
    let errors := updateWorkout_errors data in
    if bool_decide (0 < length errors)%nat
    then inl (ValidationError "Validation failed" (Some errors))
    else
      match
        (if is_undefined (get data "exercises") then inr []
         else map_throwing (λ _, validateUpdateExercise) 0 (items_of (get data "exercises")))
      with
      | inl e => inl e
      | inr exercises =>
          inr (VObj
            (assign_if_defined data "exercises" (VArr exercises)
            (assign_if_defined data "category" (lowered (get data "category"))
            (assign_if_defined data "description"
               (if truthy_value (get data "description")
                then sanitized (get data "description") else VNull)
            (assign_if_defined data "name" (sanitized (get data "name")) [])))))
      end.

End validators.

(** ** A concrete id generator, to run the model on examples

    The new id is a run of the letter c one longer than the longest id in
    use. *)

Fixpoint c_string (n : nat) : string :=
  match n with
  | O => ""
  | S n => String "c"%char (c_string n)
  end.

Definition longer_cuid (X : gset string) : string :=
  c_string (S (max_list (String.length <$> elements X))).

Definition longer_idgen : IdGen.
Proof.
  refine {| cuid := longer_cuid |}.
  - intros X Hin. apply elem_of_elements in Hin.
    assert (∀ n, String.length (c_string n) = n) as Hlen.
    { induction n as [|n IH]; [done|]. cbn. by rewrite IH. }
    assert (String.length (longer_cuid X) ≤ max_list (String.length <$> elements X))%nat
      as Hle.
    { apply max_list_elem_of_le, list_elem_of_fmap. eauto. }
    unfold longer_cuid in Hle. rewrite Hlen in Hle. lia.
  - intros X. unfold longer_cuid. cbn. discriminate.
Defined.

Module Examples.

Definition leg_day : Workout :=
  {| w_name := "Leg Day"; w_description := None; w_category := "strength";
     w_isFavorite := false; w_createdAt := 1; w_updatedAt := 1 |}.

Definition squats : Exercise :=
  {| e_name := "Squats"; e_reps := Some 10; e_sets := Some 4; e_duration := None;
     e_notes := None; e_workoutId := "w1"; e_order := 1 |}.

Definition lunges : Exercise :=
  {| e_name := "Lunges"; e_reps := Some 15; e_sets := Some 3; e_duration := None;
     e_notes := None; e_workoutId := "w1"; e_order := 0 |}.

Definition db0 : DB :=
  {| workouts := {[ "w1" := leg_day ]};
     exercises := {[ "e1" := squats; "e2" := lunges ]};
     completions := ∅ |}.

Definition directive : UpdateExerciseData :=
  {| u_id := None; u_name := None; u_reps := None; u_sets := None;
     u_duration := None; u_notes := None; u_order := None; u_action := None |}.

Definition with_id (id : string) (d : UpdateExerciseData) : UpdateExerciseData :=
  {| u_id := Some id; u_name := u_name d; u_reps := u_reps d; u_sets := u_sets d;
     u_duration := u_duration d; u_notes := u_notes d; u_order := u_order d;
     u_action := u_action d |}.

Definition with_name (name : string) (d : UpdateExerciseData) : UpdateExerciseData :=
  {| u_id := u_id d; u_name := Some name; u_reps := u_reps d; u_sets := u_sets d;
     u_duration := u_duration d; u_notes := u_notes d; u_order := u_order d;
     u_action := u_action d |}.

Definition with_action (a : Action) (d : UpdateExerciseData) : UpdateExerciseData :=
  {| u_id := u_id d; u_name := u_name d; u_reps := u_reps d; u_sets := u_sets d;
     u_duration := u_duration d; u_notes := u_notes d; u_order := u_order d;
     u_action := Some a |}.

Definition with_order (order : Z) (d : UpdateExerciseData) : UpdateExerciseData :=
  {| u_id := u_id d; u_name := u_name d; u_reps := u_reps d; u_sets := u_sets d;
     u_duration := u_duration d; u_notes := u_notes d; u_order := Some order;
     u_action := u_action d |}.

(** The mixed update: rename [e1], create "New" with an explicit tag. *)
Definition mixed_update : list UpdateExerciseData :=
  [ with_name "Updated" (with_id "e1" directive);
    with_action ActCreate (with_order 2 (with_name "New" directive)) ].

(** A batch whose delete names no row: the creation before it is dispatched
    first, then the delete throws. *)
Definition failing_batch : list UpdateExerciseData :=
  [ with_name "New" directive;
    with_action ActDelete (with_id "zz" directive) ].

Definition rename_and_fail : UpdateWorkoutRequest :=
  {| r_name := Some "Renamed"; r_description := None; r_category := None;
     r_exercises := Some failing_batch |}.

(** A list of id-bearing directives, one of them an explicit delete. *)
Definition delete_e1 : list UpdateExerciseData :=
  [ with_action ActDelete (with_id "e1" directive) ].

(** An id-bearing directive tagged [create]. *)
Definition create_e1 : list UpdateExerciseData :=
  [ with_action ActCreate (with_id "e1" directive) ].

(** The same, followed by a delete that names no row. *)
Definition create_e1_and_fail : list UpdateExerciseData :=
  [ with_action ActCreate (with_id "e1" directive);
    with_action ActDelete (with_id "zz" directive) ].

(** A delete without an id. *)
Definition delete_nothing : list UpdateExerciseData :=
  [ with_action ActDelete directive ].

(** A pure partial patch. *)
Definition patch_e1 : list UpdateExerciseData :=
  [ with_action ActUpdate (with_name "Back Squats" (with_id "e1" directive)) ].

(** A runtime for the examples: [Number] and [parseInt] as the language
    defines them on numbers, [null], booleans and [undefined]; the examples
    feed them no strings, arrays or objects, which are sent to [NaN] here.
    Numbers are taken as exact rationals, not rounded to doubles. *)
Definition example_Number (v : value) : number :=
  match v with
  | VNum n => n
  | VNull => Fin 0
  | VBool b => Fin (if b then 1 else 0)
  | _ => NaN
  end.

Definition truncate (q : Q) : Z :=
  if Qle_bool 0 q then Qfloor q else Qceiling q.

(** [parseInt] reads the integer at the head of the number's decimal
    string.  From 1e21 on and below 1e-6 that string is in exponent form
    ("5e+21", "1.5e-7") and the integer at its head is the leading digit. *)
Definition plain_notation (q : Q) : bool :=
  is_zero q
  || (Qle_bool (1 # 1000000) (Qabs q) && negb (Qle_bool (inject_Z (10 ^ 21)) (Qabs q))).

Fixpoint head_digit (fuel : nat) (n : Z) : Z :=
  if bool_decide (n < 10)%Z then n
  else match fuel with
       | O => n
       | S fuel' => head_digit fuel' (n `div` 10)
       end.

Fixpoint first_digit (fuel : nat) (q : Q) : Z :=
  if Qle_bool 1 q then head_digit (Z.to_nat (Z.log2 (Qfloor q))) (Qfloor q)
  else match fuel with
       | O => 0
       | S fuel' => first_digit fuel' (q * 10)
       end.

Definition leading_digit (q : Q) : Z :=
  let digit := first_digit (S (Z.to_nat (Z.log2 (Zpos (Qden q))))) (Qabs q) in
  if Qle_bool 0 q then digit else (- digit)%Z.

Definition example_parseInt (v : value) : number :=
  match v with
  | VNum (Fin q) =>
      Fin (inject_Z (if plain_notation q then truncate q else leading_digit q))
  | _ => NaN
  end.

Definition num (z : Z) : value := VNum (Fin (inject_Z z)).

(** The creation scenario, its exercise without [order]. *)
Definition create_without_order : value :=
  VObj [ ("name", VStr "Leg Day");
         ("category", VStr "strength");
         ("exercises",
          VArr [ VObj [ ("name", VStr "Squats"); ("sets", num 4); ("reps", num 10) ] ]) ].

Definition create_with_order : value :=
  VObj [ ("name", VStr "Leg Day");
         ("category", VStr "Strength");
         ("exercises",
          VArr [ VObj [ ("name", VStr "  Back   squats ");
                        ("sets", num 4); ("reps", num 10); ("order", num 3) ] ]) ].

Definition request (exerciseUpdates : list UpdateExerciseData) : UpdateWorkoutRequest :=
  {| r_name := None; r_description := None; r_category := None;
     r_exercises := Some exerciseUpdates |}.

End Examples.

(** ** Notions used in the statements *)

(** An operation keeps the invariant of the exercise ids. *)
Definition keeps_ids {A} (m : Tx A) : Prop :=
  ∀ db r db', m db = (r, db') → ids_nonempty db → ids_nonempty db'.


(** The three branches of the dispatch. *)
Inductive Dispatch := DispatchDelete | DispatchUpdate | DispatchCreate.

Definition dispatch_of (existingExerciseIds : gset string) (d : UpdateExerciseData)
    : Dispatch :=
  if is_action ActDelete d && truthy (u_id d) then DispatchDelete
  else if truthy (u_id d) && bool_decide (default "" (u_id d) ∈ existingExerciseIds)
       then DispatchUpdate
       else DispatchCreate.

(** The name C5 promises as it is worded: the directive's name, the
    placeholder only when the name is missing. *)
Definition name_as_stated (d : UpdateExerciseData) : string :=
  default "Untitled Exercise" (u_name d).

Definition response_isFavorite (r : Response) : option bool :=
  match body r with
  | BWorkout w => Some (wr_isFavorite w)
  | _ => None
  end.

(** The exercise ids of the workout a response carries, in their order. *)
Definition response_exercise_ids (r : Response) : list string :=
  match body r with
  | BWorkout w => er_id <$> wr_exercises w
  | _ => []
  end.

(** Ascending by the [order] field a response carries. *)
Definition by_order : relation ExerciseResponse :=
  λ a b, (er_order a ≤ er_order b)%Z.

Definition exercises_sorted (w : WorkoutResponse) : Prop :=
  StronglySorted by_order (wr_exercises w).

(** The entry [r] of a response shows the row [e] of the store: field by
    field what is persisted, [order] included. *)
Definition shows_row (r : ExerciseResponse) (e : Exercise) : Prop :=
  er_name r = e_name e ∧ er_reps r = e_reps e ∧ er_sets r = e_sets e
  ∧ er_duration r = e_duration e ∧ er_notes r = e_notes e ∧ er_order r = e_order e.

(** The exercises of a representation are those the store holds for the
    workout it names: none twice, and an entry is listed exactly when its
    id is that of a row owned by the workout, which it shows. *)
Definition exercises_persisted (db : DB) (w : WorkoutResponse) : Prop :=
  NoDup (er_id <$> wr_exercises w)
  ∧ ∀ r, r ∈ wr_exercises w ↔
      ∃ e, exercises db !! er_id r = Some e ∧ e_workoutId e = wr_id w ∧ shows_row r e.

(** Every workout representation in a response body lists the exercises
    persisted in [db] for its workout, in ascending [order]. *)
Definition workouts_in_order (db : DB) (r : Response) : Prop :=
  match body r with
  | BWorkout w => exercises_sorted w ∧ exercises_persisted db w
  | BWorkoutList data _ => Forall (λ w, exercises_sorted w ∧ exercises_persisted db w) data
  | _ => True
  end.

(** * The rest of the API layer

    The handlers and helpers the statements above do not reach. *)

(** ** [DELETE /api/workouts/[id]]

    The exercises of a workout go with it ([onDelete: Cascade]).  For the
    completions the handler's comment says the same, while the schema
    printed in [API_DOCUMENTATION.md] declares no referential action, under
    which the store refuses to delete a workout that still has
    completions; the schema file itself is not among the sources, so
    [completions_cascade] says which of the two holds.  Which error the
    store raises when it refuses is not in the sources either; it is taken
    to be the one for a violated required relation (P2014), a code the
    error handler has no case for. *)
Definition workout_delete (completions_cascade : bool) (id : string) : Tx unit :=
  λ db, match workouts db !! id with
        | None => (inl (PrismaError "P2025"), db)
        | Some _ =>
            if negb completions_cascade && bool_decide (completions_of id db ≠ [])
            then (inl (PrismaError "P2014"), db)
            else (inr (),
                  {| workouts := delete id (workouts db);
                     exercises := filter (λ kv, e_workoutId kv.2 ≠ id) (exercises db);
                     completions := filter (λ kv, c_workoutId kv.2 ≠ id) (completions db) |})
        end.

(** [NextResponse.json(data, { status })] where the status may be
    [NO_CONTENT]: a 204 response takes no body, and the constructor throws
    rather than build one around [data]. *)
Definition json_response (data : Body) (statusCode : Z) : Exn + Response :=
  if bool_decide (statusCode = HTTP_STATUS.NO_CONTENT)
  then inl OtherError
  else inr (createSuccessResponse data statusCode).

(** The handler answers a successful delete with
    [createSuccessResponse({ message }, HTTP_STATUS.NO_CONTENT)], inside
    its [try]: the exception of the response constructor is caught like
    any other, after the row is gone. *)
Definition DELETE (completions_cascade : bool) (id : string) (db : DB) : Response * DB :=
  match workouts db !! id with
  | None => (not_found id, db)
  | Some existingWorkout =>
      match workout_delete completions_cascade id db with
      | (inl error, db') => (handleApiError error, db')
      | (inr _, db') =>
          match json_response (BMessage "Workout deleted successfully")
                  HTTP_STATUS.NO_CONTENT with
          | inl error => (handleApiError error, db')
          | inr response => (response, db')
          end
      end
  end.

(** ** [POST /api/workouts/[id]/complete] *)

(** The typed request; as for the other request types, a [duration] that
    [parseInt] turned into NaN is no value of it. *)
Record CompleteWorkoutRequest := {
  cw_notes : option string;
  cw_duration : option Z
}.

Section complete.
Context `{IdGen}.

(** [prisma.workoutCompletion.create]: [completedAt] defaults to the
    instant of the write; the owning workout must exist. *)
Definition completion_create (now : Z) (workoutId : string) (notes : option string)
    (duration : option Z) : Tx (string * WorkoutCompletion) :=
  λ db, match workouts db !! workoutId with
        | Some _ =>
            let id := cuid (dom (completions db)) in
            let c := {| c_workoutId := workoutId; c_completedAt := now;
                        c_notes := notes; c_duration := duration |} in
            (inr (id, c), set_completions <[id := c]> db)
        | None => (inl (PrismaError "P2003"), db)
        end.

(** [validated] is the outcome of [validateCompleteWorkout] on the body. *)
Definition POST_complete (now : Z) (id : string) (validated : Exn + CompleteWorkoutRequest)
    (db : DB) : Response * DB :=
  match workouts db !! id with
  | None => (not_found id, db)
  | Some existingWorkout =>
      match validated with
      | inl error => (handleApiError error, db)
      | inr validatedData =>
          match completion_create now id (cw_notes validatedData)
                  (cw_duration validatedData) db with
          | (inl error, db') => (handleApiError error, db')
          | (inr completion, db') =>
              (createSuccessResponse
                 (BCompletion "Workout completed successfully" (completionResponse completion))
                 HTTP_STATUS.CREATED, db')
          end
      end
  end.

End complete.

Section validate_complete.
Variable Number : value → number.
Variable parseInt : value → number.

Definition completeWorkout_errors (data : value) : list string :=
  (if is_nullish (get data "notes") then []
   else opt_to_list (validateString (get data "notes") "notes" (Some 0%Z) (Some 1000%Z)))
  ++ (if is_nullish (get data "duration") then []
      else opt_to_list (validateNumber Number (get data "duration") "duration"
                          (Some 1%Z) (Some 600%Z))).

(** [if (data.key !== undefined && data.key !== null) result.key = v] *)
Definition assign_if_present (data : value) (key : string) (v : value)
    (fields : list (string * value)) : list (string * value) :=
  if is_nullish (get data key) then fields else set key v fields.

Definition validateCompleteWorkout (data : value) : Exn + value :=
  if is_nullish data then inl OtherError
  else
    let errors := completeWorkout_errors data in
    if bool_decide (0 < length errors)%nat
    then inl (ValidationError "Validation failed" (Some errors))
    else inr (VObj
      (assign_if_present data "duration" (VNum (parseInt (get data "duration")))
      (assign_if_present data "notes" (sanitized (get data "notes")) []))).

End validate_complete.

(** ** A store with two workouts, for the examples of the further properties *)

Module Gym.

Definition push_day : Workout :=
  {| w_name := "Push Day"; w_description := Some "Chest and arms"; w_category := "strength";
     w_isFavorite := true; w_createdAt := 2; w_updatedAt := 3 |}.

Definition bench : Exercise :=
  {| e_name := "Bench Press"; e_reps := Some 8; e_sets := Some 5; e_duration := None;
     e_notes := None; e_workoutId := "w2"; e_order := 0 |}.

Definition monday : WorkoutCompletion :=
  {| c_workoutId := "w1"; c_completedAt := 5; c_notes := None; c_duration := Some 45 |}.

Definition db2 : DB :=
  {| workouts := {[ "w1" := Examples.leg_day; "w2" := push_day ]};
     exercises := {[ "e1" := Examples.squats; "e2" := Examples.lunges; "e3" := bench ]};
     completions := {[ "c1" := monday ]} |}.

(** A request on one workout that deletes, by its id, an exercise of another. *)
Definition delete_e3 : UpdateWorkoutRequest :=
  Examples.request [ Examples.with_action ActDelete (Examples.with_id "e3" Examples.directive) ].

(** A request that names an exercise of another workout without the delete tag. *)
Definition rename_e3 : UpdateWorkoutRequest :=
  Examples.request [ Examples.with_name "Mine" (Examples.with_id "e3" Examples.directive) ].

(** A full replacement: two directives without an id, one without a name. *)
Definition new_plan : list UpdateExerciseData :=
  [ Examples.with_order 1 (Examples.with_name "Deadlift" Examples.directive);
    Examples.directive ].

(** A directive that renames [e1] and clears its [reps]. *)
Definition clear_reps : UpdateExerciseData :=
  {| u_id := Some "e1"; u_name := Some "Back Squats"; u_reps := Some None; u_sets := None;
     u_duration := None; u_notes := None; u_order := None; u_action := Some ActUpdate |}.

Definition rename_e2 : UpdateExerciseData :=
  Examples.with_name "Walking lunges" (Examples.with_id "e2" Examples.directive).

Definition rename_only : UpdateWorkoutRequest :=
  {| r_name := Some "Legs"; r_description := Some None; r_category := None;
     r_exercises := Some [] |}.

(** A creation request whose exercises come in the order of their [order]. *)
Definition pull_day : CreateWorkoutRequest :=
  {| cr_name := "Pull Day"; cr_description := None; cr_category := "strength";
     cr_exercises :=
       [ {| ce_name := "Rows"; ce_reps := Some 10; ce_sets := Some 3; ce_duration := None;
            ce_notes := None; ce_order := 0 |};
         {| ce_name := "Curls"; ce_reps := Some 12; ce_sets := None; ce_duration := None;
            ce_notes := Some "slow"; ce_order := 1 |} ] |}.

Definition done_in_40 : CompleteWorkoutRequest :=
  {| cw_notes := Some "felt good"; cw_duration := Some 40 |}.

(** String filters that compare letter by letter, ASCII case folded: what
    a store answers for an operand without pattern characters. *)
Definition letter_by_letter : StringFilters :=
  {| insensitive_equals column operand :=
       bool_decide (toLowerCase column = toLowerCase operand);
     insensitive_contains column operand :=
       contains (toLowerCase operand) (toLowerCase column) |}.

(** A store's [skip] / [take] on a list of rows. *)
Definition window (skip take : Z) (rows : list (string * Workout))
    : Exn + list (string * Workout) :=
  if bool_decide (skip < 0)%Z then inl (PrismaError "P2019")
  else inr (List.firstn (Z.to_nat take) (List.skipn (Z.to_nat skip) rows)).

Definition strength_page : WorkoutQuery :=
  {| q_category := Some "Strength"; q_search := None; q_favorite := None;
     q_page := 1; q_limit := 20 |}.

(** A creation payload whose exercise has a fractional [order]. *)
Definition sent_exercise : value :=
  VObj [ ("name", VStr "  Back   squats "); ("sets", Examples.num 4);
         ("order", VNum (Fin (5 # 2))) ].

Definition sent_payload : value :=
  VObj [ ("name", VStr " Leg  Day"); ("category", VStr "Strength");
         ("description", VStr "");
         ("exercises", VArr [ sent_exercise ]) ].

Definition validated_payload : value :=
  Eval vm_compute in
    match validateCreateWorkout Examples.example_Number Examples.example_parseInt
            sent_payload with
    | inr result => result
    | inl _ => VUndefined
    end.

(** A creation payload whose only flaw is a [null] entry. *)
Definition payload_with_null : value :=
  VObj [ ("name", VStr "Leg Day"); ("category", VStr "strength");
         ("exercises", VArr [ sent_exercise; VNull ]) ].

(** A directive of an update payload that clears [reps]. *)
Definition patch_payload : value :=
  VObj [ ("id", VStr "e1"); ("name", VStr "  Back   squats "); ("reps", VNull);
         ("order", Examples.num 2); ("_action", VStr "update") ].

Definition validated_patch : value :=
  Eval vm_compute in
    match validateUpdateExercise Examples.example_Number Examples.example_parseInt
            patch_payload with
    | inr result => result
    | inl _ => VUndefined
    end.

Definition completion_payload : value :=
  VObj [ ("notes", VStr " felt   good "); ("duration", Examples.num 40) ].

End Gym.

(** * The progress page and the middleware

    ** [calculateStreak] (progress page) *)

(** One day in milliseconds. *)
Definition DAY : Z := 24 * 60 * 60 * 1000.

(** [[...new Set(dates)]]: the first occurrence of each date, in order. *)
Fixpoint unique (seen : list Z) (dates : list Z) : list Z :=
  match dates with
  | [] => []
  | date :: rest =>
      if decide (date ∈ seen) then unique seen rest else date :: unique (date :: seen) rest
  end.

(** [sort((a, b) => b - a)]; the dates sorted are distinct, so the result
    does not depend on the sorting algorithm. *)
Definition descending : relation Z := λ a b, (b ≤ a)%Z.

Global Instance descending_dec : RelDecision descending.
Proof. intros a b. unfold descending. apply _. Defined.

(** The [for] loop from index [i] on, over the dates from that index on;
    the result is what the loop adds to [streak]. *)
Fixpoint streak_from (todayTime : Z) (i : nat) (uniqueDates : list Z) : nat :=
  match uniqueDates with
  | [] => 0
  | date :: rest =>
      if bool_decide (date = todayTime - Z.of_nat i * DAY)%Z
      then S (streak_from todayTime (S i) rest)
      else if bool_decide (i = 0)%nat && bool_decide (date = todayTime - DAY)%Z
           then S (streak_from todayTime (S i) rest)
           else 0%nat
  end.

(** [startOfDay t] is the local midnight of the instant [t]
    ([new Date(y, m, d).getTime()]); [now] is the instant of the call;
    a completion is given by its [completedAt]. *)
Definition calculateStreak (startOfDay : Z → Z) (now : Z) (completions : list Z) : nat :=
  if bool_decide (length completions = 0)%nat then 0%nat
  else
    let dates := startOfDay <$> completions in
    let uniqueDates := merge_sort descending (unique [] dates) in
    streak_from (startOfDay now) 0 uniqueDates.

(** ** [checkRateLimit] (middleware) *)

Record RateWindow := { rw_count : Z; rw_resetTime : Z }.

Record RateLimitResult := { allowed : bool; remaining : Z; resetTime : Z }.

(** [requestCounts] is the module's map; [now] is [Date.now()]. *)
Definition checkRateLimit (identifier : string) (limit windowMs now : Z)
    (requestCounts : gmap string RateWindow) : RateLimitResult * gmap string RateWindow :=
  let requestCounts := filter (λ kv, ¬ (rw_resetTime kv.2 < now)%Z) requestCounts in
  let new_window :=
    let resetTime := (now + windowMs)%Z in
    ({| allowed := true; remaining := limit - 1; resetTime := resetTime |},
     <[identifier := {| rw_count := 1; rw_resetTime := resetTime |}]> requestCounts) in
  match requestCounts !! identifier with
  | None => new_window
  | Some existing =>
      if bool_decide (rw_resetTime existing < now)%Z then new_window
      else if bool_decide (limit ≤ rw_count existing)%Z then
        ({| allowed := false; remaining := 0; resetTime := rw_resetTime existing |},
         requestCounts)
      else
        let count := (rw_count existing + 1)%Z in
        ({| allowed := true; remaining := limit - count;
            resetTime := rw_resetTime existing |},
         <[identifier := {| rw_count := count; rw_resetTime := rw_resetTime existing |}]>
           requestCounts)
  end.

(** One client calling at the instants [times], one call after the other. *)
Fixpoint requests (identifier : string) (limit windowMs : Z) (times : list Z)
    (requestCounts : gmap string RateWindow) : list RateLimitResult :=
  match times with
  | [] => []
  | now :: rest =>
      let r := checkRateLimit identifier limit windowMs now requestCounts in
      r.1 :: requests identifier limit windowMs rest r.2
  end.

(** ** [formatDate] (history page) *)

(** [Math.ceil(diffTime / (1000 * 60 * 60 * 24))] on whole milliseconds. *)
Definition ceil_days (diffTime : Z) : Z := (- ((- diffTime) `div` DAY))%Z.

(** [toLocaleDateString date with_year] stands for the locale's rendering
    of the date, with the year when [with_year] holds; [getFullYear] is the
    calendar year of an instant; [now] is the instant of the call. *)
Definition formatDate (toLocaleDateString : Z → bool → string) (getFullYear : Z → Z)
    (now date : Z) : string :=
  let diffTime := (now - date)%Z in
  let diffDays := ceil_days diffTime in
  if bool_decide (diffDays = 1)%Z then "Yesterday"
  else if bool_decide (diffDays = 0)%Z then "Today"
  else if bool_decide (diffDays < 7)%Z then pretty diffDays +:+ " days ago"
  else toLocaleDateString date (bool_decide (getFullYear date ≠ getFullYear now)).

(** ** [getCategoryStats] (progress page) *)

(** [acc[category] = (acc[category] || 0) + 1]: a key that is there keeps
    its place among the entries, a new one comes last.  (A key that reads as
    an array index would be listed first by [Object.entries]; the
    categories the API stores are words.) *)
Fixpoint bump (category : string) (acc : list (string * Z)) : list (string * Z) :=
  match acc with
  | [] => [(category, 1%Z)]
  | (k, n) :: rest =>
      if decide (k = category) then (k, (n + 1)%Z) :: rest else (k, n) :: bump category rest
  end.

(** [sort(([, a], [, b]) => b - a)]: larger counts first, entries with the
    same count in the order they had (the sort is stable). *)
Fixpoint insert_by_count (x : string * Z) (sorted : list (string * Z))
    : list (string * Z) :=
  match sorted with
  | [] => [x]
  | y :: rest =>
      if bool_decide (x.2 < y.2)%Z then y :: insert_by_count x rest else x :: y :: rest
  end.

Definition sort_by_count (entries : list (string * Z)) : list (string * Z) :=
  foldr insert_by_count [] entries.

(** The categories of the workouts completed in the last 90 days, one for
    each completion, in the order the store returns the completions. *)
Definition recent_categories (now : Z) (db : DB) : list string :=
  let threeMonthsAgo := (now - 90 * 24 * 60 * 60 * 1000)%Z in
  omap (λ kv, w_category <$> workouts db !! c_workoutId kv.2)
    (filter (λ kv, (threeMonthsAgo ≤ c_completedAt kv.2)%Z) (map_to_list (completions db))).

Definition getCategoryStats (now : Z) (db : DB) : list (string * Z) :=
  let categoryStats := foldl (λ acc category, bump category acc) [] (recent_categories now db) in
  take 5 (sort_by_count categoryStats).

(** The count a tally holds for a category, 0 when it has none. *)
Fixpoint count_in (category : string) (acc : list (string * Z)) : Z :=
  match acc with
  | [] => 0%Z
  | (k, n) :: rest => if decide (k = category) then n else count_in category rest
  end.

(** How often a category occurs in a list of categories. *)
Definition occurrences (category : string) (categories : list string) : Z :=
  Z.of_nat (length (filter (λ c, c = category) categories)).

(** ** The middleware wrapper ([withApiMiddleware])

    Of a request the wrapper reads the method and four headers
    ([headers.get] is [null] for a header that is not there). *)

Record Request := {
  rq_method : string;
  rq_content_type : option string;
  rq_forwarded_for : option string;
  rq_real_ip : option string;
  rq_remote_address : option string
}.

(** A response with the headers the wrapper sets on it; [handleOptions]
    answers without a body. *)
Record Served := {
  sv_status : Z;
  sv_body : option Body;
  sv_headers : list (string * string)
}.

Definition corsHeaders : list (string * string) :=
  [ ("Access-Control-Allow-Origin", "*");
    ("Access-Control-Allow-Methods", "GET, POST, PUT, DELETE, PATCH, OPTIONS");
    ("Access-Control-Allow-Headers", "Content-Type, Authorization") ].

(** A response of [createErrorResponse], before any header is set on it. *)
Definition serve (r : Response) : Served :=
  {| sv_status := status r; sv_body := Some (body r); sv_headers := [] |}.

Definition validateHttpMethod (request : Request) (allowedMethods : list string)
    : option Response :=
  if bool_decide (rq_method request ∈ allowedMethods) then None
  else Some (createErrorResponse
               ("Method " +:+ rq_method request +:+ " not allowed. Allowed methods: "
                +:+ join ", " allowedMethods)
               HTTP_STATUS.METHOD_NOT_ALLOWED None).

Definition handleOptions : Served :=
  {| sv_status := 200; sv_body := None; sv_headers := corsHeaders |}.

(** [response.headers.set(key, value)], on names written in one case. *)
Fixpoint set_header (key value : string) (headers : list (string * string))
    : list (string * string) :=
  match headers with
  | [] => [(key, value)]
  | (k, v) :: rest =>
      if decide (k = key) then (k, value) :: rest else (k, v) :: set_header key value rest
  end.

Definition addCorsHeaders (response : Served) : Served :=
  {| sv_status := sv_status response;
     sv_body := sv_body response;
     sv_headers := foldl (λ headers kv, set_header kv.1 kv.2 headers)
                     (sv_headers response) corsHeaders |}.

(** [s.split(',')[0]] *)
Fixpoint before_comma (s : string) : string :=
  match s with
  | EmptyString => EmptyString
  | String c s' => if bool_decide (c = ","%char) then EmptyString else String c (before_comma s')
  end.

Fixpoint trim_start (s : string) : string :=
  match s with
  | EmptyString => EmptyString
  | String c s' => if is_space c then trim_start s' else s
  end.

Fixpoint trim_end (s : string) : string :=
  match s with
  | EmptyString => EmptyString
  | String c s' =>
      match trim_end s' with
      | EmptyString => if is_space c then EmptyString else String c EmptyString
      | kept => String c kept
      end
  end.

(** [s.trim()] on ASCII text. *)
Definition trim (s : string) : string := trim_end (trim_start s).

Definition getClientIP (request : Request) : string :=
  if truthy (rq_forwarded_for request)
  then trim (before_comma (default "" (rq_forwarded_for request)))
  else if truthy (rq_real_ip request) then default "" (rq_real_ip request)
  else if truthy (rq_remote_address request) then default "" (rq_remote_address request)
  else "unknown".

Definition validateContentType (request : Request) : option Response :=
  if bool_decide (rq_method request ∈ ["POST"; "PUT"; "PATCH"]) then
    if negb (truthy (rq_content_type request))
       || negb (contains "application/json" (default "" (rq_content_type request)))
    then Some (createErrorResponse "Content-Type must be application/json"
                 HTTP_STATUS.BAD_REQUEST None)
    else None
  else None.

(** The [options] of the wrapper; a key left out takes its default. *)
Record MiddlewareOptions := {
  o_allowedMethods : option (list string);
  o_requireAuth : option bool;
  o_rateLimit : option (Z * Z);
  o_cors : option bool
}.

(** [Math.ceil(ms / 1000)] on a whole number of milliseconds. *)
Definition ceil_seconds (ms : Z) : Z := (- ((- ms) `div` 1000))%Z.

(** The wrapped handler.  [handler] is the route handler, which runs on a
    state of its own and may throw; [requestCounts] is the module's map of
    the rate limiter; [now] and [later] are the two readings of
    [Date.now()], in [checkRateLimit] and for the [Retry-After] header. *)
Definition withApiMiddleware {S : Type}
    (handler : Request → S → (Exn + Served) * S)
    (options : option MiddlewareOptions)
    (request : Request) (now later : Z)
    (requestCounts : gmap string RateWindow) (s : S)
    : Served * gmap string RateWindow * S :=
  let allowedMethods :=
    default ["GET"; "POST"; "PUT"; "DELETE"; "PATCH"] (options ≫= o_allowedMethods) in
  let cors := default true (options ≫= o_cors) in
  let finish (response : Served) := if cors then addCorsHeaders response else response in
  let call requestCounts :=
    match handler request s with
    | (inr response, s') => (finish response, requestCounts, s')
    | (inl _, s') =>
        (finish (serve (createErrorResponse "Internal server error"
                          HTTP_STATUS.INTERNAL_SERVER_ERROR None)), requestCounts, s')
    end in
  if bool_decide (rq_method request = "OPTIONS") then (handleOptions, requestCounts, s)
  else
    match validateHttpMethod request allowedMethods with
    | Some methodError => (finish (serve methodError), requestCounts, s)
    | None =>
        match validateContentType request with
        | Some contentTypeError => (finish (serve contentTypeError), requestCounts, s)
        | None =>
            match options ≫= o_rateLimit with
            | Some (limit, windowMs) =>
                let rateLimitResult :=
                  checkRateLimit (getClientIP request) limit windowMs now requestCounts in
                if allowed rateLimitResult.1 then call rateLimitResult.2
                else
                  let response := serve (createErrorResponse "Too many requests" 429 None) in
                  let response :=
                    {| sv_status := sv_status response; sv_body := sv_body response;
                       sv_headers :=
                         set_header "Retry-After"
                           (pretty (ceil_seconds (resetTime rateLimitResult.1 - later)))
                           (sv_headers response) |} in
                  (finish response, rateLimitResult.2, s)
            | None => call requestCounts
            end
        end
    end.

(** Instants for the examples: midnights in a zone without offset. *)
Module Days.

Definition utc_midnight (t : Z) : Z := (t `div` DAY * DAY)%Z.

(** An instant of the day number [d], [ms] milliseconds after midnight. *)
Definition at_day (d ms : Z) : Z := (d * DAY + ms)%Z.

Definition five_days_until_yesterday : list Z :=
  [ at_day 9 64000000; at_day 8 100; at_day 7 0; at_day 9 5; at_day 6 7; at_day 5 7 ].

Definition three_days_until_today : list Z :=
  [ at_day 8 100; at_day 10 3; at_day 9 64000000; at_day 10 1; at_day 6 7 ].

End Days.

(** Requests for the examples of the middleware. *)
Module Wire.

(** A handler that toggles the favourite flag of workout [w1]. *)
Definition toggle (request : Request) (db : DB) : (Exn + Served) * DB :=
  let r := PATCH 9 "w1" db in (inr (serve r.1), r.2).

Definition post_plain : Request :=
  {| rq_method := "POST"; rq_content_type := Some "text/plain";
     rq_forwarded_for := None; rq_real_ip := Some "10.0.0.7"; rq_remote_address := None |}.

Definition get_behind_proxy : Request :=
  {| rq_method := "GET"; rq_content_type := None;
     rq_forwarded_for := Some " 10.0.0.7 , 192.168.0.1"; rq_real_ip := Some "192.168.0.1";
     rq_remote_address := None |}.

Definition two_per_second : MiddlewareOptions :=
  {| o_allowedMethods := None; o_requireAuth := None; o_rateLimit := Some (2, 1000)%Z;
     o_cors := None |}.

Definition used_up : gmap string RateWindow :=
  {[ "10.0.0.7" := {| rw_count := 2; rw_resetTime := 5000 |} ]}.

End Wire.

(** ** Relating the store before and after an operation *)

Definition respects (R : relation DB) {A} (m : Tx A) : Prop :=
  ∀ db r db', m db = (r, db') → R db db'.

(** The workout and completion tables are as they were. *)
Definition same_workouts_completions : relation DB :=
  λ db db', workouts db' = workouts db ∧ completions db' = completions db.

(** ** Store invariant: every exercise and completion has its workout *)

Definition ref_integrity (db : DB) : Prop :=
  (∀ eid e, exercises db !! eid = Some e → is_Some (workouts db !! e_workoutId e))
  ∧ (∀ cid c, completions db !! cid = Some c → is_Some (workouts db !! c_workoutId c)).

(** The invariant as a check on the rows of a store. *)
Definition ref_integrity_check (db : DB) : bool :=
  forallb (λ kv, bool_decide (is_Some (workouts db !! e_workoutId kv.2)))
    (map_to_list (exercises db))
  && forallb (λ kv, bool_decide (is_Some (workouts db !! c_workoutId kv.2)))
       (map_to_list (completions db)).

(** The data of an exercise as a response shows it, in the shape of the
    creation request. *)
Definition exercise_data_of_response (r : ExerciseResponse) : CreateExerciseData :=
  {| ce_name := er_name r; ce_reps := er_reps r; ce_sets := er_sets r;
     ce_duration := er_duration r; ce_notes := er_notes r; ce_order := er_order r |}.

Definition response_workout (r : Response) : option WorkoutResponse :=
  match body r with
  | BWorkout w => Some w
  | _ => None
  end.

(** The order of [GET /api/workouts] as the responses show it. *)
Definition favorites_first_response : relation WorkoutResponse :=
  λ a b, match wr_isFavorite a, wr_isFavorite b with
         | true, false => True
         | false, true => False
         | _, _ => (wr_updatedAt b ≤ wr_updatedAt a)%Z
         end.

Definition response_list (r : Response) : option (list WorkoutResponse * Pagination) :=
  match body r with
  | BWorkoutList data pagination => Some (data, pagination)
  | _ => None
  end.

(** A text in the normal form of [sanitizeString]: it does not start or end
    with white space, and its only white space is single blanks.
    [after_char] says that the text so far ends in a character that is not
    white space. *)
Fixpoint single_spaced (after_char : bool) (s : string) : bool :=
  match s with
  | EmptyString => after_char
  | String c s' =>
      if is_space c then after_char && bool_decide (c = " "%char) && single_spaced false s'
      else single_spaced true s'
  end.

Definition normalized (s : string) : Prop := s = "" ∨ single_spaced false s = true.

(** The characters of a text that are not white space, in their order. *)
Fixpoint non_spaces (s : string) : list Ascii.ascii :=
  match s with
  | EmptyString => []
  | String c s' => if is_space c then non_spaces s' else c :: non_spaces s'
  end.

(** The workout representations a response body carries. *)
Definition workouts_of_response (r : Response) : list WorkoutResponse :=
  match body r with
  | BWorkout w => [w]
  | BWorkoutList data _ => data
  | _ => []
  end.

(** The counters of a workout representation agree with what it lists. *)
Definition counts_consistent (w : WorkoutResponse) : Prop :=
  wr_exerciseCount w = length (wr_exercises w)
  ∧ (wr_completionCount w = 0%nat ↔ wr_lastCompleted w = None)
  ∧ ∀ completions,
      wr_completions w = Some completions →
      wr_completionCount w = length completions
      ∧ wr_lastCompleted w = wc_completedAt <$> head completions.

(** The relation of a store to any later store in which [P] still holds. *)
Definition preserves (P : DB → Prop) : relation DB := λ db db', P db → P db'.

(** * Properties *)

(** ** The transaction monad *)

Lemma bind_inr_inv {A B} (m : Tx A) (k : A → Tx B) db b db' :
  bind m k db = (inr b, db') →
  ∃ a db1, m db = (inr a, db1) ∧ k a db1 = (inr b, db').
Proof.
  unfold bind. destruct (m db) as [[e|a] db1] eqn:Hm; [discriminate|]. eauto.
Qed.

Lemma bind_inl {A B} (m : Tx A) (k : A → Tx B) db e db1 :
  m db = (inl e, db1) → bind m k db = (inl e, db1).
Proof. unfold bind. by intros ->. Qed.

Lemma bind_inr {A B} (m : Tx A) (k : A → Tx B) db a db1 :
  m db = (inr a, db1) → bind m k db = k a db1.
Proof. unfold bind. by intros ->. Qed.

Lemma transaction_inl {A} (callback : Tx A) db e db1 :
  callback db = (inl e, db1) → transaction callback db = (inl e, db).
Proof. unfold transaction. by intros ->. Qed.

Lemma transaction_inr {A} (callback : Tx A) db a db1 :
  callback db = (inr a, db1) → transaction callback db = (inr a, db1).
Proof. unfold transaction. by intros ->. Qed.

(** A transaction that reports an exception leaves the store as it was. *)
Lemma transaction_rollback {A} (callback : Tx A) db e db' :
  transaction callback db = (inl e, db') → db' = db.
Proof.
  unfold transaction. destruct (callback db) as [[e'|a] db1]; congruence.
Qed.

(** ** Store operations *)

Lemma exercise_delete_inv id db r db' :
  exercise_delete id db = (r, db') →
  (r = inl (PrismaError "P2025") ∧ db' = db ∧ exercises db !! id = None)
  ∨ (r = inr () ∧ db' = set_exercises (delete id) db ∧ is_Some (exercises db !! id)).
Proof.
  unfold exercise_delete. destruct (exercises db !! id) eqn:Hid; intros [= <- <-]; eauto.
Qed.

Lemma exercise_update_inv id data db r db' :
  exercise_update id data db = (r, db') →
  (r = inl (PrismaError "P2025") ∧ db' = db ∧ exercises db !! id = None)
  ∨ (∃ e, r = inr () ∧ exercises db !! id = Some e
          ∧ db' = set_exercises <[id := apply_update data e]> db).
Proof.
  unfold exercise_update. destruct (exercises db !! id) eqn:Hid; intros [= <- <-]; eauto.
Qed.

Lemma lookup_deleteMany ids db id :
  exercises (exercise_deleteMany ids db).2 !! id
  = if decide (id ∈ ids) then None else exercises db !! id.
Proof.
  cbn. destruct (decide (id ∈ ids)) as [Hin|Hin].
  - apply map_lookup_filter_None. right. intros x _. cbn. tauto.
  - destruct (exercises db !! id) as [e|] eqn:He.
    + apply map_lookup_filter_Some. done.
    + apply map_lookup_filter_None. by left.
Qed.

Lemma elem_of_exercises_of id db eid e :
  (eid, e) ∈ exercises_of id db ↔ exercises db !! eid = Some e ∧ e_workoutId e = id.
Proof.
  unfold exercises_of. rewrite elem_of_map_to_list, map_lookup_filter_Some. done.
Qed.

(** *** The invariant of the exercise ids *)

Lemma keeps_ids_ret {A} (a : A) : keeps_ids (ret a).
Proof. by intros db r db' [= <- <-]. Qed.

Lemma keeps_ids_bind {A B} (m : Tx A) (k : A → Tx B) :
  keeps_ids m → (∀ a, keeps_ids (k a)) → keeps_ids (bind m k).
Proof.
  intros Hm Hk db r db'. unfold bind.
  destruct (m db) as [[e|a] db1] eqn:Hrun.
  - intros [= <- <-]. by eapply Hm.
  - intros Hrun2 Hdb. eapply Hk; [done|]. by eapply Hm.
Qed.

Lemma keeps_ids_transaction {A} (m : Tx A) : keeps_ids m → keeps_ids (transaction m).
Proof.
  intros Hm db r db'. unfold transaction.
  destruct (m db) as [[e|a] db1] eqn:Hrun; intros [= <- <-]; [done|]. by eapply Hm.
Qed.

Lemma keeps_ids_subseteq {A} (m : Tx A) :
  (∀ db r db', m db = (r, db') → dom (exercises db') ⊆ dom (exercises db)) → keeps_ids m.
Proof. intros Hsub db r db' Hrun Hdb Hin. apply Hdb. by eapply Hsub. Qed.

Lemma keeps_ids_exercise_delete id : keeps_ids (exercise_delete id).
Proof.
  apply keeps_ids_subseteq. intros db r db' Hrun.
  apply exercise_delete_inv in Hrun as [(_ & -> & _)|(_ & -> & _)]; [done|].
  cbn. rewrite dom_delete_L. apply subseteq_difference_l. done.
Qed.

Lemma keeps_ids_exercise_update id data : keeps_ids (exercise_update id data).
Proof.
  apply keeps_ids_subseteq. intros db r db' Hrun.
  apply exercise_update_inv in Hrun as [(_ & -> & _)|(e & _ & He & ->)]; [done|].
  cbn. rewrite dom_insert_L. apply union_least; [|done].
  apply singleton_subseteq_l. by eapply elem_of_dom_2.
Qed.

Lemma keeps_ids_exercise_deleteMany ids : keeps_ids (exercise_deleteMany ids).
Proof.
  apply keeps_ids_subseteq. intros db r db' [= <- <-]. cbn. apply dom_filter_subseteq.
Qed.

Lemma keeps_ids_workout_update now id data : keeps_ids (workout_update now id data).
Proof.
  apply keeps_ids_subseteq. intros db r db'. unfold workout_update.
  by destruct (workouts db !! id); intros [= <- <-].
Qed.

Lemma keeps_ids_workout_findUnique take1 id : keeps_ids (workout_findUnique take1 id).
Proof. by intros db r db' [= <- <-]. Qed.

Section reconciliation.
Context `{IdGen}.

Lemma exercise_create_inv data db r db' :
  exercise_create data db = (r, db') →
  (r = inl (PrismaError "P2003") ∧ db' = db ∧ workouts db !! cd_workoutId data = None)
  ∨ (r = inr (cuid (dom (exercises db)), new_row data)
     ∧ db' = set_exercises <[cuid (dom (exercises db)) := new_row data]> db
     ∧ is_Some (workouts db !! cd_workoutId data)).
Proof.
  unfold exercise_create.
  destruct (workouts db !! cd_workoutId data) eqn:Hw; intros [= <- <-]; eauto.
Qed.

Lemma cuid_lookup (m : gmap string Exercise) : m !! cuid (dom m) = None.
Proof. apply not_elem_of_dom, cuid_fresh. Qed.

Lemma handleDirective_dispatch wid ex d upd :
  handleDirective wid ex d upd =
  match dispatch_of ex d with
  | DispatchDelete => exercise_delete (default "" (u_id d)) >> ret upd
  | DispatchUpdate =>
      (if has_keys (updateData_of d)
       then exercise_update (default "" (u_id d)) (updateData_of d) else ret ()) >>
      ret ({[default "" (u_id d)]} ∪ upd)
  | DispatchCreate =>
      let! newExercise := exercise_create (createData_of wid d) in
      ret ({[newExercise.1]} ∪ upd)
  end.
Proof.
  unfold handleDirective, dispatch_of.
  destruct (is_action ActDelete d && truthy (u_id d)); [done|].
  by destruct (truthy (u_id d) && bool_decide (default "" (u_id d) ∈ ex)).
Qed.

Lemma truthy_Some s : truthy s = true → ∃ i, s = Some i ∧ i ≠ "".
Proof.
  destruct s as [i|]; [|discriminate]. cbn. intros Hi%bool_decide_eq_true. eauto.
Qed.

(** One directive leaves alone every row it does not name: the row stays
    as it is and its id does not become resolved. *)
Lemma handleDirective_frame wid ex d upd db upd' db' eid e :
  handleDirective wid ex d upd db = (inr upd', db') →
  u_id d ≠ Some eid →
  exercises db !! eid = Some e →
  exercises db' !! eid = Some e ∧ (eid ∈ upd' → eid ∈ upd).
Proof.
  intros Hrun Hne He. unfold handleDirective in Hrun.
  destruct (is_action ActDelete d && truthy (u_id d)) eqn:Hdel.
  - apply andb_true_iff in Hdel as [_ (i & Hi & _)%truthy_Some].
    rewrite Hi in Hrun, Hne. cbn in Hrun.
    apply bind_inr_inv in Hrun as (? & db1 & Hop & [= <- <-]).
    apply exercise_delete_inv in Hop as [(? & _)|(_ & -> & _)]; [done|].
    split; [|done]. cbn. rewrite lookup_delete_ne; [done|congruence].
  - destruct (truthy (u_id d) && bool_decide (default "" (u_id d) ∈ ex)) eqn:Hupd.
    + apply andb_true_iff in Hupd as [(i & Hi & _)%truthy_Some _].
      rewrite Hi in Hrun, Hne. cbn in Hrun.
      apply bind_inr_inv in Hrun as (? & db1 & Hop & [= <- <-]).
      assert (exercises db1 !! eid = Some e) as He1.
      { destruct (has_keys (updateData_of d)).
        - apply exercise_update_inv in Hop as [(? & _)|(e0 & _ & _ & ->)]; [done|].
          cbn. rewrite lookup_insert_ne; [done|congruence].
        - unfold ret in Hop. by simplify_eq. }
      split; [done|]. rewrite elem_of_union, elem_of_singleton. intros [?|?]; congruence.
    + apply bind_inr_inv in Hrun as (new & db1 & Hop & [= <- <-]).
      apply exercise_create_inv in Hop as [(? & _)|([= ->] & -> & _)]; [done|].
      assert (cuid (dom (exercises db)) ≠ eid) as Hfresh.
      { intros <-. by rewrite cuid_lookup in He. }
      split; [cbn; by rewrite lookup_insert_ne|]. cbn.
      rewrite elem_of_union, elem_of_singleton. intros [?|?]; congruence.
Qed.

Lemma handleDirectives_frame wid ex updates upd db upd' db' eid e :
  handleDirectives wid ex updates upd db = (inr upd', db') →
  (∀ d, d ∈ updates → u_id d ≠ Some eid) →
  exercises db !! eid = Some e →
  exercises db' !! eid = Some e ∧ (eid ∈ upd' → eid ∈ upd).
Proof.
  revert upd db. induction updates as [|d updates IH]; intros upd db Hrun Hne He.
  - injection Hrun as <- <-. done.
  - cbn in Hrun. apply bind_inr_inv in Hrun as (upd1 & db1 & Hd & Hrest).
    assert (u_id d ≠ Some eid) as Hd1 by (apply Hne; left).
    destruct (handleDirective_frame _ _ _ _ _ _ _ _ _ Hd Hd1 He) as [He1 Hupd1].
    assert (∀ d', d' ∈ updates → u_id d' ≠ Some eid) as Hrest1
      by (intros d' Hd'; apply Hne; by right).
    destruct (IH _ _ Hrest Hrest1 He1) as [He' Hupd'].
    auto.
Qed.

(** The closing deletion: in replacement mode every row of the snapshot
    that no directive names is gone once the function returns. *)
Lemma handleExerciseUpdates_replace wid updates existing db db' eid e :
  handleExerciseUpdates wid updates existing db = (inr (), db') →
  hasCompleteExerciseList updates = true →
  (eid, e) ∈ existing →
  exercises db !! eid = Some e →
  (∀ d, d ∈ updates → u_id d ≠ Some eid) →
  exercises db' !! eid = None.
Proof.
  intros Hrun Hcomplete Hex He Hne. unfold handleExerciseUpdates in Hrun.
  apply bind_inr_inv in Hrun as (upd & db1 & Hloop & Hfinal).
  destruct (handleDirectives_frame _ _ _ _ _ _ _ _ _ Hloop Hne He) as [He1 Hupd].
  assert ((eid, e) ∈ exercisesToDelete updates existing upd) as Hdel.
  { unfold exercisesToDelete. apply list_elem_of_filter. split.
    - apply not_true_iff_false. intros (u & Hu & Hk)%existsb_exists.
      apply list_elem_of_In in Hu. unfold keeps in Hk.
      apply andb_true_iff in Hk as [Hk%bool_decide_eq_true _]. by apply (Hne u).
    - apply list_elem_of_filter. split; [|done]. cbn. intros Hin.
      apply Hupd in Hin. set_solver. }
  rewrite Hcomplete in Hfinal. rewrite bool_decide_eq_true_2 in Hfinal.
  - cbn [andb] in Hfinal.
    pose proof (lookup_deleteMany ((exercisesToDelete updates existing upd).*1) db1 eid) as Hl.
    rewrite Hfinal in Hl. cbn [snd] in Hl. rewrite Hl.
    rewrite decide_True; [done|].
    apply list_elem_of_fmap. by exists (eid, e).
  - destruct (exercisesToDelete updates existing upd); [by apply elem_of_nil in Hdel|cbn; lia].
Qed.

(** A directive without an id, or one tagged [create], marks the list as a
    complete one. *)
Lemma hasCompleteExerciseList_intro updates d :
  d ∈ updates → u_id d = None ∨ u_action d = Some ActCreate →
  hasCompleteExerciseList updates = true.
Proof.
  intros Hd Hmark. apply existsb_exists. exists d. split; [by apply list_elem_of_In|].
  destruct Hmark as [-> | Ha]; [done|].
  apply orb_true_iff. right. by apply bool_decide_eq_true.
Qed.

(** A batch of directives that all take the update branch on rows that
    exist goes through and changes no table's set of ids. *)
Lemma handleDirectives_patch wid ex updates upd db :
  (∀ d, d ∈ updates →
     dispatch_of ex d = DispatchUpdate ∧ default "" (u_id d) ∈ dom (exercises db)) →
  ∃ upd' db',
    handleDirectives wid ex updates upd db = (inr upd', db')
    ∧ dom (exercises db') = dom (exercises db)
    ∧ workouts db' = workouts db.
Proof.
  revert upd db. induction updates as [|d updates IH]; intros upd db Hall.
  - by exists upd, db.
  - destruct (Hall d) as [Hdisp Hdom]; [left|].
    assert (∃ db1, handleDirective wid ex d upd db
                   = (inr ({[default "" (u_id d)]} ∪ upd), db1)
                   ∧ dom (exercises db1) = dom (exercises db)
                   ∧ workouts db1 = workouts db) as (db1 & Hd & Hdom1 & Hw1).
    { rewrite handleDirective_dispatch, Hdisp.
      destruct (has_keys (updateData_of d)); [|by exists db].
      apply elem_of_dom in Hdom as [e He].
      exists (set_exercises <[default "" (u_id d) := apply_update (updateData_of d) e]> db).
      unfold bind, exercise_update. rewrite He. split_and!; [done| |done].
      cbn. rewrite dom_insert_L. apply subseteq_union_1_L, singleton_subseteq_l.
      by eapply elem_of_dom_2. }
    destruct (IH ({[default "" (u_id d)]} ∪ upd) db1) as (upd' & db' & Hrest & Hdom' & Hw').
    { intros d' Hd'. destruct (Hall d') as [? ?]; [by right|]. by rewrite Hdom1. }
    exists upd', db'. cbn. rewrite (bind_inr _ _ _ _ _ Hd).
    split_and!; [done|congruence|congruence].
Qed.

(** The update branch never changes the set of exercise ids. *)
Lemma update_branch_dom i (data : ExerciseUpdateData) (upd : gset string) db r db' :
  ((if has_keys data then exercise_update i data else ret ()) >> ret ({[i]} ∪ upd)) db
    = (r, db') →
  dom (exercises db') = dom (exercises db).
Proof.
  unfold bind. destruct (has_keys data); [|by intros [= <- <-]].
  unfold exercise_update. destruct (exercises db !! i) as [e|] eqn:He; intros [= <- <-]; [|done].
  cbn. rewrite dom_insert_L. apply subseteq_union_1_L, singleton_subseteq_l.
  by eapply elem_of_dom_2.
Qed.

(** The create branch, when the owning workout exists: one row under a
    fresh id, every other row as it was. *)
Lemma create_branch wid d (upd : gset string) db :
  is_Some (workouts db !! wid) →
  (let! newExercise := exercise_create (createData_of wid d) in
   ret ({[newExercise.1]} ∪ upd)) db
  = (inr ({[cuid (dom (exercises db))]} ∪ upd),
     set_exercises <[cuid (dom (exercises db)) := new_row (createData_of wid d)]> db).
Proof. intros [w Hw]. unfold bind, exercise_create. cbn. by rewrite Hw. Qed.

Lemma hasCompleteExerciseList_false updates :
  (∀ d, d ∈ updates → truthy (u_id d) = true ∧ u_action d ≠ Some ActCreate) →
  hasCompleteExerciseList updates = false.
Proof.
  intros Hall. apply not_true_iff_false. intros (d & Hd & Hmark)%existsb_exists.
  apply list_elem_of_In, Hall in Hd as [Hid Hact]. rewrite Hid in Hmark. cbn in Hmark.
  by apply bool_decide_eq_true in Hmark.
Qed.

Lemma keeps_ids_exercise_create data : keeps_ids (exercise_create data).
Proof.
  intros db r db' Hrun Hdb.
  apply exercise_create_inv in Hrun as [(_ & -> & _)|(_ & -> & _)]; [done|].
  unfold ids_nonempty. cbn. rewrite dom_insert_L, elem_of_union, elem_of_singleton.
  intros [Hempty|Hin]; [|done]. by eapply cuid_nonempty.
Qed.

Lemma keeps_ids_handleDirective wid ex d upd : keeps_ids (handleDirective wid ex d upd).
Proof.
  rewrite handleDirective_dispatch. destruct (dispatch_of ex d).
  - apply keeps_ids_bind; [apply keeps_ids_exercise_delete|intros; apply keeps_ids_ret].
  - apply keeps_ids_bind; [|intros; apply keeps_ids_ret].
    destruct (has_keys _); [apply keeps_ids_exercise_update|apply keeps_ids_ret].
  - apply keeps_ids_bind; [apply keeps_ids_exercise_create|intros; apply keeps_ids_ret].
Qed.

Lemma keeps_ids_handleDirectives wid ex updates upd :
  keeps_ids (handleDirectives wid ex updates upd).
Proof.
  revert upd. induction updates as [|d updates IH]; intros upd; [apply keeps_ids_ret|].
  cbn. apply keeps_ids_bind; [apply keeps_ids_handleDirective|done].
Qed.

Lemma keeps_ids_handleExerciseUpdates wid updates existing :
  keeps_ids (handleExerciseUpdates wid updates existing).
Proof.
  apply keeps_ids_bind; [apply keeps_ids_handleDirectives|]. intros upd. cbn zeta.
  destruct (hasCompleteExerciseList updates && _);
    [apply keeps_ids_exercise_deleteMany|apply keeps_ids_ret].
Qed.

(** Without a delete among the directives nothing can throw: the rows of
    the snapshot are still there when an update reaches them, and the
    owning workout is there for every create. *)
Lemma handleDirectives_total wid ex updates upd db :
  is_Some (workouts db !! wid) →
  ex ⊆ dom (exercises db) →
  (∀ d, d ∈ updates → is_action ActDelete d && truthy (u_id d) = false) →
  ∃ upd' db', handleDirectives wid ex updates upd db = (inr upd', db')
              ∧ workouts db' = workouts db.
Proof.
  revert upd db. induction updates as [|d updates IH]; intros upd db Hw Hex Hall.
  - by exists upd, db.
  - assert (∃ upd1 db1, handleDirective wid ex d upd db = (inr upd1, db1)
                        ∧ workouts db1 = workouts db
                        ∧ dom (exercises db) ⊆ dom (exercises db1))
      as (upd1 & db1 & Hd & Hw1 & Hdom1).
    { unfold handleDirective. rewrite (Hall d) by left.
      destruct (truthy (u_id d) && bool_decide (default "" (u_id d) ∈ ex)) eqn:Hupd.
      - apply andb_true_iff in Hupd as [_ Hin%bool_decide_eq_true].
        apply Hex, elem_of_dom in Hin as [e He].
        destruct (has_keys (updateData_of d)); [|by exists ({[default "" (u_id d)]} ∪ upd), db].
        eexists _, _. unfold bind, exercise_update. rewrite He. split_and!; [done..|].
        cbn. rewrite dom_insert_L. apply union_subseteq_r.
      - rewrite create_branch by done. eexists _, _. split_and!; [done..|].
        cbn. rewrite dom_insert_L. apply union_subseteq_r. }
    destruct (IH upd1 db1) as (upd' & db' & Hrest & Hw').
    + by rewrite Hw1.
    + by etrans.
    + intros d' Hd'. apply Hall. by right.
    + exists upd', db'. cbn. rewrite (bind_inr _ _ _ _ _ Hd). split; congruence.
Qed.

Lemma exercise_deleteMany_inv ids db r db' :
  exercise_deleteMany ids db = (r, db') → r = inr () ∧ workouts db' = workouts db.
Proof. by intros [= <- <-]. Qed.

Lemma handleExerciseUpdates_total wid updates db :
  is_Some (workouts db !! wid) →
  (∀ d, d ∈ updates → is_action ActDelete d && truthy (u_id d) = false) →
  ∃ db', handleExerciseUpdates wid updates (exercises_of wid db) db = (inr (), db')
         ∧ workouts db' = workouts db.
Proof.
  intros Hw Hall. unfold handleExerciseUpdates.
  destruct (handleDirectives_total wid (list_to_set (exercises_of wid db).*1) updates ∅ db)
    as (upd' & db1 & Hloop & Hw1); [done| |done|].
  { intros i Hi. apply elem_of_list_to_set, list_elem_of_fmap in Hi as ([i' e] & -> & Hin).
    apply elem_of_exercises_of in Hin as [He _]. by eapply elem_of_dom_2. }
  rewrite (bind_inr _ _ _ _ _ Hloop).
  destruct (_ && _); [|by exists db1].
  eexists. split; [done|]. by cbn.
Qed.

Lemma elem_of_existingExerciseIds id db i :
  i ∈ (list_to_set (exercises_of id db).*1 : gset string)
  ↔ ∃ e, exercises db !! i = Some e ∧ e_workoutId e = id.
Proof.
  rewrite elem_of_list_to_set, list_elem_of_fmap. split.
  - intros ([i' e] & -> & Hin). exists e. by apply elem_of_exercises_of.
  - intros (e & He). exists (i, e). split; [done|]. by apply elem_of_exercises_of.
Qed.

End reconciliation.

(** ** Responses *)

Lemma handleApiError_status error :
  status (handleApiError error) ∈
    [HTTP_STATUS.BAD_REQUEST; HTTP_STATUS.NOT_FOUND; HTTP_STATUS.CONFLICT;
     HTTP_STATUS.INTERNAL_SERVER_ERROR].
Proof.
  destruct error as [m d|code|]; cbn; [set_solver| |set_solver].
  destruct (String.prefix "P" code); [|set_solver].
  unfold handlePrismaError. repeat case_decide; set_solver.
Qed.

Lemma handleApiError_not_OK error : status (handleApiError error) ≠ HTTP_STATUS.OK.
Proof.
  intros Hok. pose proof (handleApiError_status error) as Hin. rewrite Hok in Hin.
  repeat (apply elem_of_cons in Hin as [Hin|Hin]; [discriminate|]).
  by apply elem_of_nil in Hin.
Qed.

Section put.
Context `{IdGen}.

(** The scalar step of the callback touches the workout table only, and
    goes through when the workout exists. *)
Lemma update_workout_fields_inv now id validatedData db r db1 :
  update_workout_fields now id validatedData db = (r, db1) →
  exercises db1 = exercises db ∧ dom (workouts db1) = dom (workouts db)
  ∧ completions db1 = completions db.
Proof.
  unfold update_workout_fields.
  destruct (workout_has_keys _); [|by intros [= <- <-]].
  unfold bind, workout_update. destruct (workouts db !! id) as [w|] eqn:Hw.
  - intros [= <- <-]. cbn. split_and!; [done| |done].
    rewrite dom_insert_L. apply subseteq_union_1_L, singleton_subseteq_l.
    by eapply elem_of_dom_2.
  - by intros [= <- <-].
Qed.

Lemma update_workout_fields_ok now id validatedData db :
  is_Some (workouts db !! id) →
  (update_workout_fields now id validatedData db).1 = inr ().
Proof.
  intros [w Hw]. unfold update_workout_fields.
  destruct (workout_has_keys _); [|done].
  unfold bind, workout_update. by rewrite Hw.
Qed.

(** A 200 from [PUT] means: the workout exists, and the callback ran to
    its end on the working copy, which was committed. *)
Lemma PUT_OK_inv now id validatedData db response db' :
  PUT now id (inr validatedData) db = (response, db') →
  status response = HTTP_STATUS.OK →
  is_Some (workouts db !! id) ∧
  ∃ db1, exercises db1 = exercises db ∧
    match r_exercises validatedData with
    | Some exerciseUpdates =>
        handleExerciseUpdates id exerciseUpdates (exercises_of id db) db1 = (inr (), db')
    | None => db' = db1
    end.
Proof.
  unfold PUT. destruct (workouts db !! id) as [w|] eqn:Hw; [|by intros [= <- <-]].
  destruct (transaction _ db) as [[e|[wi|]] db2] eqn:Htx; intros [= <- <-] Hst;
    [by apply handleApiError_not_OK in Hst| |done].
  split; [done|]. unfold transaction in Htx.
  destruct (PUT_callback _ _ _ _ db) as [[e|r] db3] eqn:Hcb; [done|].
  injection Htx as -> ->. unfold PUT_callback in Hcb.
  apply bind_inr_inv in Hcb as ([] & db1 & Hscalar & Hcb).
  apply update_workout_fields_inv in Hscalar as (Hex & _ & _).
  apply bind_inr_inv in Hcb as ([] & db4 & Hrec & Hfind).
  injection Hfind as _ ->. exists db1. split; [done|].
  destruct (r_exercises validatedData); [done|]. by injection Hrec as ->.
Qed.

(** [PUT] keeps the invariant of the exercise ids, whatever it answers. *)
Lemma PUT_ids_nonempty now id validated db :
  ids_nonempty db → ids_nonempty (PUT now id validated db).2.
Proof.
  intros Hdb. unfold PUT. destruct (workouts db !! id); [|done].
  destruct validated as [error|validatedData]; [done|].
  assert (keeps_ids (transaction (PUT_callback now id validatedData (exercises_of id db))))
    as Hkeeps.
  { apply keeps_ids_transaction. unfold PUT_callback.
    apply keeps_ids_bind; [|intros _; apply keeps_ids_bind].
    - unfold update_workout_fields. destruct (workout_has_keys _); [|apply keeps_ids_ret].
      apply keeps_ids_bind; [apply keeps_ids_workout_update|intros; apply keeps_ids_ret].
    - destruct (r_exercises validatedData);
        [apply keeps_ids_handleExerciseUpdates|apply keeps_ids_ret].
    - intros _. apply keeps_ids_workout_findUnique. }
  destruct (transaction _ db) as [[error|[wi|]] db'] eqn:Htx; cbn; by eapply Hkeeps.
Qed.

Lemma keeps_ids_exercise_createMany data : keeps_ids (exercise_createMany data).
Proof.
  induction data as [|d data IH]; [apply keeps_ids_ret|].
  cbn. apply keeps_ids_bind; [apply keeps_ids_exercise_create|done].
Qed.

(** So does [POST]; the other handlers do not write exercises, and the
    empty store has no exercise id at all. *)
Lemma POST_ids_nonempty now validated db :
  ids_nonempty db → ids_nonempty (POST now validated db).2.
Proof.
  intros Hdb. unfold POST. destruct validated as [error|validatedData]; [done|].
  assert (keeps_ids (transaction (POST_callback now validatedData))) as Hkeeps.
  { apply keeps_ids_transaction. unfold POST_callback.
    apply keeps_ids_bind; [by intros db1 r db2 [= <- <-]|]. intros new.
    apply keeps_ids_bind; [|intros _; apply keeps_ids_workout_findUnique].
    destruct (bool_decide _); [apply keeps_ids_exercise_createMany|apply keeps_ids_ret]. }
  destruct (transaction _ db) as [[error|[wi|]] db'] eqn:Htx; cbn; by eapply Hkeeps.
Qed.

Lemma PATCH_ids_nonempty now id db : ids_nonempty db → ids_nonempty (PATCH now id db).2.
Proof.
  intros Hdb. unfold PATCH. destruct (workouts db !! id) as [w|] eqn:Hw; [|done].
  unfold workout_update. by rewrite Hw.
Qed.

Lemma empty_ids_nonempty :
  ids_nonempty {| workouts := ∅; exercises := ∅; completions := ∅ |}.
Proof. unfold ids_nonempty. cbn. by rewrite dom_empty_L. Qed.

(** An update that deletes nothing explicitly always goes through. *)
Lemma PUT_OK_without_delete now id validatedData db :
  is_Some (workouts db !! id) →
  (∀ exerciseUpdates d,
     r_exercises validatedData = Some exerciseUpdates → d ∈ exerciseUpdates →
     is_action ActDelete d && truthy (u_id d) = false) →
  status (PUT now id (inr validatedData) db).1 = HTTP_STATUS.OK.
Proof.
  intros [w Hw] Hall.
  pose proof (update_workout_fields_ok now id validatedData db (mk_is_Some _ _ Hw)) as Hscalar.
  destruct (update_workout_fields now id validatedData db) as [r db1] eqn:Hstep.
  cbn in Hscalar. subst r.
  destruct (update_workout_fields_inv _ _ _ _ _ _ Hstep) as (Hex1 & Hw1 & _).
  assert (is_Some (workouts db1 !! id)) as Hwid1.
  { apply elem_of_dom. rewrite Hw1. by eapply elem_of_dom_2. }
  assert (exercises_of id db = exercises_of id db1) as Hsnap
    by (unfold exercises_of; by rewrite Hex1).
  assert (∃ db2, (match r_exercises validatedData with
                  | Some exerciseUpdates =>
                      handleExerciseUpdates id exerciseUpdates (exercises_of id db)
                  | None => ret ()
                  end) db1 = (inr (), db2) ∧ workouts db2 = workouts db1)
    as (db2 & Hrec & Hw2).
  { destruct (r_exercises validatedData) as [exerciseUpdates|] eqn:Hupdates; [|by exists db1].
    rewrite Hsnap. apply handleExerciseUpdates_total; [done|].
    intros d Hd. by eapply Hall. }
  destruct Hwid1 as [w2 Hwid2]. rewrite <- Hw2 in Hwid2.
  assert (PUT_callback now id validatedData (exercises_of id db) db
          = (inr (Some (with_includes true id w2 db2)), db2)) as Hcb.
  { unfold PUT_callback. rewrite (bind_inr _ _ _ _ _ Hstep).
    rewrite (bind_inr _ _ _ _ _ Hrec). unfold workout_findUnique. by rewrite Hwid2. }
  unfold PUT. by rewrite Hw, (transaction_inr _ _ _ _ Hcb).
Qed.

End put.

Import Examples.

(** C1, as stated, fails: when a later directive of the batch throws, the
    transaction is rolled back and the exercises no directive names stay. *)
Lemma C1_counterexample :
  with_name "New" directive ∈ failing_batch
  ∧ u_id (with_name "New" directive) = None
  ∧ exercises db0 !! "e1" = Some squats
  ∧ e_workoutId squats = "w1"
  ∧ Forall (λ d, u_id d ≠ Some "e1") failing_batch
  ∧ status (PUT (H := longer_idgen) 5 "w1" (inr (request failing_batch)) db0).1
    = HTTP_STATUS.NOT_FOUND
  ∧ exercises (PUT (H := longer_idgen) 5 "w1" (inr (request failing_batch)) db0).2 !! "e1"
    = Some squats.
Proof.
  split_and!; [by left|done|by vm_compute|done| |by vm_compute..].
  repeat constructor; discriminate.
Qed.

(** C1 (replace invariant, amended).  When the update payload carries a list of
    exercise directives with at least one directive that has no id or is
    tagged [create], and the call on the existing workout goes through
    (status 200: the transaction committed), then every exercise the
    workout had before the call whose id no directive names is absent from
    the exercise table afterwards. *)
Theorem C1_replace_invariant `{IdGen} now id validatedData exerciseUpdates db response db' :
  r_exercises validatedData = Some exerciseUpdates →
  (∃ d, d ∈ exerciseUpdates ∧ (u_id d = None ∨ u_action d = Some ActCreate)) →
  PUT now id (inr validatedData) db = (response, db') →
  status response = HTTP_STATUS.OK →
  ∀ eid e,
    exercises db !! eid = Some e → e_workoutId e = id →
    (∀ d, d ∈ exerciseUpdates → u_id d ≠ Some eid) →
    exercises db' !! eid = None.
Proof.
  intros Hupdates (d & Hd & Hmark) Hput Hok eid e He Hwid Hne.
  destruct (PUT_OK_inv _ _ _ _ _ _ Hput Hok) as (_ & db1 & Hex & Hrun).
  rewrite Hupdates in Hrun.
  eapply handleExerciseUpdates_replace; [exact Hrun| | |by rewrite Hex|exact Hne].
  - by eapply hasCompleteExerciseList_intro.
  - by apply elem_of_exercises_of.
Qed.

Lemma elem_of_mixed_update d :
  d ∈ mixed_update → u_id d = Some "e1" ∨ u_id d = None.
Proof.
  unfold mixed_update. intros Hd.
  apply elem_of_cons in Hd as [->|Hd]; [by left|].
  apply elem_of_cons in Hd as [->|Hd]; [by right|].
  by apply elem_of_nil in Hd.
Qed.

Lemma C1_witness :
  status (PUT (H := longer_idgen) 5 "w1" (inr (request mixed_update)) db0).1 = HTTP_STATUS.OK
  ∧ exercises db0 !! "e2" = Some lunges
  ∧ exercises (PUT (H := longer_idgen) 5 "w1" (inr (request mixed_update)) db0).2 !! "e2" = None.
Proof.
  split; [by vm_compute|]. split; [by vm_compute|].
  eapply (C1_replace_invariant (H := longer_idgen) 5 "w1" (request mixed_update) mixed_update
            db0 _ _ eq_refl).
  - exists (with_action ActCreate (with_order 2 (with_name "New" directive))).
    split; [|by left]. unfold mixed_update. apply elem_of_cons. right. apply elem_of_cons. by left.
  - apply surjective_pairing.
  - by vm_compute.
  - by vm_compute.
  - reflexivity.
  - intros d [Hd|Hd]%elem_of_mixed_update; rewrite Hd; discriminate.
Defined.

(** C3 (atomicity).  When the workout exists and an operation dispatched by
    the reconciliation throws on the transaction's working copy (the copy
    left by the scalar workout-field step), the call answers with the one
    error response made from that exception, and the store after the call
    is the store before it: no directive of the batch and no scalar field
    change is persisted. *)
Theorem C3_atomicity `{IdGen} now id validatedData exerciseUpdates db error :
  is_Some (workouts db !! id) →
  r_exercises validatedData = Some exerciseUpdates →
  (handleExerciseUpdates id exerciseUpdates (exercises_of id db)
     (update_workout_fields now id validatedData db).2).1 = inl error →
  PUT now id (inr validatedData) db = (handleApiError error, db)
  ∧ status (handleApiError error) ≠ HTTP_STATUS.OK.
Proof.
  intros [w Hw] Hupdates Hfail. split; [|apply handleApiError_not_OK].
  unfold PUT. rewrite Hw.
  pose proof (update_workout_fields_ok now id validatedData db (mk_is_Some _ _ Hw)) as Hscalar.
  destruct (update_workout_fields now id validatedData db) as [r db1] eqn:Hstep.
  cbn in Hscalar, Hfail. subst r.
  destruct (handleExerciseUpdates id exerciseUpdates (exercises_of id db) db1)
    as [r2 db2] eqn:Hrec.
  cbn in Hfail. subst r2.
  assert (PUT_callback now id validatedData (exercises_of id db) db = (inl error, db2)) as Hcb.
  { unfold PUT_callback. rewrite (bind_inr _ _ _ _ _ Hstep), Hupdates.
    by apply bind_inl. }
  by rewrite (transaction_inl _ _ _ _ Hcb).
Qed.

Lemma C3_witness :
  PUT (H := longer_idgen) 5 "w1" (inr rename_and_fail) db0
    = (handleApiError (PrismaError "P2025"), db0)
  ∧ status (handleApiError (PrismaError "P2025")) ≠ HTTP_STATUS.OK.
Proof.
  apply (C3_atomicity (H := longer_idgen) 5 "w1" rename_and_fail failing_batch db0).
  - exists leg_day. by vm_compute.
  - reflexivity.
  - by vm_compute.
Defined.

(** C2, as stated, fails: a directive that carries the id of an existing
    exercise may be tagged [delete], and then that exercise is deleted; it
    may be tagged [create], and then the exercises no directive names are
    deleted. *)
Lemma C2_counterexample :
  (∀ d, d ∈ delete_e1 ∨ d ∈ create_e1 →
     ∃ i e, u_id d = Some i ∧ exercises db0 !! i = Some e ∧ e_workoutId e = "w1")
  ∧ exercises db0 !! "e1" = Some squats
  ∧ status (PUT (H := longer_idgen) 5 "w1" (inr (request delete_e1)) db0).1 = HTTP_STATUS.OK
  ∧ exercises (PUT (H := longer_idgen) 5 "w1" (inr (request delete_e1)) db0).2 !! "e1" = None
  ∧ exercises db0 !! "e2" = Some lunges
  ∧ status (PUT (H := longer_idgen) 5 "w1" (inr (request create_e1)) db0).1 = HTTP_STATUS.OK
  ∧ exercises (PUT (H := longer_idgen) 5 "w1" (inr (request create_e1)) db0).2 !! "e2" = None.
Proof.
  split_and!; [|by vm_compute..].
  intros d [Hd|Hd]; apply list_elem_of_singleton in Hd as ->;
    exists "e1", squats; by vm_compute.
Qed.

(** C2 (partial-patch invariant, amended).  When every directive of the
    payload carries the id of an existing exercise of the workout and none
    is tagged [create] or [delete] (the tag is absent or [update]), no
    exercise is deleted by the call: every exercise that was in the store
    before the call is still there afterwards, however many directives are
    sent and whatever the call answers. *)
Theorem C2_partial_patch `{IdGen} now id validatedData exerciseUpdates db :
  ids_nonempty db →
  r_exercises validatedData = Some exerciseUpdates →
  (∀ d, d ∈ exerciseUpdates →
     (∃ i e, u_id d = Some i ∧ exercises db !! i = Some e ∧ e_workoutId e = id)
     ∧ (u_action d = None ∨ u_action d = Some ActUpdate)) →
  ∀ eid, eid ∈ dom (exercises db) →
    eid ∈ dom (exercises (PUT now id (inr validatedData) db).2).
Proof.
  intros Hids Hupdates Hall eid Heid.
  destruct (workouts db !! id) as [w|] eqn:Hw; [|unfold PUT; by rewrite Hw].
  pose proof (update_workout_fields_ok now id validatedData db (mk_is_Some _ _ Hw)) as Hscalar.
  destruct (update_workout_fields now id validatedData db) as [r db1] eqn:Hstep.
  cbn in Hscalar. subst r.
  destruct (update_workout_fields_inv _ _ _ _ _ _ Hstep) as (Hex1 & Hw1 & _).
  assert (∀ d, d ∈ exerciseUpdates →
            ∃ i, u_id d = Some i ∧ i ≠ "" ∧ i ∈ dom (exercises db)
                 ∧ i ∈ (list_to_set (exercises_of id db).*1 : gset string)
                 ∧ u_action d ≠ Some ActCreate ∧ u_action d ≠ Some ActDelete) as Hall'.
  { intros d [(i & e & Hi & He & Hwid) Hact]%Hall. exists i.
    assert (i ∈ dom (exercises db)) as Hdom by by eapply elem_of_dom_2.
    split_and!; [done|congruence|done| |destruct Hact; congruence..].
    apply elem_of_existingExerciseIds. eauto. }
  destruct (handleDirectives_patch id (list_to_set (exercises_of id db).*1)
              exerciseUpdates ∅ db1) as (upd' & db2 & Hloop & Hdom2 & Hw2).
  { intros d (i & Hi & Hne & Hdom & Hex & Hc & Hd)%Hall'. rewrite Hex1. split; [|by rewrite Hi].
    unfold dispatch_of, is_action. rewrite Hi. cbn.
    rewrite (bool_decide_eq_false_2 _ Hd), (bool_decide_eq_true_2 _ Hne),
      (bool_decide_eq_true_2 _ Hex). done. }
  assert (handleExerciseUpdates id exerciseUpdates (exercises_of id db) db1 = (inr (), db2))
    as Hrec.
  { unfold handleExerciseUpdates. rewrite (bind_inr _ _ _ _ _ Hloop).
    rewrite hasCompleteExerciseList_false; [done|].
    intros d (i & Hi & Hne & _ & _ & Hc & _)%Hall'. rewrite Hi. cbn.
    by rewrite (bool_decide_eq_true_2 _ Hne). }
  assert (is_Some (workouts db2 !! id)) as [w2 Hwid2].
  { rewrite Hw2. apply elem_of_dom. rewrite Hw1. by eapply elem_of_dom_2. }
  assert (PUT_callback now id validatedData (exercises_of id db) db
          = (inr (Some (with_includes true id w2 db2)), db2)) as Hcb.
  { unfold PUT_callback. rewrite (bind_inr _ _ _ _ _ Hstep), Hupdates.
    rewrite (bind_inr _ _ _ _ _ Hrec). unfold workout_findUnique. by rewrite Hwid2. }
  unfold PUT. rewrite Hw, (transaction_inr _ _ _ _ Hcb). cbn.
  by rewrite Hdom2, Hex1.
Qed.

Lemma C2_witness :
  "e1" ∈ dom (exercises (PUT (H := longer_idgen) 5 "w1" (inr (request patch_e1)) db0).2)
  ∧ "e2" ∈ dom (exercises (PUT (H := longer_idgen) 5 "w1" (inr (request patch_e1)) db0).2).
Proof.
  assert (ids_nonempty db0) as Hids by (apply not_elem_of_dom; by vm_compute).
  assert (∀ d, d ∈ patch_e1 →
            (∃ i e, u_id d = Some i ∧ exercises db0 !! i = Some e ∧ e_workoutId e = "w1")
            ∧ (u_action d = None ∨ u_action d = Some ActUpdate)) as Hall.
  { intros d Hd. apply list_elem_of_singleton in Hd as ->. split; [|by right].
    exists "e1", squats. by vm_compute. }
  split.
  - apply (C2_partial_patch (H := longer_idgen) 5 "w1" (request patch_e1) patch_e1 db0
             Hids eq_refl Hall).
    apply elem_of_dom. exists squats. by vm_compute.
  - apply (C2_partial_patch (H := longer_idgen) 5 "w1" (request patch_e1) patch_e1 db0
             Hids eq_refl Hall).
    apply elem_of_dom. exists lunges. by vm_compute.
Defined.

(** C10, as stated, fails in its last part: when another directive of the
    batch throws, the transaction is rolled back and the exercises no
    directive names stay. *)
Lemma C10_counterexample :
  with_action ActCreate (with_id "e1" directive) ∈ create_e1_and_fail
  ∧ exercises db0 !! "e1" = Some squats
  ∧ exercises db0 !! "e2" = Some lunges
  ∧ e_workoutId lunges = "w1"
  ∧ Forall (λ d, u_id d ≠ Some "e2") create_e1_and_fail
  ∧ status (PUT (H := longer_idgen) 5 "w1" (inr (request create_e1_and_fail)) db0).1
    = HTTP_STATUS.NOT_FOUND
  ∧ exercises (PUT (H := longer_idgen) 5 "w1" (inr (request create_e1_and_fail)) db0).2
      !! "e2" = Some lunges.
Proof.
  split_and!; [by left|by vm_compute|by vm_compute|done| |by vm_compute..].
  repeat constructor; discriminate.
Qed.

(** C10 (dispatch precedence, amended).  A directive tagged [create] whose id is
    the id of an existing exercise of the workout takes the update branch:
    it is dispatched as the in-place update of that row and resolves its
    id, and whatever the outcome no exercise row is added; its presence
    still marks the payload as a complete list, so when the call goes
    through (status 200) every exercise the workout had whose id no
    directive names is gone from the store. *)
Theorem C10_create_tag_on_existing_id `{IdGen} now id validatedData exerciseUpdates d i db :
  ids_nonempty db →
  r_exercises validatedData = Some exerciseUpdates →
  d ∈ exerciseUpdates →
  u_action d = Some ActCreate →
  u_id d = Some i →
  (∃ e, exercises db !! i = Some e ∧ e_workoutId e = id) →
  (∀ upd, handleDirective id (list_to_set (exercises_of id db).*1) d upd
          = ((if has_keys (updateData_of d) then exercise_update i (updateData_of d)
              else ret ()) >> ret ({[i]} ∪ upd)))
  ∧ (∀ upd db1 r db2,
       handleDirective id (list_to_set (exercises_of id db).*1) d upd db1 = (r, db2) →
       dom (exercises db2) = dom (exercises db1))
  ∧ hasCompleteExerciseList exerciseUpdates = true
  ∧ (∀ response db',
       PUT now id (inr validatedData) db = (response, db') →
       status response = HTTP_STATUS.OK →
       ∀ eid e,
         exercises db !! eid = Some e → e_workoutId e = id →
         (∀ d', d' ∈ exerciseUpdates → u_id d' ≠ Some eid) →
         exercises db' !! eid = None).
Proof.
  intros Hids Hupdates Hd Hact Hi Hex.
  assert (i ≠ "") as Hne.
  { intros ->. destruct Hex as (e & He & _). by apply elem_of_dom_2 in He. }
  assert (∀ upd, handleDirective id (list_to_set (exercises_of id db).*1) d upd
          = ((if has_keys (updateData_of d) then exercise_update i (updateData_of d)
              else ret ()) >> ret ({[i]} ∪ upd))) as Hdispatch.
  { intros upd. rewrite handleDirective_dispatch. unfold dispatch_of, is_action.
    rewrite Hact, Hi. cbn [truthy default].
    rewrite (bool_decide_eq_false_2 (Some ActCreate = Some ActDelete)) by discriminate.
    rewrite (bool_decide_eq_true_2 _ Hne).
    rewrite bool_decide_eq_true_2 by (by apply elem_of_existingExerciseIds). done. }
  assert (hasCompleteExerciseList exerciseUpdates = true) as Hcomplete
    by (eapply hasCompleteExerciseList_intro; eauto).
  split_and!; [done| |done|].
  - intros upd db1 r db2. rewrite Hdispatch. apply update_branch_dom.
  - intros response db' Hput Hok eid e He Hwid Hunref.
    destruct (PUT_OK_inv _ _ _ _ _ _ Hput Hok) as (_ & db1 & Hex1 & Hrun).
    rewrite Hupdates in Hrun.
    eapply handleExerciseUpdates_replace; [exact Hrun|done| |by rewrite Hex1|exact Hunref].
    by apply elem_of_exercises_of.
Qed.

Lemma C10_witness :
  dom (exercises (PUT (H := longer_idgen) 5 "w1" (inr (request create_e1)) db0).2)
    = {[ "e1" ]}
  ∧ exercises (PUT (H := longer_idgen) 5 "w1" (inr (request create_e1)) db0).2 !! "e2" = None.
Proof.
  split; [by vm_compute|].
  refine (proj2 (proj2 (proj2
    (C10_create_tag_on_existing_id (H := longer_idgen) 5 "w1" (request create_e1) create_e1
       (with_action ActCreate (with_id "e1" directive)) "e1" db0 _ eq_refl _ eq_refl eq_refl _)))
    _ _ _ _ "e2" lunges _ eq_refl _).
  - apply not_elem_of_dom. by vm_compute.
  - by apply list_elem_of_singleton.
  - exists squats. by vm_compute.
  - apply surjective_pairing.
  - by vm_compute.
  - by vm_compute.
  - intros d' Hd'. apply list_elem_of_singleton in Hd' as ->. discriminate.
Defined.

(** C4, as stated, fails: a lone [delete] directive without an id makes the
    call insert an exercise (and, being a directive without an id, makes it
    delete the exercises the workout had). *)
Lemma C4_counterexample :
  exercises db0 !! "ccc" = None
  ∧ e_name <$> exercises (PUT (H := longer_idgen) 5 "w1" (inr (request delete_nothing)) db0).2
                 !! "ccc" = Some "Untitled Exercise"
  ∧ exercises db0 !! "e1" = Some squats
  ∧ exercises (PUT (H := longer_idgen) 5 "w1" (inr (request delete_nothing)) db0).2
      !! "e1" = None.
Proof. split_and!; by vm_compute. Qed.

(** C4 (amended).  A directive tagged [delete] that has no id is not
    dispatched as a delete: dispatching it removes no exercise row, but it
    takes the create branch like any directive without an id, so for an
    existing workout exactly one new exercise is inserted for it and its
    id is resolved; and its presence marks the payload as a complete
    list. *)
Theorem C4_delete_without_id `{IdGen} wid existingExerciseIds d upd db :
  is_Some (workouts db !! wid) →
  u_action d = Some ActDelete →
  u_id d = None →
  handleDirective wid existingExerciseIds d upd db
    = (inr ({[cuid (dom (exercises db))]} ∪ upd),
       set_exercises <[cuid (dom (exercises db)) := new_row (createData_of wid d)]> db)
  ∧ exercises db !! cuid (dom (exercises db)) = None
  ∧ (∀ eid e, exercises db !! eid = Some e →
       exercises (handleDirective wid existingExerciseIds d upd db).2 !! eid = Some e)
  ∧ (∀ exerciseUpdates, d ∈ exerciseUpdates → hasCompleteExerciseList exerciseUpdates = true).
Proof.
  intros Hw Hact Hid.
  assert (handleDirective wid existingExerciseIds d upd db
    = (inr ({[cuid (dom (exercises db))]} ∪ upd),
       set_exercises <[cuid (dom (exercises db)) := new_row (createData_of wid d)]> db)) as Hrun.
  { rewrite handleDirective_dispatch. unfold dispatch_of. rewrite Hid. cbn.
    rewrite andb_false_r. by apply create_branch. }
  split_and!; [done|apply cuid_lookup| |].
  - intros eid e He. rewrite Hrun. cbn. rewrite lookup_insert_ne; [done|].
    intros Heq. by rewrite <- Heq, cuid_lookup in He.
  - intros exerciseUpdates Hd. eapply hasCompleteExerciseList_intro; eauto.
Qed.

Lemma C4_witness :
  (handleDirective (H := longer_idgen) "w1" {[ "e1"; "e2" ]}
     (with_action ActDelete directive) ∅ db0).1 = inr ({[ "ccc" ]} ∪ ∅).
Proof.
  rewrite (proj1 (C4_delete_without_id (H := longer_idgen) "w1" {[ "e1"; "e2" ]}
                    (with_action ActDelete directive) ∅ db0
                    (ex_intro _ leg_day eq_refl) eq_refl eq_refl)).
  by vm_compute.
Defined.

(** A name that is present and empty does reach the reconciliation: the
    update validator accepts a name of one blank and sanitizes it. *)
Lemma validateUpdateExercise_blank_name (Number parseInt : value → number) :
  validateUpdateExercise Number parseInt (VObj [("name", VStr " ")])
  = inr (VObj [("name", VStr "")]).
Proof. reflexivity. Qed.

(** C5, as stated, fails: a directive without an id whose name is the empty
    string is created under the placeholder name, not under its own name. *)
Lemma C5_counterexample :
  u_id (with_name "" directive) = None
  ∧ name_as_stated (with_name "" directive) = ""
  ∧ exercises db0 !! "ccc" = None
  ∧ e_name <$> exercises (handleDirective (H := longer_idgen) "w1" {[ "e1"; "e2" ]}
                            (with_name "" directive) ∅ db0).2 !! "ccc"
    = Some "Untitled Exercise".
Proof. split_and!; by vm_compute. Qed.

(** C5 (create dispatch with defaults, amended).  For an existing workout,
    a directive that has no id, or whose id is not the id of an existing
    exercise of the workout, and that is not a [delete] with an id, makes
    the reconciliation insert exactly one new exercise: a row under an id
    that was not in use, owned by the workout, whose name is the directive's
    name when that is present and not empty and "Untitled Exercise"
    otherwise, whose order is the directive's order or 0 when it is
    missing; every other row is as before and the new id is resolved. *)
Theorem C5_create_dispatch `{IdGen} wid existingExerciseIds d upd db :
  is_Some (workouts db !! wid) →
  (∀ i, u_id d = Some i → i ∉ existingExerciseIds) →
  ¬ (u_action d = Some ActDelete ∧ is_Some (u_id d)) →
  ∃ newId row,
    handleDirective wid existingExerciseIds d upd db
      = (inr ({[newId]} ∪ upd), set_exercises <[newId := row]> db)
    ∧ exercises db !! newId = None
    ∧ e_workoutId row = wid
    ∧ e_name row = (if decide (u_name d = None ∨ u_name d = Some "")
                    then "Untitled Exercise" else default "" (u_name d))
    ∧ e_order row = default 0 (u_order d).
Proof.
  intros Hw Hid Hdel.
  exists (cuid (dom (exercises db))), (new_row (createData_of wid d)).
  split_and!; [|apply cuid_lookup|done| |].
  - rewrite handleDirective_dispatch.
    assert (dispatch_of existingExerciseIds d = DispatchCreate) as ->; [|by apply create_branch].
    unfold dispatch_of, is_action. destruct (u_id d) as [i|] eqn:Hi.
    + rewrite bool_decide_eq_false_2 by (intros Ha; apply Hdel; eauto).
      cbn [andb default]. rewrite (bool_decide_eq_false_2 (i ∈ existingExerciseIds)) by auto.
      by rewrite andb_false_r.
    + cbn. by rewrite andb_false_r.
  - cbn. unfold name_or_default. destruct (u_name d) as [n|]; [|by rewrite decide_True; auto].
    destruct (decide (n = "")) as [->|Hn].
    + rewrite bool_decide_eq_false_2 by auto. by rewrite decide_True; auto.
    + rewrite bool_decide_eq_true_2 by auto.
      rewrite decide_False; [done|]. intros [?|?]; congruence.
  - cbn. unfold order_or_default. destruct (u_order d) as [n|]; [|done].
    cbn. case_bool_decide; congruence.
Qed.

Lemma C5_witness :
  ∃ newId row,
    handleDirective (H := longer_idgen) "w1" {[ "e1"; "e2" ]}
      (with_order 2 (with_name "New" directive)) ∅ db0
      = (inr ({[newId]} ∪ ∅), set_exercises <[newId := row]> db0)
    ∧ exercises db0 !! newId = None
    ∧ e_workoutId row = "w1"
    ∧ e_name row = "New"
    ∧ e_order row = 2.
Proof.
  apply (C5_create_dispatch (H := longer_idgen) "w1" {[ "e1"; "e2" ]}
           (with_order 2 (with_name "New" directive)) ∅ db0).
  - exists leg_day. by vm_compute.
  - intros i Hi. discriminate.
  - intros [_ [i Hi]]. discriminate.
Defined.

(** ** Favorite toggle *)

Lemma PATCH_existing now id db w :
  workouts db !! id = Some w →
  PATCH now id db
  = (createSuccessResponse
       (BWorkout (workoutResponse true false
          (with_includes true id
             (apply_workout_update now
                {| wd_name := None; wd_description := None; wd_category := None;
                   wd_isFavorite := Some (negb (w_isFavorite w)) |} w)
             (set_workouts <[id :=
                apply_workout_update now
                  {| wd_name := None; wd_description := None; wd_category := None;
                     wd_isFavorite := Some (negb (w_isFavorite w)) |} w]> db))))
       HTTP_STATUS.OK,
     set_workouts <[id :=
       apply_workout_update now
         {| wd_name := None; wd_description := None; wd_category := None;
            wd_isFavorite := Some (negb (w_isFavorite w)) |} w]> db).
Proof. intros Hw. unfold PATCH, workout_update. by rewrite !Hw. Qed.

(** C9 (favorite toggle).  For an existing workout one toggle negates
    [isFavorite], in the store and in the 200 response, and a second
    toggle right after it brings [isFavorite] back to its original value. *)
Theorem C9_favorite_toggle_involution now1 now2 id db w :
  workouts db !! id = Some w →
  status (PATCH now1 id db).1 = HTTP_STATUS.OK
  ∧ response_isFavorite (PATCH now1 id db).1 = Some (negb (w_isFavorite w))
  ∧ w_isFavorite <$> workouts (PATCH now1 id db).2 !! id = Some (negb (w_isFavorite w))
  ∧ status (PATCH now2 id (PATCH now1 id db).2).1 = HTTP_STATUS.OK
  ∧ response_isFavorite (PATCH now2 id (PATCH now1 id db).2).1 = Some (w_isFavorite w)
  ∧ w_isFavorite <$> workouts (PATCH now2 id (PATCH now1 id db).2).2 !! id
    = Some (w_isFavorite w).
Proof.
  intros Hw. rewrite (PATCH_existing now1 id db w Hw). cbn [fst snd].
  set (w1 := apply_workout_update now1 _ w).
  assert (workouts (set_workouts <[id := w1]> db) !! id = Some w1) as Hw1
    by apply lookup_insert_eq.
  rewrite (PATCH_existing now2 id _ w1 Hw1). cbn [fst snd].
  split_and!; [done|done| |done| |].
  - cbn. by rewrite lookup_insert_eq.
  - cbn. by rewrite negb_involutive.
  - cbn. rewrite lookup_insert_eq. cbn. by rewrite negb_involutive.
Qed.

Lemma C9_witness :
  response_isFavorite (PATCH 7 "w1" db0).1 = Some true
  ∧ response_isFavorite (PATCH 8 "w1" (PATCH 7 "w1" db0).2).1 = Some false.
Proof.
  pose proof (C9_favorite_toggle_involution 7 8 "w1" db0 leg_day eq_refl)
    as (_ & H1 & _ & _ & H2 & _).
  split; [exact H1|exact H2].
Defined.

(** ** Ordering of the exercises in a response *)

Global Instance order_asc_trans : Transitive order_asc.
Proof. intros a b c. unfold order_asc. lia. Qed.

Global Instance order_asc_total : Total order_asc.
Proof. intros a b. unfold order_asc. lia. Qed.

Lemma with_includes_sorted take1 id w db with_last with_completions :
  exercises_sorted (workoutResponse with_last with_completions (with_includes take1 id w db)).
Proof.
  unfold exercises_sorted. cbn.
  eapply StronglySorted_fmap with (R1 := order_asc); [done|].
  apply (StronglySorted_merge_sort order_asc).
Qed.

(** The exercises of a representation are the rows the workout owns. *)
Lemma with_includes_exercises take1 id w db with_last with_completions :
  wr_exercises (workoutResponse with_last with_completions (with_includes take1 id w db))
  ≡ₚ exerciseResponse <$> exercises_of id db.
Proof. cbn. apply fmap_Permutation, merge_sort_Permutation. Qed.

Lemma with_includes_persisted take1 id w db with_last with_completions :
  exercises_persisted db
    (workoutResponse with_last with_completions (with_includes take1 id w db)).
Proof.
  split.
  - rewrite with_includes_exercises, <- list_fmap_compose.
    apply (NoDup_fmap_fst (map_to_list _)); [|apply NoDup_map_to_list].
    intros i e1 e2 [He1 _]%elem_of_map_to_list%map_lookup_filter_Some
      [He2 _]%elem_of_map_to_list%map_lookup_filter_Some. congruence.
  - intros r. rewrite with_includes_exercises, list_elem_of_fmap. cbn [wr_id workoutResponse
      with_includes wi_id]. split.
    + intros ([i e] & -> & [He Hwid]%elem_of_exercises_of). by exists e.
    + intros (e & He & Hwid & Hn & Hr & Hs & Hd & Hno & Ho).
      exists (er_id r, e). split; [|by apply elem_of_exercises_of].
      destruct r. cbn in *. by subst.
Qed.

Lemma with_includes_in_order take1 id w db with_last with_completions :
  let shown := workoutResponse with_last with_completions (with_includes take1 id w db) in
  exercises_sorted shown ∧ exercises_persisted db shown.
Proof. split; [apply with_includes_sorted|apply with_includes_persisted]. Qed.

Lemma workout_findUnique_inv take1 id db r db' :
  workout_findUnique take1 id db = (r, db') →
  db' = db ∧ ∃ o, r = inr o ∧ ∀ wi, o = Some wi → ∃ w, wi = with_includes take1 id w db.
Proof.
  unfold workout_findUnique. intros [= <- <-]. split; [done|].
  eexists. split; [done|]. intros wi Hwi.
  destruct (workouts db !! id) as [w|]; [|done]. injection Hwi as <-. eauto.
Qed.

Lemma handleApiError_in_order db error : workouts_in_order db (handleApiError error).
Proof.
  destruct error as [m d|code|]; cbn; [done| |done].
  destruct (String.prefix "P" code); [|done].
  unfold handlePrismaError. by repeat case_decide.
Qed.

Lemma GET_in_order id db : workouts_in_order (GET id db).2 (GET id db).1.
Proof.
  unfold GET. destruct (workouts db !! id); [|done]. apply with_includes_in_order.
Qed.

Lemma GET_list_in_order store window q db :
  workouts_in_order (GET_list store window q db).2 (GET_list store window q db).1.
Proof.
  unfold GET_list. cbn zeta. destruct (window _ _ _) as [error|page];
    [apply handleApiError_in_order|].
  unfold workouts_in_order. cbn. apply Forall_fmap, Forall_forall.
  intros [id w] _. apply with_includes_in_order.
Qed.

Lemma PATCH_in_order now id db : workouts_in_order (PATCH now id db).2 (PATCH now id db).1.
Proof.
  unfold PATCH. destruct (workouts db !! id) as [w|] eqn:Hw; [|done].
  unfold workout_update. rewrite Hw. apply with_includes_in_order.
Qed.

Lemma PUT_in_order `{IdGen} now id validated db :
  workouts_in_order (PUT now id validated db).2 (PUT now id validated db).1.
Proof.
  unfold PUT. destruct (workouts db !! id) as [w|]; [|done].
  destruct validated as [error|validatedData]; [apply handleApiError_in_order|].
  unfold transaction.
  destruct (PUT_callback _ _ _ _ db) as [[error|[wi|]] db1] eqn:Hcb;
    [apply handleApiError_in_order| |done].
  unfold PUT_callback in Hcb.
  apply bind_inr_inv in Hcb as ([] & db2 & _ & Hcb).
  apply bind_inr_inv in Hcb as ([] & db3 & _ & Hfind).
  apply workout_findUnique_inv in Hfind as (-> & o & [= <-] & Hwi).
  destruct (Hwi wi eq_refl) as [w' ->]. apply with_includes_in_order.
Qed.

Lemma POST_in_order `{IdGen} now validated db :
  workouts_in_order (POST now validated db).2 (POST now validated db).1.
Proof.
  unfold POST. destruct validated as [error|validatedData]; [apply handleApiError_in_order|].
  unfold transaction.
  destruct (POST_callback _ _ db) as [[error|[wi|]] db1] eqn:Hcb;
    [apply handleApiError_in_order| |done].
  unfold POST_callback in Hcb.
  apply bind_inr_inv in Hcb as (new & db2 & _ & Hcb).
  apply bind_inr_inv in Hcb as ([] & db3 & _ & Hfind).
  apply workout_findUnique_inv in Hfind as (-> & o & [= <-] & Hwi).
  destruct (Hwi wi eq_refl) as [w' ->]. apply with_includes_in_order.
Qed.

(** In the example store the table holds "e1" (order 1) before "e2"
    (order 0); the single fetch answers with "e2" first. *)
Lemma GET_example :
  (exercises_of "w1" db0).*1 = ["e1"; "e2"]
  ∧ response_exercise_ids (GET "w1" db0).1 = ["e2"; "e1"].
Proof. split; by vm_compute. Qed.

(** C8 (ordering of responses).  Whatever the store and the request, every
    workout representation in the response of the list fetch, the single
    fetch, the creation, the update and the favorite toggle carries its
    exercises sorted ascending by the persisted [order] field: the entries
    are non-decreasing in [order], and they are exactly the rows that the
    store, as the call leaves it, holds for that workout, each once and
    with the [order] (and the other fields) persisted for it. *)
Theorem C8_responses_sorted_by_order `{IdGen} store window q now id created updated db :
  workouts_in_order (GET_list store window q db).2 (GET_list store window q db).1
  ∧ workouts_in_order (GET id db).2 (GET id db).1
  ∧ workouts_in_order (POST now created db).2 (POST now created db).1
  ∧ workouts_in_order (PUT now id updated db).2 (PUT now id updated db).1
  ∧ workouts_in_order (PATCH now id db).2 (PATCH now id db).1.
Proof.
  split_and!;
    [apply GET_list_in_order|apply GET_in_order|apply POST_in_order|apply PUT_in_order
    |apply PATCH_in_order].
Qed.

(** In the example store, whose table holds "e1" (order 1) before "e2"
    (order 0), the single fetch answers with a representation that lists
    "e2" first. *)
Lemma C8_witness :
  ∃ w, body (GET "w1" db0).1 = BWorkout w
       ∧ er_id <$> wr_exercises w = ["e2"; "e1"]
       ∧ exercises_sorted w ∧ exercises_persisted db0 w.
Proof.
  pose proof (C8_responses_sorted_by_order (H := longer_idgen) Gym.letter_by_letter
                Gym.window Gym.strength_page 5 "w1" (inl OtherError) (inl OtherError) db0)
    as (_ & Hget & _).
  eexists. split; [reflexivity|]. split; [by vm_compute|]. exact Hget.
Defined.


(** ** Validation *)

Section validation_facts.
Variable Number : value → number.
Variable parseInt : value → number.

Lemma elem_of_exercise_messages validate items index exercise message details :
  items !! index = Some exercise →
  validate exercise = inl (ValidationError message details) →
  "Exercise " +:+ pretty (index + 1)%nat +:+ ": " +:+ message
    ∈ exercise_messages validate items.
Proof.
  intros Hitem Hval. unfold exercise_messages. apply list_elem_of_join.
  exists ["Exercise " +:+ pretty (index + 1)%nat +:+ ": " +:+ message].
  split; [by apply list_elem_of_singleton|].
  apply list_elem_of_lookup. exists index.
  rewrite list_lookup_imap, Hitem. cbn. by rewrite Hval.
Qed.

Lemma nonempty_length {A} (x : A) (l : list A) : x ∈ l → bool_decide (0 < length l)%nat = true.
Proof.
  intros Hx. apply bool_decide_eq_true. destruct l; [by apply elem_of_nil in Hx|cbn; lia].
Qed.

(** An entry that can be read and has no [order] is refused, and
    "order is required" is the last of its messages. *)
Lemma validateCreateExercise_without_order exercise :
  is_nullish exercise = false →
  is_nullish (get exercise "order") = true →
  validateCreateExercise Number parseInt exercise
    = inl (ValidationError (join ", " (createExercise_errors Number exercise)) None)
  ∧ "order is required" ∈ createExercise_errors Number exercise.
Proof.
  intros Hread Horder.
  assert ("order is required" ∈ createExercise_errors Number exercise) as Hin.
  { unfold createExercise_errors. rewrite !elem_of_app. right. right.
    destruct (get exercise "order"); try discriminate; cbn; by apply list_elem_of_singleton. }
  split; [|done]. unfold validateCreateExercise. rewrite Hread.
  by rewrite (nonempty_length _ _ Hin).
Qed.

Lemma get_VArr_readable data key items : get data key = VArr items → is_nullish data = false.
Proof. by destruct data. Qed.

End validation_facts.

Lemma is_undefined_false v : is_undefined v = false ↔ v ≠ VUndefined.
Proof. by destruct v. Qed.

Lemma is_undefined_true v : is_undefined v = true ↔ v = VUndefined.
Proof. by destruct v. Qed.

(** The four workout fields of an update payload. *)
Lemma validateUpdateWorkout_inr (Number parseInt : value → number) data result :
  validateUpdateWorkout Number parseInt data = inr result →
  updateWorkout_errors Number parseInt data = []
  ∧ ∃ exercises,
      result = VObj
        (assign_if_defined data "exercises" (VArr exercises)
        (assign_if_defined data "category" (lowered (get data "category"))
        (assign_if_defined data "description"
           (if truthy_value (get data "description")
            then sanitized (get data "description") else VNull)
        (assign_if_defined data "name" (sanitized (get data "name")) [])))).
Proof.
  unfold validateUpdateWorkout. destruct (is_nullish data); [done|].
  destruct (updateWorkout_errors Number parseInt data) as [|e errors] eqn:Herrors; [|done].
  cbn. destruct (if is_undefined (get data "exercises") then _ else _) as [e|exercises];
    [done|].
  intros [= <-]. eauto.
Qed.

(** Whatever else an update payload holds, a [description] of [null] makes
    the validator throw, with "description must be a string" among the
    details. *)
Lemma validateUpdateWorkout_null_description (Number parseInt : value → number) data :
  get data "description" = VNull →
  ∃ details,
    validateUpdateWorkout Number parseInt data
      = inl (ValidationError "Validation failed" (Some details))
    ∧ "description must be a string" ∈ details.
Proof.
  intros Hnull.
  assert ("description must be a string" ∈ updateWorkout_errors Number parseInt data) as Hin.
  { unfold updateWorkout_errors. rewrite !elem_of_app. right. left.
    rewrite Hnull. cbn. by apply list_elem_of_singleton. }
  exists (updateWorkout_errors Number parseInt data). split; [|done].
  unfold validateUpdateWorkout.
  assert (is_nullish data = false) as -> by (by destruct data).
  by rewrite (nonempty_length _ _ Hin).
Qed.

(** C6 (update-mode field semantics): where the code departs from the
    claim.  Given the payload whose only field is a [description] of
    [null], the update validator does not accept it and emit [null]: it
    throws the validation error with "description must be a string".  Its
    neighbours do what the claim says: for the empty string the same
    validator emits [null], and the exercise validator accepts [notes] of
    [null] and emits [null]. *)
Theorem C6_null_description_rejected (Number parseInt : value → number) :
  validateUpdateWorkout Number parseInt (VObj [("description", VNull)])
    = inl (ValidationError "Validation failed" (Some ["description must be a string"]))
  ∧ validateUpdateWorkout Number parseInt (VObj [("description", VStr "")])
    = inr (VObj [("description", VNull)])
  ∧ validateUpdateExercise Number parseInt (VObj [("notes", VNull)])
    = inr (VObj [("notes", VNull)]).
Proof. split_and!; reflexivity. Qed.

(** What the update validator does with [description] on examples: the
    empty string is emitted as [null], and a payload without the key
    yields an object without it. *)
Lemma validateUpdateWorkout_description_examples (Number parseInt : value → number) :
  validateUpdateWorkout Number parseInt (VObj [("description", VStr "")])
    = inr (VObj [("description", VNull)])
  ∧ validateUpdateWorkout Number parseInt (VObj [("name", VStr "Leg  Day ")])
    = inr (VObj [("name", VStr "Leg Day")]).
Proof. split; reflexivity. Qed.

(** With [order] supplied the creation payload passes; the name is
    sanitized, the category lowered, the order kept as it was sent. *)
Lemma validateCreateWorkout_example :
  validateCreateWorkout example_Number example_parseInt create_with_order
  = inr (VObj
      [ ("name", VStr "Leg Day"); ("description", VUndefined);
        ("category", VStr "strength");
        ("exercises",
         VArr [ VObj [ ("name", VStr "Back squats"); ("reps", num 10); ("sets", num 4);
                       ("duration", VUndefined); ("notes", VUndefined);
                       ("order", num 3) ] ]) ]).
Proof. by vm_compute. Qed.

(** C7, as stated, fails: the creation payload whose only exercise has no
    [order] does not pass validation. *)
Lemma C7_counterexample :
  get create_without_order "exercises"
    = VArr [ VObj [ ("name", VStr "Squats"); ("sets", num 4); ("reps", num 10) ] ]
  ∧ get (VObj [ ("name", VStr "Squats"); ("sets", num 4); ("reps", num 10) ]) "order"
    = VUndefined
  ∧ validateCreateWorkout example_Number example_parseInt create_without_order
    = inl (ValidationError "Validation failed" (Some ["Exercise 1: order is required"])).
Proof. split_and!; by vm_compute. Qed.

(** C7 (create mode, amended).  [order] is required of every exercise of a
    creation payload: when the entry at some index of the exercises array
    omits it, validation does not succeed but throws the validation error,
    whose details hold for that entry the message "Exercise n: ..." with n
    the 1-based position and "order is required" among the entry's
    messages. *)
Theorem C7_order_required (Number parseInt : value → number) data items index exercise :
  get data "exercises" = VArr items →
  items !! index = Some exercise →
  is_nullish exercise = false →
  get exercise "order" = VUndefined →
  ∃ details,
    validateCreateWorkout Number parseInt data
      = inl (ValidationError "Validation failed" (Some details))
    ∧ "Exercise " +:+ pretty (index + 1)%nat +:+ ": "
        +:+ join ", " (createExercise_errors Number exercise) ∈ details
    ∧ "order is required" ∈ createExercise_errors Number exercise.
Proof.
  intros Hexs Hitem Hread Horder.
  destruct (validateCreateExercise_without_order Number parseInt exercise Hread)
    as [Hval Hin]; [by rewrite Horder|].
  exists (createWorkout_errors Number parseInt data).
  assert ("Exercise " +:+ pretty (index + 1)%nat +:+ ": "
            +:+ join ", " (createExercise_errors Number exercise)
          ∈ createWorkout_errors Number parseInt data) as Hmsg.
  { unfold createWorkout_errors. rewrite !elem_of_app. do 3 right.
    rewrite Hexs. cbn [validateRequired validateArray or_else items_of].
    rewrite bool_decide_eq_false_2.
    - by eapply elem_of_exercise_messages.
    - intros Hlen. apply length_zero_iff_nil in Hlen. by rewrite Hlen in Hitem. }
  split_and!; [|done|done].
  unfold validateCreateWorkout. rewrite (get_VArr_readable _ _ _ Hexs).
  by rewrite (nonempty_length _ _ Hmsg).
Qed.

Lemma C7_witness :
  ∃ details,
    validateCreateWorkout example_Number example_parseInt create_without_order
      = inl (ValidationError "Validation failed" (Some details))
    ∧ "Exercise 1: order is required" ∈ details
    ∧ "order is required"
        ∈ createExercise_errors example_Number
            (VObj [ ("name", VStr "Squats"); ("sets", num 4); ("reps", num 10) ]).
Proof.
  apply (C7_order_required example_Number example_parseInt create_without_order
           [ VObj [ ("name", VStr "Squats"); ("sets", num 4); ("reps", num 10) ] ] 0%nat
           (VObj [ ("name", VStr "Squats"); ("sets", num 4); ("reps", num 10) ])).
  - reflexivity.
  - reflexivity.
  - reflexivity.
  - reflexivity.
Defined.

(** * Further properties *)

(** ** Operations and the relations they respect *)

Lemma respects_ret (R : relation DB) `{!Reflexive R} {A} (a : A) : respects R (ret a).
Proof. by intros db r db' [= <- <-]. Qed.

Lemma respects_bind (R : relation DB) `{!Transitive R} {A B} (m : Tx A) (k : A → Tx B) :
  respects R m → (∀ a, respects R (k a)) → respects R (bind m k).
Proof.
  intros Hm Hk db r db'. unfold bind.
  destruct (m db) as [[e|a] db1] eqn:Hrun.
  - intros [= <- <-]. by eapply Hm.
  - intros Hrun2. etrans; [by eapply Hm|by eapply Hk].
Qed.

Lemma respects_transaction (R : relation DB) `{!Reflexive R} {A} (m : Tx A) :
  respects R m → respects R (transaction m).
Proof.
  intros Hm db r db'. unfold transaction.
  destruct (m db) as [[e|a] db1] eqn:Hrun; intros [= <- <-]; [done|]. by eapply Hm.
Qed.

Global Instance same_workouts_completions_refl : Reflexive same_workouts_completions.
Proof. by intros db. Qed.

Global Instance same_workouts_completions_trans : Transitive same_workouts_completions.
Proof. intros db1 db2 db3 [? ?] [? ?]. split; congruence. Qed.

Section exercise_operations.
Context `{IdGen}.

Lemma handleDirective_tables wid ex d upd :
  respects same_workouts_completions (handleDirective wid ex d upd).
Proof.
  rewrite handleDirective_dispatch. destruct (dispatch_of ex d).
  - apply respects_bind; [apply _| |intros; by apply respects_ret].
    intros db r db' Hrun.
    by apply exercise_delete_inv in Hrun as [(_ & -> & _)|(_ & -> & _)].
  - apply respects_bind; [apply _| |intros; by apply respects_ret].
    destruct (has_keys _); [|by apply respects_ret].
    intros db r db' Hrun.
    by apply exercise_update_inv in Hrun as [(_ & -> & _)|(e & _ & _ & ->)].
  - apply respects_bind; [apply _| |intros; by apply respects_ret].
    intros db r db' Hrun.
    by apply exercise_create_inv in Hrun as [(_ & -> & _)|(_ & -> & _)].
Qed.

Lemma handleDirectives_tables wid ex updates upd :
  respects same_workouts_completions (handleDirectives wid ex updates upd).
Proof.
  revert upd. induction updates as [|d updates IH]; intros upd; [by apply respects_ret|].
  cbn. apply respects_bind; [apply _|apply handleDirective_tables|done].
Qed.

Lemma handleExerciseUpdates_tables wid updates existing :
  respects same_workouts_completions (handleExerciseUpdates wid updates existing).
Proof.
  apply respects_bind; [apply _|apply handleDirectives_tables|]. intros upd. cbn zeta.
  destruct (hasCompleteExerciseList updates && _); [|by apply respects_ret].
  by intros db r db' [= <- <-].
Qed.

(** The outcome of [PUT], read off its control flow: either the store is
    untouched and the answer is not a 200, or the workout exists, the
    request was valid, both steps of the callback ran to their end and the
    answer is the 200 made from the committed store. *)
Lemma PUT_cases now id validated db :
  ((PUT now id validated db).2 = db ∧ status (PUT now id validated db).1 ≠ HTTP_STATUS.OK)
  ∨ ∃ w validatedData db1,
      workouts db !! id = Some w ∧ validated = inr validatedData
      ∧ update_workout_fields now id validatedData db = (inr (), db1)
      ∧ (match r_exercises validatedData with
         | Some exerciseUpdates =>
             handleExerciseUpdates id exerciseUpdates (exercises_of id db)
         | None => ret ()
         end) db1 = (inr (), (PUT now id validated db).2)
      ∧ ∃ w', workouts (PUT now id validated db).2 !! id = Some w'
              ∧ (PUT now id validated db).1
                = createSuccessResponse
                    (BWorkout (workoutResponse true false
                       (with_includes true id w' (PUT now id validated db).2)))
                    HTTP_STATUS.OK.
Proof.
  unfold PUT. destruct (workouts db !! id) as [w|] eqn:Hw; [|by left].
  destruct validated as [error|validatedData].
  { left. split; [done|apply handleApiError_not_OK]. }
  unfold transaction.
  destruct (PUT_callback now id validatedData (exercises_of id db) db) as [[error|o] db3]
    eqn:Hcb.
  { left. split; [done|apply handleApiError_not_OK]. }
  unfold PUT_callback in Hcb.
  apply bind_inr_inv in Hcb as ([] & db1 & Hstep & Hcb).
  apply bind_inr_inv in Hcb as ([] & db2 & Hrec & Hfind).
  unfold workout_findUnique in Hfind. injection Hfind as <- <-.
  assert (is_Some (workouts db2 !! id)) as [w' Hw'].
  { apply update_workout_fields_inv in Hstep as (_ & Hdom & _).
    assert (workouts db2 = workouts db1) as ->.
    { destruct (r_exercises validatedData).
      - by apply handleExerciseUpdates_tables in Hrec as [? _].
      - by injection Hrec as <-. }
    apply elem_of_dom. rewrite Hdom. by eapply elem_of_dom_2. }
  right. rewrite Hw'. cbn. exists w, validatedData, db1. split_and!; [done..|]. by exists w'.
Qed.

End exercise_operations.

(** ** [PUT]: what a failed or a partial update leaves alone *)

Section put_frame.
Context `{IdGen}.

(** One directive leaves alone every row that is not in the snapshot of the
    workout's exercises, unless it is the delete of that row. *)
Lemma handleDirective_frame_other wid ex d upd db upd' db' eid e :
  handleDirective wid ex d upd db = (inr upd', db') →
  eid ∉ ex →
  ¬ (u_id d = Some eid ∧ u_action d = Some ActDelete) →
  exercises db !! eid = Some e →
  exercises db' !! eid = Some e.
Proof.
  intros Hrun Hex Hnd He.
  destruct (decide (u_id d = Some eid)) as [Hid|Hid];
    [|by eapply (handleDirective_frame _ _ _ _ _ _ _ _ _ Hrun Hid He)].
  unfold handleDirective in Hrun. rewrite Hid in Hrun. cbn [default] in Hrun.
  unfold is_action in Hrun. rewrite (bool_decide_eq_false_2 (u_action d = Some ActDelete)) in Hrun
    by tauto.
  rewrite (bool_decide_eq_false_2 (eid ∈ ex)), andb_false_r in Hrun by done.
  cbn [andb] in Hrun.
  apply bind_inr_inv in Hrun as (new & db1 & Hop & [= <- <-]).
  apply exercise_create_inv in Hop as [(? & _)|([= ->] & -> & _)]; [done|].
  cbn. rewrite lookup_insert_ne; [done|]. intros <-. by rewrite cuid_lookup in He.
Qed.

Lemma handleDirectives_frame_other wid ex updates upd db upd' db' eid e :
  handleDirectives wid ex updates upd db = (inr upd', db') →
  eid ∉ ex →
  (∀ d, d ∈ updates → ¬ (u_id d = Some eid ∧ u_action d = Some ActDelete)) →
  exercises db !! eid = Some e →
  exercises db' !! eid = Some e.
Proof.
  revert upd db. induction updates as [|d updates IH]; intros upd db Hrun Hex Hnd He.
  - by injection Hrun as <- <-.
  - cbn in Hrun. apply bind_inr_inv in Hrun as (upd1 & db1 & Hd & Hrest).
    eapply IH; [done|done| |].
    + intros d' Hd'. apply Hnd. by right.
    + eapply handleDirective_frame_other; [done|done| |done]. apply Hnd. by left.
Qed.

Lemma handleExerciseUpdates_frame_other wid updates existing db db' eid e :
  handleExerciseUpdates wid updates existing db = (inr (), db') →
  eid ∉ existing.*1 →
  (∀ d, d ∈ updates → ¬ (u_id d = Some eid ∧ u_action d = Some ActDelete)) →
  exercises db !! eid = Some e →
  exercises db' !! eid = Some e.
Proof.
  intros Hrun Hex Hnd He. unfold handleExerciseUpdates in Hrun.
  apply bind_inr_inv in Hrun as (upd & db1 & Hloop & Hfinal).
  assert (exercises db1 !! eid = Some e) as He1.
  { eapply handleDirectives_frame_other; [done| |done|done].
    by rewrite elem_of_list_to_set. }
  cbn zeta in Hfinal.
  destruct (hasCompleteExerciseList updates && _); [|unfold ret in Hfinal; by simplify_eq].
  pose proof (lookup_deleteMany ((exercisesToDelete updates existing upd).*1) db1 eid) as Hl.
  rewrite Hfinal in Hl. cbn [snd] in Hl. rewrite Hl, decide_False; [done|].
  intros ([i e'] & -> & Hin)%list_elem_of_fmap. apply Hex.
  unfold exercisesToDelete in Hin.
  apply list_elem_of_filter in Hin as [_ Hin]. apply list_elem_of_filter in Hin as [_ Hin].
  apply list_elem_of_fmap. by exists (i, e').
Qed.

(** X1 — [PUT] answers 200 or changes nothing: whenever the status of the
    answer is not 200 (unknown workout, rejected body, an operation of the
    batch that throws), the store after the call is the store before it. *)
Theorem PUT_failure_leaves_store now id validated db :
  status (PUT now id validated db).1 ≠ HTTP_STATUS.OK →
  (PUT now id validated db).2 = db.
Proof.
  intros Hst.
  destruct (PUT_cases now id validated db) as [[Hdb _]|(w & v & db1 & _ & _ & _ & _ & w' & _ & Hr)];
    [done|].
  by rewrite Hr in Hst.
Qed.

(** X2 — an exercise owned by another workout survives every [PUT] on this
    one unchanged, unless the payload carries a directive with that
    exercise's id and [_action: "delete"]. *)
Theorem PUT_keeps_exercises_of_other_workouts now id validated db eid e :
  exercises db !! eid = Some e →
  e_workoutId e ≠ id →
  (∀ validatedData exerciseUpdates d,
     validated = inr validatedData → r_exercises validatedData = Some exerciseUpdates →
     d ∈ exerciseUpdates → ¬ (u_id d = Some eid ∧ u_action d = Some ActDelete)) →
  exercises (PUT now id validated db).2 !! eid = Some e.
Proof.
  intros He Hother Hnd.
  destruct (PUT_cases now id validated db)
    as [[-> _]|(w & v & db1 & _ & -> & Hstep & Hrec & _)]; [done|].
  apply update_workout_fields_inv in Hstep as (Hex & _ & _).
  rewrite <- Hex in He.
  destruct (r_exercises v) as [updates|] eqn:Hupdates.
  - eapply handleExerciseUpdates_frame_other; [done| |by eauto|done].
    intros ([i e'] & Hi & Hin)%list_elem_of_fmap. cbn in Hi. subst i.
    apply elem_of_exercises_of in Hin as [He' Hw']. rewrite <- Hex in He'. congruence.
  - unfold ret in Hrec. by simplify_eq.
Qed.

End put_frame.

Lemma PUT_failure_leaves_store_witness :
  status (PUT (H := longer_idgen) 9 "w1" (inr Examples.rename_and_fail) Gym.db2).1
    ≠ HTTP_STATUS.OK
  ∧ (PUT (H := longer_idgen) 9 "w1" (inr Examples.rename_and_fail) Gym.db2).2 = Gym.db2.
Proof.
  split; [by vm_compute|].
  apply (PUT_failure_leaves_store (H := longer_idgen)). by vm_compute.
Defined.

Lemma PUT_keeps_exercises_of_other_workouts_witness :
  exercises Gym.db2 !! "e3" = Some Gym.bench
  ∧ exercises (PUT (H := longer_idgen) 9 "w1" (inr Gym.rename_e3) Gym.db2).2 !! "e3"
    = Some Gym.bench.
Proof.
  split; [by vm_compute|].
  apply (PUT_keeps_exercises_of_other_workouts (H := longer_idgen)); [by vm_compute|done|].
  intros v updates d [= <-] [= <-] Hd%list_elem_of_singleton. subst d.
  intros [_ ?]. discriminate.
Defined.

Section put_commit.
Context `{IdGen}.

(** The converse of [PUT_cases]: when the workout exists and both steps of
    the callback go through, the answer is a 200 and the working copy is
    committed. *)
Lemma PUT_commit now id validatedData db db1 db2 :
  is_Some (workouts db !! id) →
  update_workout_fields now id validatedData db = (inr (), db1) →
  (match r_exercises validatedData with
   | Some exerciseUpdates => handleExerciseUpdates id exerciseUpdates (exercises_of id db)
   | None => ret ()
   end) db1 = (inr (), db2) →
  status (PUT now id (inr validatedData) db).1 = HTTP_STATUS.OK
  ∧ (PUT now id (inr validatedData) db).2 = db2.
Proof.
  intros [w Hw] Hstep Hrec.
  assert (is_Some (workouts db2 !! id)) as [w' Hw'].
  { pose proof Hstep as (_ & Hdom & _)%update_workout_fields_inv.
    assert (workouts db2 = workouts db1) as ->.
    { destruct (r_exercises validatedData).
      - by apply handleExerciseUpdates_tables in Hrec as [? _].
      - unfold ret in Hrec. by simplify_eq. }
    apply elem_of_dom. rewrite Hdom. by eapply elem_of_dom_2. }
  unfold PUT. rewrite Hw. unfold transaction, PUT_callback.
  rewrite (bind_inr _ _ _ _ _ Hstep), (bind_inr _ _ _ _ _ Hrec).
  unfold workout_findUnique. by rewrite Hw'.
Qed.

(** X3 — the delete directive is not scoped to the workout of the URL: a
    [PUT] on an existing workout whose only directive is a delete with the
    id of an existing exercise answers 200 and removes that exercise,
    whichever workout owns it. *)
Theorem PUT_delete_reaches_any_exercise now id validatedData d db eid :
  is_Some (workouts db !! id) →
  is_Some (exercises db !! eid) →
  eid ≠ "" →
  r_exercises validatedData = Some [d] →
  u_id d = Some eid →
  u_action d = Some ActDelete →
  status (PUT now id (inr validatedData) db).1 = HTTP_STATUS.OK
  ∧ exercises (PUT now id (inr validatedData) db).2 !! eid = None.
Proof.
  intros Hw [e He] Hne Hupdates Hid Hact.
  destruct (update_workout_fields now id validatedData db) as [r db1] eqn:Hstep.
  pose proof (update_workout_fields_ok now id validatedData db Hw) as Hr.
  rewrite Hstep in Hr. cbn in Hr. subst r.
  pose proof Hstep as (Hex & _ & _)%update_workout_fields_inv.
  destruct (PUT_commit now id validatedData db db1 (set_exercises (delete eid) db1))
    as [Hst Hdb]; [done|done| |].
  - rewrite Hupdates.
    assert (∀ ex, handleDirective id ex d ∅ db1 = (inr ∅, set_exercises (delete eid) db1))
      as Hd.
    { intros ex. unfold handleDirective, is_action. rewrite Hid, Hact.
      cbn [default from_option Datatypes.id truthy].
      rewrite !bool_decide_eq_true_2 by done. cbn [andb].
      unfold bind, exercise_delete. by rewrite Hex, He. }
    unfold handleExerciseUpdates. cbn [handleDirectives].
    erewrite bind_inr; [|erewrite bind_inr; [|apply Hd]; reflexivity].
    unfold hasCompleteExerciseList, is_action. cbn [existsb]. rewrite Hid, Hact.
    cbn [truthy]. rewrite bool_decide_eq_true_2 by done.
    by rewrite (bool_decide_eq_false_2 (Some ActDelete = Some ActCreate)) by discriminate.
  - split; [done|]. rewrite Hdb. cbn. apply lookup_delete_eq.
Qed.

(** X4 — an update that carries no directive (no [exercises] key, or an
    empty array) always goes through on an existing workout and leaves the
    exercise and completion tables as they were: an empty array does not
    clear the workout's exercises. *)
Theorem PUT_without_directives now id validatedData db :
  is_Some (workouts db !! id) →
  r_exercises validatedData = None ∨ r_exercises validatedData = Some [] →
  status (PUT now id (inr validatedData) db).1 = HTTP_STATUS.OK
  ∧ exercises (PUT now id (inr validatedData) db).2 = exercises db
  ∧ completions (PUT now id (inr validatedData) db).2 = completions db.
Proof.
  intros Hw Hnone.
  destruct (update_workout_fields now id validatedData db) as [r db1] eqn:Hstep.
  pose proof (update_workout_fields_ok now id validatedData db Hw) as Hr.
  rewrite Hstep in Hr. cbn in Hr. subst r.
  pose proof Hstep as (Hex & _ & Hc)%update_workout_fields_inv.
  destruct (PUT_commit now id validatedData db db1 db1) as [Hst ->]; [done|done| |done].
  by destruct Hnone as [-> | ->].
Qed.

(** X5 — what a successful [PUT] does to the workout table: the row of the
    workout takes the supplied name, description and category and keeps the
    others, [isFavorite] and [createdAt] are never changed, [updatedAt] moves
    to the instant of the call exactly when one of the three fields is
    supplied (a change of exercises alone does not move it); every other
    workout and every completion is left as it was. *)
Theorem PUT_workout_row now id validatedData db w :
  workouts db !! id = Some w →
  status (PUT now id (inr validatedData) db).1 = HTTP_STATUS.OK →
  workouts (PUT now id (inr validatedData) db).2 !! id
    = Some {| w_name := default (w_name w) (r_name validatedData);
              w_description := default (w_description w) (r_description validatedData);
              w_category := default (w_category w) (r_category validatedData);
              w_isFavorite := w_isFavorite w;
              w_createdAt := w_createdAt w;
              w_updatedAt :=
                if bool_decide (r_name validatedData = None
                                ∧ r_description validatedData = None
                                ∧ r_category validatedData = None)
                then w_updatedAt w else now |}
  ∧ (∀ other, other ≠ id →
       workouts (PUT now id (inr validatedData) db).2 !! other = workouts db !! other)
  ∧ completions (PUT now id (inr validatedData) db).2 = completions db.
Proof.
  intros Hw Hst.
  destruct (PUT_cases now id (inr validatedData) db)
    as [[_ ?]|(w0 & v & db1 & _ & [= <-] & Hstep & Hrec & _)]; [done|].
  assert (workouts (PUT now id (inr validatedData) db).2 = workouts db1
          ∧ completions (PUT now id (inr validatedData) db).2 = completions db1) as [-> ->].
  { destruct (r_exercises validatedData).
    - by apply handleExerciseUpdates_tables in Hrec.
    - unfold ret in Hrec. by simplify_eq. }
  clear Hrec Hst. unfold update_workout_fields, workout_has_keys in Hstep. cbn in Hstep.
  destruct validatedData as [name description category updates]. cbn in *.
  destruct name, description, category; cbn in Hstep;
    unfold bind, workout_update in Hstep; rewrite ?Hw in Hstep; cbn in Hstep;
    injection Hstep as <-; cbn;
    rewrite ?lookup_insert_eq;
    try (rewrite bool_decide_eq_false_2 by (intros (? & ? & ?); discriminate));
    try (rewrite bool_decide_eq_true_2 by done);
    (split_and!; [by destruct w|by intros; rewrite ?lookup_insert_ne|done]).
Qed.

End put_commit.

Lemma PUT_delete_reaches_any_exercise_witness :
  e_workoutId Gym.bench ≠ "w1"
  ∧ exercises Gym.db2 !! "e3" = Some Gym.bench
  ∧ status (PUT (H := longer_idgen) 9 "w1" (inr Gym.delete_e3) Gym.db2).1 = HTTP_STATUS.OK
  ∧ exercises (PUT (H := longer_idgen) 9 "w1" (inr Gym.delete_e3) Gym.db2).2 !! "e3" = None.
Proof.
  split; [done|]. split; [by vm_compute|].
  apply (PUT_delete_reaches_any_exercise (H := longer_idgen) 9 "w1" Gym.delete_e3
           (Examples.with_action ActDelete (Examples.with_id "e3" Examples.directive))
           Gym.db2 "e3"); done.
Defined.

Lemma PUT_without_directives_witness :
  status (PUT (H := longer_idgen) 9 "w1" (inr Gym.rename_only) Gym.db2).1 = HTTP_STATUS.OK
  ∧ exercises (PUT (H := longer_idgen) 9 "w1" (inr Gym.rename_only) Gym.db2).2
    = exercises Gym.db2
  ∧ completions (PUT (H := longer_idgen) 9 "w1" (inr Gym.rename_only) Gym.db2).2
    = completions Gym.db2.
Proof.
  apply (PUT_without_directives (H := longer_idgen)); [|by right].
  exists Examples.leg_day. by vm_compute.
Defined.

Lemma PUT_workout_row_witness :
  workouts (PUT (H := longer_idgen) 9 "w1" (inr Gym.rename_only) Gym.db2).2 !! "w1"
  = Some {| w_name := "Legs"; w_description := None; w_category := "strength";
            w_isFavorite := false; w_createdAt := 1; w_updatedAt := 9 |}.
Proof.
  apply (PUT_workout_row (H := longer_idgen) 9 "w1" Gym.rename_only Gym.db2 Examples.leg_day);
    by vm_compute.
Defined.

(** ** Referential integrity *)

Global Instance preserves_refl P : Reflexive (preserves P).
Proof. intros db HP. exact HP. Qed.

Global Instance preserves_trans P : Transitive (preserves P).
Proof. intros db1 db2 db3 H12 H23 HP. by apply H23, H12. Qed.

(** The invariant only reads the ids of the workout table. *)
Lemma ref_integrity_dom db db' :
  dom (workouts db') = dom (workouts db) →
  exercises db' = exercises db →
  completions db' = completions db →
  ref_integrity db → ref_integrity db'.
Proof.
  intros Hdom He Hc [Hex Hco]. split.
  - intros eid e Hl. rewrite He in Hl. apply elem_of_dom. rewrite Hdom.
    apply elem_of_dom. by eapply Hex.
  - intros cid c Hl. rewrite Hc in Hl. apply elem_of_dom. rewrite Hdom.
    apply elem_of_dom. by eapply Hco.
Qed.

Lemma ref_integrity_exercises db exs :
  (∀ eid e, exs !! eid = Some e → is_Some (workouts db !! e_workoutId e)) →
  ref_integrity db → ref_integrity (set_exercises (λ _, exs) db).
Proof. intros Hexs [_ Hco]. split; [exact Hexs|exact Hco]. Qed.

Lemma exercise_delete_ref id : respects (preserves ref_integrity) (exercise_delete id).
Proof.
  intros db r db' [(_ & -> & _)|(_ & -> & _)]%exercise_delete_inv Hri; [done|].
  apply (ref_integrity_exercises db (delete id (exercises db))); [|done].
  intros eid e [_ Hl]%lookup_delete_Some. by eapply Hri.
Qed.

Lemma exercise_update_ref id data :
  respects (preserves ref_integrity) (exercise_update id data).
Proof.
  intros db r db' [(_ & -> & _)|(e0 & _ & He0 & ->)]%exercise_update_inv Hri; [done|].
  apply (ref_integrity_exercises db (<[id := apply_update data e0]> (exercises db))); [|done].
  intros eid e [[_ <-]|[_ Hl]]%lookup_insert_Some; cbn; by eapply Hri.
Qed.

Lemma exercise_deleteMany_ref ids :
  respects (preserves ref_integrity) (exercise_deleteMany ids).
Proof.
  intros db r db' [= <- <-] Hri.
  apply (ref_integrity_exercises db (filter (λ kv, kv.1 ∉ ids) (exercises db))); [|done].
  intros eid e [Hl _]%map_lookup_filter_Some. by eapply Hri.
Qed.

Lemma workout_update_ref now id data :
  respects (preserves ref_integrity) (workout_update now id data).
Proof.
  intros db r db'. unfold workout_update.
  destruct (workouts db !! id) as [w|] eqn:Hw; intros [= <- <-]; [|done].
  unfold preserves. apply ref_integrity_dom; [|done..]. cbn. rewrite dom_insert_L.
  apply subseteq_union_1_L, singleton_subseteq_l. by eapply elem_of_dom_2.
Qed.

Lemma workout_delete_ref cascade id :
  respects (preserves ref_integrity) (workout_delete cascade id).
Proof.
  intros db r db'. unfold workout_delete.
  destruct (workouts db !! id) as [w|] eqn:Hw; [|by intros [= <- <-]].
  destruct (negb cascade && _); intros [= <- <-]; [done|].
  intros [Hex Hco]. split; cbn.
  - intros eid e [Hl Hne]%map_lookup_filter_Some. cbn in Hne.
    rewrite lookup_delete_ne by done. by eapply Hex.
  - intros cid c [Hl Hne]%map_lookup_filter_Some. cbn in Hne.
    rewrite lookup_delete_ne by done. by eapply Hco.
Qed.

Section integrity.
Context `{IdGen}.

Lemma exercise_create_ref data : respects (preserves ref_integrity) (exercise_create data).
Proof.
  intros db r db' [(_ & -> & _)|(_ & -> & Hw)]%exercise_create_inv Hri; [done|].
  apply (ref_integrity_exercises db
           (<[cuid (dom (exercises db)) := new_row data]> (exercises db))); [|done].
  intros eid e [[_ <-]|[_ Hl]]%lookup_insert_Some; [done|]. by eapply Hri.
Qed.

Lemma workout_create_ref now name description category :
  respects (preserves ref_integrity) (workout_create now name description category).
Proof.
  intros db r db' [= <- <-] [Hex Hco]. split; cbn.
  - intros eid e Hl. apply elem_of_dom. rewrite dom_insert_L.
    apply elem_of_union. right. apply elem_of_dom. by eapply Hex.
  - intros cid c Hl. apply elem_of_dom. rewrite dom_insert_L.
    apply elem_of_union. right. apply elem_of_dom. by eapply Hco.
Qed.

Lemma completion_create_ref now id notes duration :
  respects (preserves ref_integrity) (completion_create now id notes duration).
Proof.
  intros db r db'. unfold completion_create.
  destruct (workouts db !! id) as [w|] eqn:Hw; intros [= <- <-]; [|done].
  intros [Hex Hco]. split; [done|]. cbn.
  intros cid c [[_ <-]|[_ Hl]]%lookup_insert_Some; [by cbn|]. by eapply Hco.
Qed.

Lemma handleDirective_ref wid ex d upd :
  respects (preserves ref_integrity) (handleDirective wid ex d upd).
Proof.
  rewrite handleDirective_dispatch. destruct (dispatch_of ex d).
  - apply respects_bind; [apply _|apply exercise_delete_ref|intros; apply respects_ret, _].
  - apply respects_bind; [apply _| |intros; apply respects_ret, _].
    destruct (has_keys _); [apply exercise_update_ref|apply respects_ret, _].
  - apply respects_bind; [apply _|apply exercise_create_ref|intros; apply respects_ret, _].
Qed.

Lemma handleExerciseUpdates_ref wid updates existing :
  respects (preserves ref_integrity) (handleExerciseUpdates wid updates existing).
Proof.
  apply respects_bind; [apply _| |].
  - generalize (∅ : gset string).
    induction updates as [|d updates IH]; intros upd; [apply respects_ret, _|].
    cbn. apply respects_bind; [apply _|apply handleDirective_ref|done].
  - intros upd. cbn zeta.
    destruct (hasCompleteExerciseList updates && _);
      [apply exercise_deleteMany_ref|apply respects_ret, _].
Qed.

Lemma exercise_createMany_ref data :
  respects (preserves ref_integrity) (exercise_createMany data).
Proof.
  induction data as [|d data IH]; [apply respects_ret, _|].
  cbn. apply respects_bind; [apply _|apply exercise_create_ref|done].
Qed.

Lemma workout_findUnique_ref take1 id :
  respects (preserves ref_integrity) (workout_findUnique take1 id).
Proof. by intros db r db' [= <- <-]. Qed.

(** X6 — referential integrity is an invariant of the write handlers: if
    every exercise and every completion of the store belongs to a workout
    of the store, the same holds after any [PUT], [POST], [PATCH], [DELETE]
    or completion request, whatever the request and whatever the answer. *)
Theorem handlers_keep_ref_integrity now id update create complete cascade db :
  ref_integrity db →
  ref_integrity (PUT now id update db).2
  ∧ ref_integrity (POST now create db).2
  ∧ ref_integrity (PATCH now id db).2
  ∧ ref_integrity (DELETE cascade id db).2
  ∧ ref_integrity (POST_complete now id complete db).2.
Proof.
  intros Hri. split_and!.
  - unfold PUT. destruct (workouts db !! id); [|done]. destruct update as [e|v]; [done|].
    destruct (transaction _ db) as [r db'] eqn:Htx.
    assert (ref_integrity db') as Hri'.
    { refine (respects_transaction (preserves ref_integrity) _ _ _ _ _ Htx Hri).
      unfold PUT_callback. apply respects_bind; [apply _| |intros _].
      - unfold update_workout_fields. destruct (workout_has_keys _); [|apply respects_ret, _].
        apply respects_bind; [apply _|apply workout_update_ref|intros; apply respects_ret, _].
      - apply respects_bind; [apply _| |intros; apply workout_findUnique_ref].
        destruct (r_exercises v); [apply handleExerciseUpdates_ref|apply respects_ret, _]. }
    by destruct r as [e|[wi|]].
  - unfold POST. destruct create as [e|v]; [done|].
    destruct (transaction _ db) as [r db'] eqn:Htx.
    assert (ref_integrity db') as Hri'.
    { refine (respects_transaction (preserves ref_integrity) _ _ _ _ _ Htx Hri).
      unfold POST_callback. apply respects_bind; [apply _|apply workout_create_ref|intros new].
      apply respects_bind; [apply _| |intros; apply workout_findUnique_ref].
      destruct (bool_decide _); [apply exercise_createMany_ref|apply respects_ret, _]. }
    by destruct r as [e|[wi|]].
  - unfold PATCH. destruct (workouts db !! id); [|done].
    destruct (workout_update _ _ _ db) as [r db'] eqn:Hup.
    apply workout_update_ref in Hup. specialize (Hup Hri). by destruct r.
  - unfold DELETE. destruct (workouts db !! id); [|done].
    destruct (workout_delete _ _ db) as [r db'] eqn:Hdel.
    apply workout_delete_ref in Hdel. specialize (Hdel Hri). by destruct r.
  - unfold POST_complete. destruct (workouts db !! id); [|done].
    destruct complete as [e|v]; [done|].
    destruct (completion_create _ _ _ _ db) as [r db'] eqn:Hc.
    apply completion_create_ref in Hc. specialize (Hc Hri). by destruct r.
Qed.

End integrity.

Lemma ref_integrity_check_sound db : ref_integrity_check db = true → ref_integrity db.
Proof.
  unfold ref_integrity_check. intros [He Hc]%andb_true_iff.
  rewrite forallb_forall in He, Hc. split.
  - intros eid e Hl. apply elem_of_map_to_list, list_elem_of_In in Hl.
    by apply He, bool_decide_eq_true in Hl.
  - intros cid c Hl. apply elem_of_map_to_list, list_elem_of_In in Hl.
    by apply Hc, bool_decide_eq_true in Hl.
Qed.

Lemma handlers_keep_ref_integrity_witness :
  ref_integrity Gym.db2
  ∧ ref_integrity (PUT (H := longer_idgen) 9 "w1" (inr Gym.delete_e3) Gym.db2).2
  ∧ ref_integrity (POST (H := longer_idgen) 9 (inr Gym.pull_day) Gym.db2).2
  ∧ ref_integrity (PATCH 9 "w1" Gym.db2).2
  ∧ ref_integrity (DELETE true "w1" Gym.db2).2
  ∧ ref_integrity (POST_complete (H := longer_idgen) 9 "w1" (inr Gym.done_in_40) Gym.db2).2.
Proof.
  assert (ref_integrity Gym.db2) as Hri by (apply ref_integrity_check_sound; by vm_compute).
  split; [done|].
  by apply (handlers_keep_ref_integrity (H := longer_idgen)).
Defined.

(** ** [DELETE /api/workouts/[id]] *)

(** X7 — deleting an existing workout (one without completions, or under a
    cascading schema) removes the workout with all its exercises and
    completions and nothing else: the other workouts, and the exercises and
    completions of other workouts, stay as they were, and a [GET] of the
    deleted id answers 404 afterwards. *)
Theorem DELETE_removes_workout_and_its_rows cascade id db :
  is_Some (workouts db !! id) →
  cascade = true ∨ completions_of id db = [] →
  workouts (DELETE cascade id db).2 = delete id (workouts db)
  ∧ exercises_of id (DELETE cascade id db).2 = []
  ∧ completions_of id (DELETE cascade id db).2 = []
  ∧ (∀ eid e, e_workoutId e ≠ id →
       exercises (DELETE cascade id db).2 !! eid = Some e ↔ exercises db !! eid = Some e)
  ∧ (∀ cid c, c_workoutId c ≠ id →
       completions (DELETE cascade id db).2 !! cid = Some c ↔ completions db !! cid = Some c)
  ∧ status (GET id (DELETE cascade id db).2).1 = HTTP_STATUS.NOT_FOUND.
Proof.
  intros [w Hw] Hc. unfold DELETE, workout_delete. rewrite Hw.
  assert (negb cascade && bool_decide (completions_of id db ≠ []) = false) as ->.
  { destruct Hc as [-> | ->]; [done|]. rewrite bool_decide_eq_false_2 by tauto.
    by destruct cascade. }
  change (json_response _ HTTP_STATUS.NO_CONTENT) with (@inl Exn Response OtherError).
  cbn [fst snd workouts exercises completions]. split_and!.
  - done.
  - apply elem_of_nil_inv. intros [eid e] [Hl Hid]%elem_of_exercises_of.
    cbn in Hl. by apply map_lookup_filter_Some in Hl as [_ Hne].
  - apply elem_of_nil_inv. intros [cid c]. unfold completions_of.
    rewrite elem_of_map_to_list. cbn.
    intros [[_ Hne]%map_lookup_filter_Some Hid]%map_lookup_filter_Some. done.
  - intros eid e Hne. rewrite map_lookup_filter_Some. cbn. tauto.
  - intros cid c Hne. rewrite map_lookup_filter_Some. cbn. tauto.
  - unfold GET. cbn. by rewrite lookup_delete_eq.
Qed.

Lemma DELETE_removes_workout_and_its_rows_witness :
  workouts (DELETE true "w1" Gym.db2).2 = delete "w1" (workouts Gym.db2)
  ∧ exercises_of "w1" (DELETE true "w1" Gym.db2).2 = []
  ∧ completions_of "w1" (DELETE true "w1" Gym.db2).2 = []
  ∧ (∀ eid e, e_workoutId e ≠ "w1" →
       exercises (DELETE true "w1" Gym.db2).2 !! eid = Some e
       ↔ exercises Gym.db2 !! eid = Some e)
  ∧ (∀ cid c, c_workoutId c ≠ "w1" →
       completions (DELETE true "w1" Gym.db2).2 !! cid = Some c
       ↔ completions Gym.db2 !! cid = Some c)
  ∧ status (GET "w1" (DELETE true "w1" Gym.db2).2).1 = HTTP_STATUS.NOT_FOUND.
Proof.
  apply (DELETE_removes_workout_and_its_rows true "w1" Gym.db2); [|by left].
  exists Examples.leg_day. by vm_compute.
Defined.

(** ** [POST /api/workouts] *)

Lemma exercises_of_insert_fresh wid db i e :
  exercises db !! i = None → e_workoutId e = wid →
  exercises_of wid (set_exercises <[i := e]> db) ≡ₚ (i, e) :: exercises_of wid db.
Proof.
  intros Hi He. unfold exercises_of. cbn.
  rewrite map_filter_insert_True by done.
  apply map_to_list_insert, map_lookup_filter_None. by left.
Qed.

Lemma exercise_data_of_createMany_row wid i c :
  exercise_data_of_response (exerciseResponse (i, new_row (createMany_row wid c))) = c.
Proof. by destruct c as [name [reps|] [sets|] [duration|] [notes|] order]. Qed.

(** Two entries with the same key of a list strictly sorted by that key are
    the same entry. *)
Lemma strictly_sorted_key_inj {A} (key : A → Z) (l : list A) x y :
  StronglySorted (λ a b, key a < key b)%Z l → x ∈ l → y ∈ l → key x = key y → x = y.
Proof.
  induction 1 as [|a l Hl IH Ha]; [by intros ?%elem_of_nil|].
  rewrite Forall_forall in Ha.
  intros [->|Hx]%elem_of_cons [->|Hy]%elem_of_cons Hk; [done| | |by apply IH].
  - specialize (Ha y Hy). lia.
  - specialize (Ha x Hx). lia.
Qed.

Section post.
Context `{IdGen}.

Lemma exercise_createMany_spec wid data db :
  is_Some (workouts db !! wid) →
  Forall (λ d, cd_workoutId d = wid) data →
  ∃ db', exercise_createMany data db = (inr (), db')
         ∧ workouts db' = workouts db
         ∧ completions db' = completions db
         ∧ exercises db ⊆ exercises db'
         ∧ (exercises_of wid db').*2 ≡ₚ (new_row <$> data) ++ (exercises_of wid db).*2.
Proof.
  intros Hw Hall. revert db Hw.
  induction Hall as [|d data Hd Hall IH]; intros db Hw.
  { exists db. by split_and!. }
  cbn [exercise_createMany].
  pose (db1 := set_exercises <[cuid (dom (exercises db)) := new_row d]> db).
  assert (exercise_create d db = (inr (cuid (dom (exercises db)), new_row d), db1)) as Hrun.
  { unfold exercise_create. rewrite Hd. by destruct Hw as [w ->]. }
  destruct (IH db1) as (db' & Hrest & Hws & Hcs & Hsub & Hperm); [done|].
  exists db'. rewrite (bind_inr _ _ _ _ _ Hrun). split_and!; [done..| |].
  - etrans; [|exact Hsub]. cbn. apply insert_subseteq, cuid_lookup.
  - rewrite Hperm. unfold db1.
    rewrite (exercises_of_insert_fresh wid db _ (new_row d)) by (by apply cuid_lookup || done).
    cbn. by rewrite Permutation_middle.
Qed.

(** What [POST] does on a typed request, read off its callback: it commits
    one new workout under a fresh id with the rows of the request, and
    answers with the workout as read back. *)
Lemma POST_created now validatedData db :
  ref_integrity db →
  ∃ db',
    let wid := cuid (dom (workouts db)) in
    let w := {| w_name := cr_name validatedData;
                w_description := cr_description validatedData;
                w_category := cr_category validatedData;
                w_isFavorite := false; w_createdAt := now; w_updatedAt := now |} in
    POST now (inr validatedData) db
    = (createSuccessResponse
         (BWorkout (workoutResponse false false (with_includes true wid w db')))
         HTTP_STATUS.CREATED, db')
    ∧ workouts db' = <[wid := w]> (workouts db)
    ∧ completions db' = completions db
    ∧ exercises db ⊆ exercises db'
    ∧ (exercises_of wid db').*2
      ≡ₚ new_row <$> (createMany_row wid <$> cr_exercises validatedData).
Proof.
  intros [Hex Hco]. cbn zeta.
  set (wid := cuid (dom (workouts db))).
  set (w := {| w_name := cr_name validatedData;
               w_description := cr_description validatedData;
               w_category := cr_category validatedData;
               w_isFavorite := false; w_createdAt := now; w_updatedAt := now |}).
  assert (workouts db !! wid = None) as Hfresh by apply not_elem_of_dom, cuid_fresh.
  pose (db1 := set_workouts <[wid := w]> db).
  assert (exercises_of wid db1 = []) as Hnone.
  { apply elem_of_nil_inv. intros [eid e] [Hl Hid]%elem_of_exercises_of. cbn in Hl, Hid.
    apply Hex in Hl as [w0 Hw0]. congruence. }
  destruct (exercise_createMany_spec wid (createMany_row wid <$> cr_exercises validatedData) db1)
    as (db' & Hrun & Hws & Hcs & Hsub & Hperm).
  { exists w. apply lookup_insert_eq. }
  { apply Forall_fmap, Forall_true. done. }
  rewrite Hnone, app_nil_r in Hperm.
  assert ((if bool_decide (0 < length (cr_exercises validatedData))%nat
           then exercise_createMany (createMany_row wid <$> cr_exercises validatedData)
           else ret ()) db1 = (inr (), db')) as Hstep.
  { destruct (cr_exercises validatedData); [|done]. exact Hrun. }
  exists db'. split_and!; [|done..].
  unfold POST, transaction, POST_callback.
  assert (workout_create now (cr_name validatedData) (cr_description validatedData)
            (cr_category validatedData) db = (inr (wid, w), db1)) as Hcreate by done.
  rewrite (bind_inr _ _ _ _ _ Hcreate). cbn [fst].
  rewrite (bind_inr _ _ _ _ _ Hstep). unfold workout_findUnique.
  rewrite Hws. cbn [workouts db1 set_workouts]. by rewrite lookup_insert_eq.
Qed.

(** X8 — on a store with referential integrity, a typed creation request
    (every [order], [reps] and [sets] an integer) is answered 201, and the
    answer describes exactly what was asked for: a workout under an id that
    was not in use, not a favourite, created and updated at the instant of
    the call, never completed, with as many exercises as the request lists
    and the same exercise data, up to their order; the rows that existed
    are untouched. *)
Theorem POST_creates_what_was_asked now validatedData db :
  ref_integrity db →
  ∃ w,
    (POST now (inr validatedData) db).1
      = createSuccessResponse (BWorkout w) HTTP_STATUS.CREATED
    ∧ workouts db !! wr_id w = None
    ∧ is_Some (workouts (POST now (inr validatedData) db).2 !! wr_id w)
    ∧ wr_name w = cr_name validatedData
    ∧ wr_description w = cr_description validatedData
    ∧ wr_category w = cr_category validatedData
    ∧ wr_isFavorite w = false
    ∧ wr_createdAt w = now ∧ wr_updatedAt w = now
    ∧ wr_exerciseCount w = length (cr_exercises validatedData)
    ∧ wr_completionCount w = 0%nat
    ∧ wr_lastCompleted w = None
    ∧ exercise_data_of_response <$> wr_exercises w ≡ₚ cr_exercises validatedData
    ∧ workouts db ⊆ workouts (POST now (inr validatedData) db).2
    ∧ exercises db ⊆ exercises (POST now (inr validatedData) db).2
    ∧ completions (POST now (inr validatedData) db).2 = completions db.
Proof.
  intros Hri. destruct (POST_created now validatedData db Hri)
    as (db' & -> & Hws & Hcs & Hsub & Hperm).
  assert (workouts db !! cuid (dom (workouts db)) = None) as Hfresh
    by apply not_elem_of_dom, cuid_fresh.
  eexists. split; [reflexivity|]. cbn.
  split_and!; try done.
  - rewrite Hws. rewrite lookup_insert_eq. by eexists.
  - rewrite <- (length_fmap snd), Hperm. by rewrite !length_fmap.
  - enough (completions_of (cuid (dom (workouts db))) db' = []) as -> by done.
    apply elem_of_nil_inv. intros [cid c]. unfold completions_of.
    rewrite elem_of_map_to_list, Hcs. intros [Hl Hid]%map_lookup_filter_Some. cbn in Hid.
    destruct Hri as [_ Hco]. apply Hco in Hl as [w0 Hw0]. congruence.
  - rewrite <- list_fmap_compose, (merge_sort_Permutation order_asc).
    rewrite (list_fmap_ext _
               ((λ e, exercise_data_of_response (exerciseResponse ("", e))) ∘ snd))
      by (by intros i [eid e]).
    rewrite list_fmap_compose, Hperm, <- !list_fmap_compose.
    rewrite (list_fmap_ext _ id); [by rewrite list_fmap_id|].
    intros i c _. apply (exercise_data_of_createMany_row _ "").
  - rewrite Hws. by apply insert_subseteq.
Qed.

End post.

Lemma POST_creates_what_was_asked_witness :
  ref_integrity Gym.db2
  ∧ ∃ w, (POST (H := longer_idgen) 9 (inr Gym.pull_day) Gym.db2).1
           = createSuccessResponse (BWorkout w) HTTP_STATUS.CREATED
         ∧ wr_name w = "Pull Day" ∧ wr_exerciseCount w = 2%nat
         ∧ wr_completionCount w = 0%nat.
Proof.
  assert (ref_integrity Gym.db2) as Hri by (apply ref_integrity_check_sound; by vm_compute).
  split; [done|].
  destruct (POST_creates_what_was_asked (H := longer_idgen) 9 Gym.pull_day Gym.db2 Hri)
    as (w & Hr & _ & _ & Hname & _ & _ & _ & _ & _ & Hcount & Hcompl & _).
  exists w. by split_and!.
Defined.

Section post_order.
Context `{IdGen}.

(** X9 — on a store with referential integrity, when the exercises of a
    typed creation request come with strictly increasing integer [order]
    values (as the form sends them, numbered by position), the 201 answer
    lists exactly the exercise data of the request, in the order of the
    request. *)
Theorem POST_answers_in_request_order now validatedData db :
  ref_integrity db →
  StronglySorted (λ a b, ce_order a < ce_order b)%Z (cr_exercises validatedData) →
  ∃ w,
    (POST now (inr validatedData) db).1
      = createSuccessResponse (BWorkout w) HTTP_STATUS.CREATED
    ∧ exercise_data_of_response <$> wr_exercises w = cr_exercises validatedData.
Proof.
  intros Hri Hsorted. destruct (POST_created now validatedData db Hri)
    as (db' & -> & Hws & Hcs & Hsub & Hperm).
  eexists. split; [reflexivity|]. cbn.
  set (wid := cuid (dom (workouts db))) in *.
  assert (exercise_data_of_response <$> (exerciseResponse <$>
            merge_sort order_asc (exercises_of wid db')) ≡ₚ cr_exercises validatedData)
    as Hp.
  { rewrite <- list_fmap_compose, (merge_sort_Permutation order_asc).
    rewrite (list_fmap_ext _
               ((λ e, exercise_data_of_response (exerciseResponse ("", e))) ∘ snd))
      by (by intros i [eid e]).
    rewrite list_fmap_compose, Hperm, <- !list_fmap_compose.
    rewrite (list_fmap_ext _ id); [by rewrite list_fmap_id|].
    intros i c _. apply (exercise_data_of_createMany_row _ ""). }
  apply (StronglySorted_unique_strong (λ a b, ce_order a ≤ ce_order b)%Z); [| | |done].
  - intros x1 x2 Hx1 Hx2 H12 H21. rewrite Hp in Hx1.
    eapply (strictly_sorted_key_inj ce_order); [done..|lia].
  - rewrite <- list_fmap_compose.
    eapply StronglySorted_fmap with (R1 := order_asc);
      [|apply (StronglySorted_merge_sort order_asc)].
    by intros x y Hxy.
  - clear Hp Hperm. induction Hsorted as [|c l Hl IH Hc]; constructor; [done|].
    eapply Forall_impl; [done|]. intros y Hy. cbn in Hy. lia.
Qed.

End post_order.

Lemma POST_answers_in_request_order_witness :
  ∃ w, (POST (H := longer_idgen) 9 (inr Gym.pull_day) Gym.db2).1
         = createSuccessResponse (BWorkout w) HTTP_STATUS.CREATED
       ∧ exercise_data_of_response <$> wr_exercises w = cr_exercises Gym.pull_day.
Proof.
  apply (POST_answers_in_request_order (H := longer_idgen)).
  - apply ref_integrity_check_sound. by vm_compute.
  - repeat constructor.
Defined.

(** ** [POST /api/workouts/[id]/complete] *)

(** The head of a list sorted by descending [completedAt] is a latest entry. *)
Lemma head_completedAt_desc l h :
  head (merge_sort completedAt_desc l) = Some h →
  h ∈ l ∧ ∀ x, x ∈ l → (c_completedAt x.2 ≤ c_completedAt h.2)%Z.
Proof.
  intros Hh.
  assert (Transitive completedAt_desc) as Htrans.
  { intros x y z. unfold completedAt_desc. lia. }
  assert (Total completedAt_desc) as Htotal.
  { intros x y. unfold completedAt_desc. lia. }
  pose proof (StronglySorted_merge_sort completedAt_desc l) as Hs.
  pose proof (merge_sort_Permutation completedAt_desc l) as Hp.
  destruct (merge_sort completedAt_desc l) as [|h' t]; [done|]. injection Hh as ->.
  split; [rewrite <- Hp; by left|].
  intros x Hx. rewrite <- Hp in Hx. apply elem_of_cons in Hx as [-> | Hx]; [done|].
  apply StronglySorted_inv in Hs as [_ Hall]. rewrite Forall_forall in Hall.
  by apply Hall.
Qed.

Section complete_facts.
Context `{IdGen}.

(** X10 — completing an existing workout is answered 201 with the notes and
    duration of the request and the instant of the call, and shows in the
    next [GET] of the workout: its completion count is one higher, its
    exercises are as before, and, when no earlier completion of the workout
    is dated later than the call, [lastCompleted] is the instant of the
    call. *)
Theorem POST_complete_shows_in_GET now id validatedData db w :
  workouts db !! id = Some w →
  (∀ cid c, completions db !! cid = Some c → c_workoutId c = id →
            (c_completedAt c ≤ now)%Z) →
  ∃ cid before after,
    (POST_complete now id (inr validatedData) db).1
      = createSuccessResponse
          (BCompletion "Workout completed successfully"
             {| wc_id := cid; wc_completedAt := now;
                wc_notes := cw_notes validatedData;
                wc_duration := cw_duration validatedData |})
          HTTP_STATUS.CREATED
    ∧ completions db !! cid = None
    ∧ response_workout (GET id db).1 = Some before
    ∧ response_workout (GET id (POST_complete now id (inr validatedData) db).2).1
      = Some after
    ∧ wr_completionCount after = S (wr_completionCount before)
    ∧ wr_lastCompleted after = Some now
    ∧ wr_exercises after = wr_exercises before.
Proof.
  intros Hw Hlatest.
  set (cid := cuid (dom (completions db))).
  set (c := {| c_workoutId := id; c_completedAt := now;
               c_notes := cw_notes validatedData; c_duration := cw_duration validatedData |}).
  assert (completions db !! cid = None) as Hfresh by apply not_elem_of_dom, cuid_fresh.
  assert (POST_complete now id (inr validatedData) db
          = (createSuccessResponse
               (BCompletion "Workout completed successfully" (completionResponse (cid, c)))
               HTTP_STATUS.CREATED, set_completions <[cid := c]> db)) as ->.
  { unfold POST_complete, completion_create. by rewrite Hw. }
  assert (completions_of id (set_completions <[cid := c]> db)
          ≡ₚ (cid, c) :: completions_of id db) as Hperm.
  { unfold completions_of. cbn. rewrite map_filter_insert_True by done.
    apply map_to_list_insert, map_lookup_filter_None. by left. }
  exists cid. unfold GET. cbn [fst snd workouts set_completions]. rewrite Hw.
  eexists _, _. split_and!; [done..| | |done]; cbn.
  - by rewrite Hperm.
  - destruct (head (merge_sort completedAt_desc
                      (completions_of id (set_completions <[cid := c]> db))))
      as [h|] eqn:Hh.
    + apply head_completedAt_desc in Hh as [Hin Hmax]. cbn. f_equal.
      assert (now ≤ c_completedAt h.2)%Z as Hle.
      { apply (Hmax (cid, c)). rewrite Hperm. by left. }
      rewrite Hperm in Hin. apply elem_of_cons in Hin as [-> | Hin]; [done|].
      destruct h as [hid hc]. unfold completions_of in Hin.
      apply elem_of_map_to_list, map_lookup_filter_Some in Hin as [Hl Hid].
      specialize (Hlatest hid hc Hl Hid). cbn in *. lia.
    + assert (merge_sort completedAt_desc
                (completions_of id (set_completions <[cid := c]> db))
              ≡ₚ (cid, c) :: completions_of id db) as Hp
        by (etrans; [apply merge_sort_Permutation|exact Hperm]).
      apply Permutation_length in Hp.
      destruct (merge_sort completedAt_desc _); [done|done].
Qed.

End complete_facts.

Lemma POST_complete_shows_in_GET_witness :
  ∃ cid before after,
    (POST_complete (H := longer_idgen) 9 "w1" (inr Gym.done_in_40) Gym.db2).1
      = createSuccessResponse
          (BCompletion "Workout completed successfully"
             {| wc_id := cid; wc_completedAt := 9;
                wc_notes := Some "felt good"; wc_duration := Some 40 |})
          HTTP_STATUS.CREATED
    ∧ completions Gym.db2 !! cid = None
    ∧ response_workout (GET "w1" Gym.db2).1 = Some before
    ∧ response_workout
        (GET "w1" (POST_complete (H := longer_idgen) 9 "w1" (inr Gym.done_in_40) Gym.db2).2).1
      = Some after
    ∧ wr_completionCount after = S (wr_completionCount before)
    ∧ wr_lastCompleted after = Some 9
    ∧ wr_exercises after = wr_exercises before.
Proof.
  apply (POST_complete_shows_in_GET (H := longer_idgen) 9 "w1" Gym.done_in_40 Gym.db2
           Examples.leg_day); [by vm_compute|].
  intros cid c Hl _. apply elem_of_map_to_list in Hl. vm_compute in Hl.
  apply list_elem_of_singleton in Hl. injection Hl as _ ->. by vm_compute.
Defined.

(** ** [GET /api/workouts] *)

Lemma StronglySorted_sublist {A} (R : relation A) l1 l2 :
  l1 `sublist_of` l2 → StronglySorted R l2 → StronglySorted R l1.
Proof.
  induction 1 as [|x l1 l2 Hsub IH|x l1 l2 Hsub IH]; intros Hs; [done| |].
  - apply StronglySorted_inv in Hs as [Hs Hall]. constructor; [by apply IH|].
    rewrite Forall_forall in Hall |- *. intros y Hy. apply Hall.
    by eapply elem_of_sublist.
  - apply StronglySorted_inv in Hs as [Hs _]. by apply IH.
Qed.

Global Instance favorites_first_trans : Transitive favorites_first.
Proof.
  intros x y z. unfold favorites_first.
  destruct (w_isFavorite x.2), (w_isFavorite y.2), (w_isFavorite z.2); try done; lia.
Qed.

Global Instance favorites_first_total : Total favorites_first.
Proof.
  intros x y. unfold favorites_first.
  destruct (w_isFavorite x.2), (w_isFavorite y.2); try lia; tauto.
Qed.

(** X11 — whatever the store's string filters match and whatever page it
    cuts out of the ordered rows, the list answer of [GET /api/workouts]
    shows favourites before non-favourites and, within each group, later
    [updatedAt] first; it lists no workout twice, only workouts of the
    store that satisfy the [where] clause built from the query (with the
    store's own filters deciding category and search), and never more of
    them than the [total] it reports. *)
Theorem GET_list_page store window q db data pagination :
  (∀ skip take rows page, window skip take rows = inr page → page `sublist_of` rows) →
  response_list (GET_list store window q db).1 = Some (data, pagination) →
  StronglySorted favorites_first_response data
  ∧ NoDup (wr_id <$> data)
  ∧ Forall (λ w, ∃ row, workouts db !! wr_id w = Some row
                        ∧ where_clause store q row = true) data
  ∧ (length data ≤ pg_total pagination)%nat.
Proof.
  intros Hwindow. unfold GET_list. cbn zeta.
  set (matching := filter (λ kv, where_clause store q kv.2 = true) (map_to_list (workouts db))).
  destruct (window _ _ _) as [error|page] eqn:Hpage.
  { unfold response_list, handleApiError, handlePrismaError. cbn.
    destruct error as [m d|code|]; cbn; [done| |done].
    destruct (String.prefix "P" code); [|done]. by repeat case_decide. }
  apply Hwindow in Hpage. intros [= <- <-].
  split_and!.
  - eapply StronglySorted_fmap with (R1 := favorites_first);
      [|eapply StronglySorted_sublist; [done|apply (StronglySorted_merge_sort favorites_first)]].
    by intros x y Hxy.
  - rewrite <- list_fmap_compose.
    rewrite (list_fmap_ext _ fst) by done.
    apply (sublist_NoDup _ ((merge_sort favorites_first matching).*1));
      [|by apply fmap_sublist].
    rewrite (merge_sort_Permutation favorites_first).
    apply (sublist_NoDup _ ((map_to_list (workouts db)).*1));
      [|apply fmap_sublist, sublist_filter].
    apply NoDup_fst_map_to_list.
  - rewrite Forall_fmap, Forall_forall. intros [id row] Hin. cbn.
    eapply elem_of_sublist in Hin; [|done].
    rewrite (merge_sort_Permutation favorites_first) in Hin.
    apply list_elem_of_filter in Hin as [Hmatch Hin]. apply elem_of_map_to_list in Hin.
    by exists row.
  - cbn. rewrite length_fmap.
    apply sublist_length in Hpage. by rewrite (merge_sort_Permutation favorites_first) in Hpage.
Qed.

Lemma GET_list_page_witness :
  ∃ data pagination,
    response_list (GET_list Gym.letter_by_letter Gym.window Gym.strength_page Gym.db2).1
      = Some (data, pagination)
    ∧ length data = 2%nat
    ∧ StronglySorted favorites_first_response data
    ∧ NoDup (wr_id <$> data)
    ∧ Forall (λ w, ∃ row, workouts Gym.db2 !! wr_id w = Some row
                          ∧ where_clause Gym.letter_by_letter Gym.strength_page row = true)
         data
    ∧ (length data ≤ pg_total pagination)%nat.
Proof.
  eexists _, _. split; [by vm_compute|]. split; [done|].
  apply (GET_list_page Gym.letter_by_letter Gym.window Gym.strength_page Gym.db2);
    [|by vm_compute].
  intros skip take rows page. unfold Gym.window. case_bool_decide; [done|].
  intros [= <-]. etrans; [apply sublist_take|apply sublist_drop].
Defined.

(** ** [sanitizeString] *)

Lemma sanitize_go_single_spaced s pending :
  single_spaced true (sanitize_go true pending s) = true.
Proof.
  revert pending. induction s as [|c s IH]; intros pending; [done|]. cbn.
  destruct (is_space c) eqn:Hc; [done|].
  destruct pending; cbn; rewrite Hc; apply IH.
Qed.

Lemma sanitize_go_fixed s :
  (single_spaced true s = true → sanitize_go true false s = s)
  ∧ (single_spaced false s = true →
     (∀ pending, sanitize_go false pending s = s)
     ∧ sanitize_go true true s = String " "%char s).
Proof.
  induction s as [|c s [IH1 IH2]]; [done|]. cbn.
  destruct (is_space c) eqn:Hc.
  - split; [|done]. rewrite andb_true_iff, bool_decide_eq_true.
    intros [-> Hs]. by apply IH2.
  - split.
    + intros Hs. by rewrite IH1.
    + intros Hs. split; [intros pending|]; by rewrite IH1.
Qed.

Lemma non_spaces_sanitize_go started pending s :
  non_spaces (sanitize_go started pending s) = non_spaces s.
Proof.
  revert started pending. induction s as [|c s IH]; intros started pending; [done|]. cbn.
  destruct (is_space c) eqn:Hc; [done|].
  destruct (started && pending); cbn; rewrite Hc, IH; done.
Qed.

(** X12 — [sanitizeString] brings a text to a normal form and changes
    nothing else: its result never starts or ends with white space and has
    single blanks as its only white space; the characters that are not
    white space are those of the input, in their order; a text already in
    that form is returned as it is, so sanitizing twice is sanitizing once;
    and the result is never longer than the input. *)
Theorem sanitizeString_normal_form input :
  normalized (sanitizeString input)
  ∧ non_spaces (sanitizeString input) = non_spaces input
  ∧ (normalized input → sanitizeString input = input)
  ∧ sanitizeString (sanitizeString input) = sanitizeString input
  ∧ (String.length (sanitizeString input) ≤ String.length input)%nat.
Proof.
  assert (∀ pending, normalized (sanitize_go false pending input)) as Hnormal.
  { unfold normalized. induction input as [|c s IH]; intros pending; [by left|]. cbn.
    destruct (is_space c) eqn:Hc; [apply IH|].
    right. cbn. rewrite Hc. apply sanitize_go_single_spaced. }
  specialize (Hnormal false). fold (sanitizeString input) in Hnormal.
  assert (∀ s, normalized s → sanitizeString s = s) as Hfixed.
  { intros s [-> | Hs]; [done|]. by apply sanitize_go_fixed. }
  split_and!; [done|apply non_spaces_sanitize_go|apply Hfixed|by apply Hfixed|].
  unfold sanitizeString.
  enough (∀ s started pending,
            String.length (sanitize_go started pending s)
            ≤ String.length s + (if started && pending then 1 else 0))%nat as Hlen.
  { specialize (Hlen input false false). cbn in Hlen. lia. }
  induction s as [|c s IH]; intros started pending; cbn; [lia|].
  destruct (is_space c).
  - specialize (IH started true). destruct (started && pending), (started && true); lia.
  - specialize (IH true false). cbn in IH. destruct (started && pending); cbn; lia.
Qed.

(** ** The validators *)

Lemma lookup_field_absent key fields : key ∉ fields.*1 → lookup_field key fields = VUndefined.
Proof.
  induction fields as [|[k v] fields IH]; [done|]. cbn.
  rewrite not_elem_of_cons. intros [Hne Hnin]. rewrite (IH Hnin). by rewrite decide_False.
Qed.

Lemma map_throwing_inr f index items outs :
  map_throwing f index items = inr outs →
  length outs = length items
  ∧ ∀ i item, items !! i = Some item →
      ∃ out, outs !! i = Some out ∧ f (index + i)%nat item = inr out.
Proof.
  revert index outs. induction items as [|item items IH]; intros index outs; cbn.
  - intros [= <-]. split; [done|]. by intros i item ?.
  - destruct (f index item) as [e|v] eqn:Hf; [done|].
    destruct (map_throwing f (S index) items) as [e|vs] eqn:Hrest; [done|].
    intros [= <-]. destruct (IH _ _ Hrest) as [Hlen Hall]. split; [cbn; by rewrite Hlen|].
    intros [|i] it Hit; cbn in *.
    + injection Hit as <-. exists v. by rewrite Nat.add_0_r.
    + destruct (Hall i it Hit) as (out & ? & Hout). exists out.
      by rewrite Nat.add_succ_r.
Qed.

(** What the required-text check lets through. *)
Lemma required_text_ok v fieldName (m M : Z) :
  (1 ≤ m)%Z →
  or_else (validateRequired v fieldName) (validateString v fieldName (Some m) (Some M)) = None
  ↔ ∃ s, v = VStr s ∧ (m ≤ Z.of_nat (String.length s) ≤ M)%Z.
Proof.
  intros Hm. split.
  - destruct v as [| | | |s| |]; try done. intros Hok. exists s. split; [done|].
    destruct s as [|c s]; [done|]. cbn [validateRequired or_else validateString] in Hok.
    repeat case_bool_decide; try done. lia.
  - intros (s & -> & Hlen). destruct s as [|c s]; [cbn in Hlen; lia|].
    cbn [validateRequired or_else validateString].
    rewrite !bool_decide_eq_false_2; [done|lia..].
Qed.

Lemma optional_text_ok v fieldName (m M : Z) :
  validateString v fieldName (Some m) (Some M) = None
  ↔ ∃ s, v = VStr s ∧ (m ≤ Z.of_nat (String.length s) ≤ M)%Z.
Proof.
  split.
  - destruct v as [| | | |s| |]; try done. cbn [validateString]. intros Hok.
    exists s. split; [done|]. repeat case_bool_decide; try done. lia.
  - intros (s & -> & Hlen). cbn [validateString].
    rewrite !bool_decide_eq_false_2; [done|lia..].
Qed.

Lemma opt_to_list_nil o : opt_to_list o = [] ↔ o = None.
Proof. by destruct o. Qed.

Ltac read_literal :=
  cbn [get lookup_field sanitized lowered];
  repeat (first [rewrite decide_False by done | rewrite decide_True by done];
          cbn [get lookup_field sanitized lowered]).

Section create_validator.
Variable Number : value → number.
Variable parseInt : value → number.

Lemma errors_nil (errors : list string) :
  bool_decide (0 < length errors)%nat = false ↔ errors = [].
Proof.
  rewrite bool_decide_eq_false. destruct errors; cbn; [split; [done|lia]|].
  split; [lia|done].
Qed.

(** What [validateCreateExercise] hands back when it does not throw. *)
Lemma validateCreateExercise_inr exercise out :
  validateCreateExercise Number parseInt exercise = inr out →
  is_nullish exercise = false
  ∧ createExercise_errors Number exercise = []
  ∧ out = VObj
      [ ("name", sanitized (get exercise "name"));
        ("reps", if truthy_value (get exercise "reps")
                 then VNum (parseInt (get exercise "reps")) else VUndefined);
        ("sets", if truthy_value (get exercise "sets")
                 then VNum (parseInt (get exercise "sets")) else VUndefined);
        ("duration", if truthy_value (get exercise "duration")
                     then sanitized (get exercise "duration") else VUndefined);
        ("notes", if truthy_value (get exercise "notes")
                  then sanitized (get exercise "notes") else VUndefined);
        ("order", VNum (parseInt (get exercise "order"))) ].
Proof.
  unfold validateCreateExercise. destruct (is_nullish exercise); [done|].
  destruct (bool_decide _) eqn:Herr; [done|]. apply errors_nil in Herr.
  by intros [= <-].
Qed.

(** X13 — what a creation payload that passes [validateCreateWorkout] looks
    like, and what comes out: the name is a text of 1 to 100 characters and
    comes out sanitized; the category is a text that is, in lower case, one
    of the five categories, and comes out in lower case; a description that
    is absent, null or empty comes out absent, any other is a text of at most
    500 characters and comes out sanitized; and the exercises are a
    non-empty array, which comes out with the same number of entries. *)
Theorem validateCreateWorkout_accepted data result :
  validateCreateWorkout Number parseInt data = inr result →
  ∃ name category items outs,
    get data "name" = VStr name
    ∧ (1 ≤ String.length name ≤ 100)%nat
    ∧ get result "name" = VStr (sanitizeString name)
    ∧ get data "category" = VStr category
    ∧ toLowerCase category ∈ validCategories
    ∧ get result "category" = VStr (toLowerCase category)
    ∧ match get data "description" with
      | VUndefined | VNull | VStr "" => get result "description" = VUndefined
      | VStr description =>
          (String.length description ≤ 500)%nat
          ∧ get result "description" = VStr (sanitizeString description)
      | _ => False
      end
    ∧ get data "exercises" = VArr items
    ∧ items ≠ []
    ∧ get result "exercises" = VArr outs
    ∧ length outs = length items.
Proof.
  unfold validateCreateWorkout. destruct (is_nullish data); [done|].
  destruct (bool_decide _) eqn:Herr; [done|]. apply errors_nil in Herr.
  destruct (map_throwing _ _ _) as [e|outs] eqn:Hmap; [done|]. intros [= <-].
  unfold createWorkout_errors in Herr.
  apply app_eq_nil in Herr as [Hname Herr]. apply app_eq_nil in Herr as [Hdesc Herr].
  apply app_eq_nil in Herr as [Hcat Hexs].
  apply opt_to_list_nil, required_text_ok in Hname as (name & Hname & Hlen); [|lia].
  assert (∃ category, get data "category" = VStr category
                      ∧ toLowerCase category ∈ validCategories) as (category & Hc & Hvalid).
  { apply opt_to_list_nil in Hcat.
    destruct (get data "category") as [| | | |c| |]; try done. exists c. split; [done|].
    destruct c; [done|]. cbn [validateRequired validateString or_else] in Hcat.
    unfold validateWorkoutCategory in Hcat.
    destruct (bool_decide (toLowerCase (String a c) ∈ validCategories)) eqn:Hb; [|done].
    by apply bool_decide_eq_true in Hb. }
  assert (∃ items, get data "exercises" = VArr items ∧ items ≠ []) as (items & Hitems & Hne).
  { destruct (get data "exercises") as [| | | |s|items|]; try done; [by destruct s|].
    exists items. split; [done|]. intros ->. done. }
  exists name, category, items, outs. rewrite Hname, Hc, Hitems in *.
  split_and!; try done; try lia.
  - destruct (get data "description") as [| | | |d| |] eqn:Hd; try done;
      try (by read_literal).
    destruct d as [|c d]; [by read_literal|].
    apply opt_to_list_nil, optional_text_ok in Hdesc as (d' & [= <-] & Hlen').
    split; [lia|]. cbn [truthy_value]. rewrite bool_decide_eq_true_2 by done.
    by read_literal.
  - by apply map_throwing_inr in Hmap as [-> _].
Qed.

(** X14 — in the validated creation request every exercise carries the
    [order] of the payload as it was sent, never the position in the array
    and not the parsed integer either: the spread of the validated exercise
    is overwritten with [exercise.order ?? index], and a payload that gets
    this far has an [order] in every exercise. *)
Theorem validateCreateWorkout_order_as_sent data result items outs index exercise out :
  validateCreateWorkout Number parseInt data = inr result →
  get data "exercises" = VArr items →
  get result "exercises" = VArr outs →
  items !! index = Some exercise →
  outs !! index = Some out →
  get out "order" = get exercise "order"
  ∧ is_nullish (get exercise "order") = false
  ∧ get out "name" = sanitized (get exercise "name").
Proof.
  unfold validateCreateWorkout. destruct (is_nullish data); [done|].
  destruct (bool_decide _) eqn:Herr; [done|].
  destruct (map_throwing _ _ _) as [e|outs'] eqn:Hmap; [done|]. intros [= <-] Hitems.
  rewrite Hitems in Hmap. cbn [items_of] in Hmap. read_literal. intros [= <-] Hitem Hout.
  apply map_throwing_inr in Hmap as [_ Hall].
  destruct (Hall _ _ Hitem) as (out' & Hout' & Hrun). rewrite Hout in Hout'.
  injection Hout' as <-. unfold with_default_order in Hrun.
  destruct (validateCreateExercise Number parseInt exercise) as [e|v] eqn:Hval; [done|].
  apply validateCreateExercise_inr in Hval as (_ & Herrs & ->). injection Hrun as <-.
  assert (is_nullish (get exercise "order") = false) as Horder.
  { unfold createExercise_errors in Herrs.
    apply app_eq_nil in Herrs as [_ Herrs]. apply app_eq_nil in Herrs as [_ Herrs].
    apply opt_to_list_nil in Herrs. by destruct (get exercise "order"). }
  rewrite Horder. split_and!; [|done|].
  - destruct (get exercise "order"); try done; by read_literal.
  - by read_literal.
Qed.

End create_validator.

Lemma validateCreateWorkout_accepted_witness :
  ∃ name category items outs,
    get Gym.sent_payload "name" = VStr name
    ∧ (1 ≤ String.length name ≤ 100)%nat
    ∧ get Gym.validated_payload "name" = VStr (sanitizeString name)
    ∧ get Gym.sent_payload "category" = VStr category
    ∧ toLowerCase category ∈ validCategories
    ∧ get Gym.validated_payload "category" = VStr (toLowerCase category)
    ∧ match get Gym.sent_payload "description" with
      | VUndefined | VNull | VStr "" => get Gym.validated_payload "description" = VUndefined
      | VStr description =>
          (String.length description ≤ 500)%nat
          ∧ get Gym.validated_payload "description" = VStr (sanitizeString description)
      | _ => False
      end
    ∧ get Gym.sent_payload "exercises" = VArr items
    ∧ items ≠ []
    ∧ get Gym.validated_payload "exercises" = VArr outs
    ∧ length outs = length items.
Proof.
  apply (validateCreateWorkout_accepted Examples.example_Number Examples.example_parseInt
           Gym.sent_payload Gym.validated_payload).
  by vm_compute.
Defined.

Lemma validateCreateWorkout_order_as_sent_witness :
  ∃ out,
    items_of (get Gym.validated_payload "exercises") !! 0%nat = Some out
    ∧ get out "order" = VNum (Fin (5 # 2))
    ∧ get out "order" = get Gym.sent_exercise "order"
    ∧ is_nullish (get Gym.sent_exercise "order") = false
    ∧ get out "name" = sanitized (get Gym.sent_exercise "name").
Proof.
  eexists. split; [by vm_compute|]. split; [by vm_compute|].
  apply (validateCreateWorkout_order_as_sent Examples.example_Number Examples.example_parseInt
           Gym.sent_payload Gym.validated_payload [Gym.sent_exercise]
           (items_of (get Gym.validated_payload "exercises")) 0%nat Gym.sent_exercise);
    by vm_compute.
Defined.

Section more_validators.
Variable Number : value → number.
Variable parseInt : value → number.

Lemma exercise_messages_nil validate items :
  (∀ exercise message details,
     exercise ∈ items → validate exercise ≠ inl (ValidationError message details)) →
  exercise_messages validate items = [].
Proof.
  intros Hnone. apply elem_of_nil_inv. intros x. unfold exercise_messages.
  intros (l & Hx & Hl)%list_elem_of_join.
  apply list_elem_of_lookup in Hl as [i Hl]. rewrite list_lookup_imap in Hl.
  destruct (items !! i) as [exercise|] eqn:Hi; [|done]. cbn in Hl. injection Hl as <-.
  apply list_elem_of_lookup_2 in Hi.
  destruct (validate exercise) as [[message details| |]|] eqn:Hv;
    try (by apply elem_of_nil in Hx).
  by eapply Hnone.
Qed.

Lemma validateCreateExercise_nullish exercise :
  is_nullish exercise = true →
  validateCreateExercise Number parseInt exercise = inl OtherError.
Proof. intros Hnull. unfold validateCreateExercise. by rewrite Hnull. Qed.

(** X15 — a creation payload whose only flaw is a [null] (or missing) entry
    in the exercises array is not answered as a validation error: the
    entry's exception is not a [ValidationError], so the loop over the
    exercises records no message for it, and the validator then throws that
    exception from the final mapping, which [handleApiError] turns into a
    500. *)
Theorem validateCreateWorkout_null_entry data name category items :
  get data "name" = VStr name →
  (1 ≤ String.length name ≤ 100)%nat →
  get data "category" = VStr category →
  toLowerCase category ∈ validCategories →
  is_nullish (get data "description") = true →
  get data "exercises" = VArr items →
  (∀ exercise, exercise ∈ items →
     is_nullish exercise = true
     ∨ ∃ out, validateCreateExercise Number parseInt exercise = inr out) →
  (∃ exercise, exercise ∈ items ∧ is_nullish exercise = true) →
  validateCreateWorkout Number parseInt data = inl OtherError
  ∧ status (handleApiError OtherError) = HTTP_STATUS.INTERNAL_SERVER_ERROR.
Proof.
  intros Hname Hlen Hcat Hvalid Hdesc Hitems Hall (bad & Hbad & Hnull).
  split; [|done]. unfold validateCreateWorkout.
  rewrite (get_VArr_readable _ _ _ Hitems).
  assert (createWorkout_errors Number parseInt data = []) as ->.
  { unfold createWorkout_errors. rewrite Hdesc, Hitems.
    assert (or_else (validateRequired (get data "name") "name")
              (validateString (get data "name") "name" (Some 1%Z) (Some 100%Z)) = None)
      as -> by (apply required_text_ok; [lia|]; exists name; split; [done|lia]).
    rewrite Hcat. destruct category as [|c category];
      [exfalso; cbn in Hvalid; unfold validCategories in Hvalid;
       repeat (apply elem_of_cons in Hvalid as [Hvalid|Hvalid]; [discriminate|]);
       by apply elem_of_nil in Hvalid|].
    cbn [validateRequired validateString validateArray or_else opt_to_list items_of app].
    unfold validateWorkoutCategory. rewrite (bool_decide_eq_true_2 _ Hvalid).
    cbn [opt_to_list app]. rewrite bool_decide_eq_false_2.
    - apply exercise_messages_nil. intros exercise message details Hin Hv.
      destruct (Hall exercise Hin) as [Hn | [out Hout]]; [|congruence].
      by rewrite (validateCreateExercise_nullish _ Hn) in Hv.
    - intros Hzero. apply length_zero_iff_nil in Hzero. subst items.
      by apply elem_of_nil in Hbad. }
  cbn [length bool_decide]. rewrite bool_decide_eq_false_2 by (cbn; lia).
  rewrite Hitems. cbn [items_of].
  enough (∀ index, map_throwing (with_default_order Number parseInt) index items
                   = inl OtherError) as -> by done.
  clear Hitems. induction items as [|exercise items IH]; intros index;
    [by apply elem_of_nil in Hbad|].
  cbn [map_throwing]. unfold with_default_order at 1.
  destruct (Hall exercise) as [Hn | [out Hout]]; [by left| |].
  { by rewrite (validateCreateExercise_nullish _ Hn). }
  rewrite Hout. apply elem_of_cons in Hbad as [-> | Hbad].
  { by rewrite (validateCreateExercise_nullish _ Hnull) in Hout. }
  rewrite IH; [by destruct out|intros ex Hex; apply Hall; by right|done].
Qed.

(** X16 — which bodies [validateCompleteWorkout] accepts, and what it hands
    on: a body is accepted exactly when its notes are absent, null or a text
    of at most 1000 characters and its duration is absent, null or a value
    whose number is between 1 and 600; the result carries the sanitized
    notes and the parsed duration, each only when the body has the field
    (null counts as absent). *)
Theorem validateCompleteWorkout_accepts data :
  is_nullish data = false →
  ((∃ result, validateCompleteWorkout Number parseInt data = inr result)
   ↔ (is_nullish (get data "notes") = true
      ∨ ∃ notes, get data "notes" = VStr notes ∧ (String.length notes ≤ 1000)%nat)
     ∧ (is_nullish (get data "duration") = true
        ∨ (isNaN (Number (get data "duration")) = false
           ∧ lt_num (Number (get data "duration")) 1 = false
           ∧ gt_num (Number (get data "duration")) 600 = false)))
  ∧ ∀ result,
      validateCompleteWorkout Number parseInt data = inr result →
      get result "notes"
        = (if is_nullish (get data "notes") then VUndefined
           else sanitized (get data "notes"))
      ∧ get result "duration"
        = (if is_nullish (get data "duration") then VUndefined
           else VNum (parseInt (get data "duration"))).
Proof.
  intros Hread. unfold validateCompleteWorkout. rewrite Hread.
  assert (completeWorkout_errors Number data = []
          ↔ (is_nullish (get data "notes") = true
             ∨ ∃ notes, get data "notes" = VStr notes ∧ (String.length notes ≤ 1000)%nat)
            ∧ (is_nullish (get data "duration") = true
               ∨ (isNaN (Number (get data "duration")) = false
                  ∧ lt_num (Number (get data "duration")) 1 = false
                  ∧ gt_num (Number (get data "duration")) 600 = false))) as Herrors.
  { unfold completeWorkout_errors. rewrite app_nil.
    assert ((if is_nullish (get data "notes") then []
             else opt_to_list (validateString (get data "notes") "notes"
                                 (Some 0%Z) (Some 1000%Z))) = []
            ↔ (is_nullish (get data "notes") = true
               ∨ ∃ notes, get data "notes" = VStr notes
                          ∧ (String.length notes ≤ 1000)%nat)) as ->.
    { destruct (is_nullish (get data "notes")); [by split; [left|]|].
      rewrite opt_to_list_nil, optional_text_ok. split.
      + intros (notes & ? & ?). right. exists notes. split; [done|lia].
      + intros [?|(notes & ? & ?)]; [done|]. exists notes. split; [done|lia]. }
    assert ((if is_nullish (get data "duration") then []
             else opt_to_list (validateNumber Number (get data "duration") "duration"
                                 (Some 1%Z) (Some 600%Z))) = []
            ↔ (is_nullish (get data "duration") = true
               ∨ (isNaN (Number (get data "duration")) = false
                  ∧ lt_num (Number (get data "duration")) 1 = false
                  ∧ gt_num (Number (get data "duration")) 600 = false))) as ->; [|done].
    destruct (is_nullish (get data "duration")); [by split; [left|]|].
    rewrite opt_to_list_nil. unfold validateNumber.
    destruct (isNaN _); [split; [done|by intros [?|[? _]]]|].
    destruct (lt_num _ 1); [split; [done|by intros [?|(_ & ? & _)]]|].
    destruct (gt_num _ 600); [split; [done|by intros [?|(_ & _ & ?)]]|].
    split; [by right|done]. }
  split.
  - rewrite <- Herrors, <- errors_nil.
    destruct (bool_decide _); split; [by intros [? ?]|done|done|by eexists].
  - intros result. destruct (bool_decide _); [done|]. intros [= <-].
    unfold assign_if_present.
    destruct (is_nullish (get data "notes")), (is_nullish (get data "duration"));
      cbn [set]; by read_literal.
Qed.

End more_validators.

Lemma validateCreateWorkout_null_entry_witness :
  validateCreateWorkout Examples.example_Number Examples.example_parseInt
    Gym.payload_with_null = inl OtherError
  ∧ status (handleApiError OtherError) = HTTP_STATUS.INTERNAL_SERVER_ERROR.
Proof.
  apply (validateCreateWorkout_null_entry Examples.example_Number Examples.example_parseInt
           Gym.payload_with_null "Leg Day" "strength" [Gym.sent_exercise; VNull]).
  - reflexivity.
  - cbn. lia.
  - reflexivity.
  - apply (bool_decide_unpack _). by vm_compute.
  - reflexivity.
  - reflexivity.
  - intros exercise [-> | [-> | []%elem_of_nil]%elem_of_cons]%elem_of_cons.
    + right. eexists. by vm_compute.
    + by left.
  - exists VNull. split; [|done]. apply elem_of_cons. right. apply elem_of_cons. by left.
Defined.

Lemma validateCompleteWorkout_accepts_witness :
  ∃ result,
    validateCompleteWorkout Examples.example_Number Examples.example_parseInt
      Gym.completion_payload = inr result
    ∧ get result "notes" = VStr "felt good"
    ∧ get result "duration" = Examples.num 40.
Proof.
  destruct (validateCompleteWorkout_accepts Examples.example_Number Examples.example_parseInt
              Gym.completion_payload) as [Haccepts Hresult]; [reflexivity|].
  destruct (proj2 Haccepts) as [result Hr].
  { split; right.
    - exists " felt   good ". split; [reflexivity|cbn; lia].
    - by vm_compute. }
  exists result. split; [done|].
  destruct (Hresult result Hr) as [-> ->]. by vm_compute.
Defined.

(** ** [calculateStreak] *)

Lemma elem_of_unique seen dates x : x ∈ unique seen dates ↔ x ∈ dates ∧ x ∉ seen.
Proof.
  revert seen. induction dates as [|d dates IH]; intros seen; cbn.
  - rewrite elem_of_nil. tauto.
  - destruct (decide (d ∈ seen)) as [Hin|Hnin].
    + rewrite IH, elem_of_cons. split; [tauto|]. intros [[->|?] ?]; tauto.
    + rewrite !elem_of_cons, IH, elem_of_cons. split.
      * intros [->|[? ?]]; tauto.
      * intros [[->|?] ?]; [tauto|]. destruct (decide (x = d)); tauto.
Qed.

Lemma NoDup_unique seen dates : NoDup (unique seen dates).
Proof.
  revert seen. induction dates as [|d dates IH]; intros seen; cbn; [constructor|].
  destruct (decide (d ∈ seen)); [apply IH|]. constructor; [|apply IH].
  rewrite elem_of_unique, elem_of_cons. tauto.
Qed.

Global Instance descending_trans : Transitive descending.
Proof. intros x y z. unfold descending. lia. Qed.

Global Instance descending_total : Total descending.
Proof. intros x y. unfold descending. lia. Qed.

(** The dates the loop runs over: each day once, the latest first. *)
Lemma uniqueDates_spec dates :
  StronglySorted (λ a b, b < a)%Z (merge_sort descending (unique [] dates))
  ∧ ∀ x, x ∈ merge_sort descending (unique [] dates) ↔ x ∈ dates.
Proof.
  split.
  - pose proof (StronglySorted_merge_sort descending (unique [] dates)) as Hs.
    assert (NoDup (merge_sort descending (unique [] dates))) as Hnd.
    { rewrite (merge_sort_Permutation descending). apply NoDup_unique. }
    induction Hs as [|d l Hs IH Hall]; [constructor|].
    apply NoDup_cons in Hnd as [Hnin Hnd]. constructor; [by apply IH|].
    rewrite Forall_forall in Hall |- *. intros x Hx. specialize (Hall x Hx).
    unfold descending in Hall. assert (x ≠ d) by (by intros ->). lia.
  - intros x. rewrite (merge_sort_Permutation descending), elem_of_unique, elem_of_nil. tauto.
Qed.

(** X17 — a streak that ended yesterday is reported as 1 however long it
    was: when no completion is dated today or later, [calculateStreak] is 1
    if there is a completion dated yesterday and 0 if there is none (the
    loop accepts yesterday at its first step only and goes on expecting the
    dates counted from today). *)
Theorem calculateStreak_without_today startOfDay now completions :
  (∀ completedAt, completedAt ∈ completions →
     (startOfDay completedAt ≤ startOfDay now - DAY)%Z) →
  calculateStreak startOfDay now completions
  = if bool_decide ((startOfDay now - DAY)%Z ∈ startOfDay <$> completions) then 1%nat
    else 0%nat.
Proof.
  intros Hpast. unfold calculateStreak. case_bool_decide as Hlen.
  { apply length_zero_iff_nil in Hlen. subst. by rewrite bool_decide_eq_false_2 by
      (by intros ?%elem_of_nil). }
  cbn zeta. destruct (uniqueDates_spec (startOfDay <$> completions)) as [Hs Hin].
  assert (∀ d, d ∈ merge_sort descending (unique [] (startOfDay <$> completions)) →
               (d ≤ startOfDay now - DAY)%Z) as Hle.
  { intros d (c & -> & Hc)%Hin%list_elem_of_fmap. by apply Hpast. }
  revert Hs Hin Hle.
  generalize (merge_sort descending (unique [] (startOfDay <$> completions))).
  intros [|d rest] Hs Hin Hle.
  { rewrite bool_decide_eq_false_2; [done|]. rewrite <- Hin. by intros ?%elem_of_nil. }
  cbn [streak_from]. pose proof (Hle d ltac:(by left)) as Hd.
  rewrite (bool_decide_eq_false_2 (d = _)) by (unfold DAY in *; lia).
  apply StronglySorted_inv in Hs as [_ Hall]. rewrite Forall_forall in Hall.
  cbn [andb bool_decide decide_rel]. rewrite (bool_decide_eq_true_2 (0 = 0)%nat) by done.
  cbn [andb]. case_bool_decide as Hy.
  - rewrite bool_decide_eq_true_2 by (rewrite <- Hin, Hy; by left). f_equal.
    destruct rest as [|e rest]; [done|]. cbn [streak_from].
    pose proof (Hall e ltac:(by left)) as He.
    rewrite (bool_decide_eq_false_2 (e = _)) by (unfold DAY in *; lia).
    by rewrite (bool_decide_eq_false_2 (1 = 0)%nat) by done.
  - rewrite bool_decide_eq_false_2; [done|]. rewrite <- Hin.
    intros [?|Hrest]%elem_of_cons; [done|]. specialize (Hall _ Hrest). lia.
Qed.

Lemma streak_from_counts todayTime k uniqueDates i :
  StronglySorted (λ a b, b < a)%Z uniqueDates →
  (∀ d, d ∈ uniqueDates → ∃ j : nat, (i ≤ j)%nat ∧ d = (todayTime - Z.of_nat j * DAY)%Z) →
  (∀ j : nat, (i ≤ j < k)%nat → (todayTime - Z.of_nat j * DAY)%Z ∈ uniqueDates) →
  (todayTime - Z.of_nat k * DAY)%Z ∉ uniqueDates →
  (i ≤ k)%nat → (0 < i ∨ i < k)%nat →
  streak_from todayTime i uniqueDates = (k - i)%nat.
Proof.
  intros Hs. revert i. induction Hs as [|d rest Hs IH Hall]; intros i Hgrid Hdays Hend Hik Hi.
  - destruct (decide (i < k)%nat) as [Hlt|Hge]; [|cbn; lia].
    pose proof (Hdays i ltac:(lia)) as Hin. by apply elem_of_nil in Hin.
  - rewrite Forall_forall in Hall. cbn [streak_from].
    destruct (Hgrid d ltac:(by left)) as (j & Hj & Hd).
    destruct (decide (i < k)%nat) as [Hlt|Hge].
    + assert (d = todayTime - Z.of_nat i * DAY)%Z as Hdi.
      { pose proof (Hdays i ltac:(lia)) as [?|Hin]%elem_of_cons; [done|].
        specialize (Hall _ Hin). unfold DAY in *. lia. }
      rewrite bool_decide_eq_true_2 by done. rewrite (IH (S i)); [lia| | | |lia|lia].
      * intros e He. destruct (Hgrid e ltac:(by right)) as (j' & Hj' & ->).
        exists j'. split; [|done]. specialize (Hall _ He). unfold DAY in *. lia.
      * intros j' Hj'. pose proof (Hdays j' ltac:(lia)) as [Heq|Hin]%elem_of_cons; [|done].
        unfold DAY in *. lia.
      * intros Hin. apply Hend. by right.
    + assert (i = k) as -> by lia.
      rewrite bool_decide_eq_false_2 by (intros Heq; apply Hend; rewrite <- Heq; by left).
      rewrite (bool_decide_eq_false_2 (k = 0)%nat) by lia. cbn. lia.
Qed.

(** X18 — with a completion dated today, [calculateStreak] counts the days
    in a row: when every completion is dated on a day a whole number of
    24-hour days before today (no later day, no shifted midnight), the days
    today, yesterday, ... down to [k - 1] days ago each have a completion
    and the day [k] days ago has none, the streak is [k]. *)
Theorem calculateStreak_counts_days startOfDay now completions (k : nat) :
  (∀ completedAt, completedAt ∈ completions →
     ∃ j : nat, startOfDay completedAt = (startOfDay now - Z.of_nat j * DAY)%Z) →
  (∀ j : nat, (j < k)%nat →
     (startOfDay now - Z.of_nat j * DAY)%Z ∈ startOfDay <$> completions) →
  (startOfDay now - Z.of_nat k * DAY)%Z ∉ startOfDay <$> completions →
  (0 < k)%nat →
  calculateStreak startOfDay now completions = k.
Proof.
  intros Hgrid Hdays Hend Hk. unfold calculateStreak.
  rewrite bool_decide_eq_false_2.
  2:{ intros ->%length_zero_iff_nil. pose proof (Hdays 0%nat Hk) as Hin.
      by apply elem_of_nil in Hin. }
  cbn zeta. destruct (uniqueDates_spec (startOfDay <$> completions)) as [Hs Hin].
  rewrite (streak_from_counts _ k); [lia|done| | |by rewrite Hin|lia|lia].
  - intros d (c & -> & Hc)%Hin%list_elem_of_fmap. destruct (Hgrid c Hc) as [j Hj].
    exists j. split; [lia|done].
  - intros j Hj. apply Hin, Hdays. lia.
Qed.

Lemma calculateStreak_without_today_witness :
  calculateStreak Days.utc_midnight (Days.at_day 10 5000) Days.five_days_until_yesterday
  = 1%nat.
Proof.
  rewrite calculateStreak_without_today.
  { rewrite bool_decide_eq_true_2; [done|]. apply list_elem_of_fmap.
    exists (Days.at_day 9 64000000). split; [by vm_compute|by left]. }
  intros completedAt Hin. unfold Days.five_days_until_yesterday in Hin.
  repeat (apply elem_of_cons in Hin as [-> | Hin]; [apply Z.leb_le; by vm_compute|]).
  by apply elem_of_nil in Hin.
Defined.

Lemma calculateStreak_counts_days_witness :
  calculateStreak Days.utc_midnight (Days.at_day 10 5000) Days.three_days_until_today
  = 3%nat.
Proof.
  apply calculateStreak_counts_days; [| |apply (bool_decide_unpack _); by vm_compute|lia].
  - intros completedAt Hin. unfold Days.three_days_until_today in Hin.
    repeat (apply elem_of_cons in Hin as [-> | Hin];
            [first [by exists 0%nat | by exists 1%nat | by exists 2%nat | by exists 4%nat]|]).
    by apply elem_of_nil in Hin.
  - intros j Hj. apply (bool_decide_unpack _).
    destruct j as [|[|[|j]]]; [by vm_compute..|lia].
Defined.

(** ** [checkRateLimit] *)

(** A call that finds a live window of the client. *)
Lemma checkRateLimit_live identifier limit windowMs now requestCounts existing :
  requestCounts !! identifier = Some existing →
  (now ≤ rw_resetTime existing)%Z →
  ∃ requestCounts',
    checkRateLimit identifier limit windowMs now requestCounts
    = ({| allowed := bool_decide (rw_count existing < limit)%Z;
          remaining := if bool_decide (rw_count existing < limit)%Z
                       then limit - (rw_count existing + 1) else 0;
          resetTime := rw_resetTime existing |}, requestCounts')
    ∧ requestCounts' !! identifier
      = Some {| rw_count := if bool_decide (rw_count existing < limit)%Z
                            then rw_count existing + 1 else rw_count existing;
                rw_resetTime := rw_resetTime existing |}.
Proof.
  intros Hl Hlive. unfold checkRateLimit. cbn zeta.
  assert (filter (λ kv, ¬ (rw_resetTime kv.2 < now)%Z) requestCounts !! identifier
          = Some existing) as Hl'.
  { apply map_lookup_filter_Some. split; [done|]. cbn. lia. }
  rewrite Hl'. rewrite (bool_decide_eq_false_2 (rw_resetTime existing < now)%Z) by lia.
  case_bool_decide as Hfull.
  - rewrite (bool_decide_eq_false_2 (rw_count existing < limit)%Z) by lia.
    eexists. split; [done|]. rewrite Hl'. by destruct existing.
  - rewrite (bool_decide_eq_true_2 (rw_count existing < limit)%Z) by lia.
    eexists. split; [done|]. by rewrite lookup_insert_eq.
Qed.

Lemma requests_live identifier limit windowMs times :
  ∀ (j : nat) requestCounts existing i r,
    requestCounts !! identifier = Some existing →
    rw_count existing = Z.max 1 (Z.min (Z.of_nat j) limit) →
    (1 ≤ j)%nat →
    Forall (λ now, now ≤ rw_resetTime existing)%Z times →
    requests identifier limit windowMs times requestCounts !! i = Some r →
    allowed r = bool_decide (Z.of_nat (j + i) < limit)%Z
    ∧ remaining r = (if allowed r then limit - Z.of_nat (j + i) - 1 else 0)%Z
    ∧ resetTime r = rw_resetTime existing.
Proof.
  induction times as [|now times IH]; intros j requestCounts existing i r Hl Hc Hj Hall Hr;
    [done|].
  apply Forall_cons in Hall as [Hnow Hall]. cbn [requests] in Hr.
  destruct (checkRateLimit_live identifier limit windowMs now requestCounts existing Hl Hnow)
    as (requestCounts' & Hrun & Hl').
  rewrite Hrun in Hr. cbn [fst snd] in Hr. destruct i as [|i].
  - injection Hr as <-. cbn [allowed remaining resetTime]. rewrite Nat.add_0_r.
    assert (bool_decide (rw_count existing < limit)%Z = bool_decide (Z.of_nat j < limit)%Z)
      as ->.
    { apply bool_decide_ext. lia. }
    split_and!; [done| |done].
    destruct (bool_decide (Z.of_nat j < limit)%Z) eqn:Hb; [|done].
    apply bool_decide_eq_true in Hb. lia.
  - cbn in Hr. replace (j + S i)%nat with (S j + i)%nat by lia.
    refine (IH (S j) requestCounts' _ i r Hl' _ _ _ Hr); [|lia|done].
    cbn [rw_count]. destruct (bool_decide (rw_count existing < limit)%Z) eqn:Hb;
      [apply bool_decide_eq_true in Hb|apply bool_decide_eq_false in Hb]; lia.
Qed.

(** X19 — within one window exactly the first [limit] calls of a client
    are allowed: from a call that finds no live window of the client, and
    for all the calls up to the reset time it sets, the call number [i]
    (counted from 0) is allowed if and only if [i < limit], with
    [remaining = limit - i - 1] when allowed and [0] when refused — except
    that the call that opens the window is allowed whatever the limit, so a
    limit of 0 still lets one request through, with a [remaining] of -1. *)
Theorem checkRateLimit_one_window identifier limit windowMs start times requestCounts i r :
  (∀ existing, requestCounts !! identifier = Some existing →
               (rw_resetTime existing < start)%Z) →
  Forall (λ now, now ≤ start + windowMs)%Z times →
  requests identifier limit windowMs (start :: times) requestCounts !! i = Some r →
  allowed r = bool_decide (i = 0%nat ∨ (Z.of_nat i < limit)%Z)
  ∧ remaining r = (if allowed r then limit - Z.of_nat i - 1 else 0)%Z
  ∧ resetTime r = (start + windowMs)%Z.
Proof.
  intros Hfresh Hall Hr. cbn [requests] in Hr.
  assert (filter (λ kv, ¬ (rw_resetTime kv.2 < start)%Z) requestCounts !! identifier = None)
    as Hnone.
  { apply map_lookup_filter_None. destruct (requestCounts !! identifier) as [existing|] eqn:Hl;
      [right|by left]. intros x [= <-]. cbn. specialize (Hfresh _ eq_refl). lia. }
  unfold checkRateLimit in Hr. cbn zeta in Hr. rewrite Hnone in Hr. cbn [fst snd] in Hr.
  destruct i as [|i].
  - injection Hr as <-. cbn. split_and!; [|lia|done].
    symmetry. apply bool_decide_eq_true. by left.
  - cbn in Hr.
    eapply (requests_live _ _ _ _ 1%nat) in Hr as (Ha & Hrem & Hreset);
      [|apply lookup_insert_eq|cbn; lia|lia|done].
    cbn in Hreset. rewrite Hrem, Hreset, Ha. split_and!; [|done|done].
    apply bool_decide_ext. lia.
Qed.

Lemma checkRateLimit_one_window_witness :
  requests "10.0.0.7" 0 1000 [ 500; 600; 1500 ]%Z ∅
  = [ {| allowed := true; remaining := -1; resetTime := 1500 |};
      {| allowed := false; remaining := 0; resetTime := 1500 |};
      {| allowed := false; remaining := 0; resetTime := 1500 |} ]
  ∧ allowed {| allowed := false; remaining := 0; resetTime := 1500 |}
    = bool_decide (2%nat = 0%nat ∨ (Z.of_nat 2 < 0)%Z).
Proof.
  split; [by vm_compute|].
  apply (checkRateLimit_one_window "10.0.0.7" 0 1000 500 [ 600; 1500 ]%Z ∅ 2%nat).
  - intros existing Hl. by rewrite lookup_empty in Hl.
  - repeat constructor; lia.
  - by vm_compute.
Defined.

(** ** Counters in the responses *)

Lemma with_includes_counts take1 with_completions id w db :
  take1 && with_completions = false →
  counts_consistent (workoutResponse true with_completions (with_includes take1 id w db)).
Proof.
  intros Hflags. unfold counts_consistent. cbn.
  pose proof (merge_sort_Permutation completedAt_desc (completions_of id db)) as Hp.
  apply Permutation_length in Hp. split_and!.
  - by rewrite length_fmap, (merge_sort_Permutation order_asc).
  - rewrite <- Hp. destruct (merge_sort completedAt_desc (completions_of id db)) as [|c cs];
      by destruct take1.
  - intros completions. destruct with_completions; [|done]. intros [= <-].
    rewrite andb_true_r in Hflags. subst take1. rewrite length_fmap, Hp. split; [done|].
    by destruct (merge_sort completedAt_desc (completions_of id db)).
Qed.

Lemma handleApiError_no_workout error : workouts_of_response (handleApiError error) = [].
Proof.
  destruct error as [m d|code|]; cbn; [done| |done].
  destruct (String.prefix "P" code); [|done]. unfold handlePrismaError. by repeat case_decide.
Qed.

(** X20 — in every workout representation that [GET] (one workout or the
    list), [PATCH] and [PUT] answer with, [exerciseCount] is the number of
    exercises listed and [lastCompleted] is null exactly when
    [completionCount] is 0; where the completions are listed (the single
    [GET]), [completionCount] is their number and [lastCompleted] the date
    of the first; and the workout a [POST] answers with has as many
    exercises listed as its [exerciseCount]. *)
Theorem responses_counts_consistent `{IdGen} store window q now id update create db :
  Forall counts_consistent (workouts_of_response (GET id db).1)
  ∧ Forall counts_consistent (workouts_of_response (GET_list store window q db).1)
  ∧ Forall counts_consistent (workouts_of_response (PATCH now id db).1)
  ∧ Forall counts_consistent (workouts_of_response (PUT now id update db).1)
  ∧ Forall (λ w, wr_exerciseCount w = length (wr_exercises w))
      (workouts_of_response (POST now create db).1).
Proof.
  split_and!.
  - unfold GET. destruct (workouts db !! id); [|by constructor].
    repeat constructor; by apply with_includes_counts.
  - unfold GET_list. cbn zeta. destruct (window _ _ _) as [error|page].
    { cbn [fst]. rewrite handleApiError_no_workout. constructor. }
    cbn. apply Forall_fmap, Forall_forall. intros [i w] _. by apply with_includes_counts.
  - unfold PATCH. destruct (workouts db !! id) as [w|] eqn:Hw; [|by constructor].
    unfold workout_update. rewrite Hw. repeat constructor; by apply with_includes_counts.
  - destruct (PUT_cases now id update db)
      as [[_ Hst]|(w & v & db1 & _ & _ & _ & _ & w' & _ & ->)].
    + unfold PUT in *. destruct (workouts db !! id); [|by constructor].
      destruct update as [error|v]; [cbn [fst]; rewrite handleApiError_no_workout; constructor|].
      destruct (transaction _ db) as [[error|[wi|]] db'];
        [cbn [fst]; rewrite handleApiError_no_workout; constructor|done|by constructor].
    + repeat constructor; by apply with_includes_counts.
  - unfold POST. destruct create as [error|v];
      [cbn [fst]; rewrite handleApiError_no_workout; constructor|].
    unfold transaction.
    destruct (POST_callback _ _ db) as [[error|[wi|]] db1] eqn:Hcb;
      [cbn [fst]; rewrite handleApiError_no_workout; constructor| |by constructor].
    unfold POST_callback in Hcb.
    apply bind_inr_inv in Hcb as (new & db2 & _ & Hcb).
    apply bind_inr_inv in Hcb as ([] & db3 & _ & Hfind).
    apply workout_findUnique_inv in Hfind as (_ & o & [= <-] & Hwi).
    destruct (Hwi wi eq_refl) as [w' ->]. repeat constructor. cbn.
    by rewrite length_fmap, (merge_sort_Permutation order_asc).
Qed.

(** ** The middleware wrapper *)

(** X21 — a request the wrapper turns away before the rate limiter costs
    nothing: for an [OPTIONS] request (answered 200 with the CORS headers,
    whatever the [cors] option and the allowed methods), a method that is
    not allowed (405) and a [POST], [PUT] or [PATCH] whose content type does
    not contain [application/json] (400), the handler's state and the rate
    limiter's map are left as they were. *)
Theorem withApiMiddleware_rejects_for_free {S : Type}
    (handler : Request → S → (Exn + Served) * S) options request now later requestCounts s :
  rq_method request = "OPTIONS"
  ∨ rq_method request
      ∉ default ["GET"; "POST"; "PUT"; "DELETE"; "PATCH"] (options ≫= o_allowedMethods)
  ∨ validateContentType request ≠ None →
  ∃ answer,
    withApiMiddleware handler options request now later requestCounts s
      = (answer, requestCounts, s)
    ∧ sv_status answer
      = (if bool_decide (rq_method request = "OPTIONS") then HTTP_STATUS.OK
         else if bool_decide
                   (rq_method request
                      ∈ default ["GET"; "POST"; "PUT"; "DELETE"; "PATCH"]
                          (options ≫= o_allowedMethods))
              then HTTP_STATUS.BAD_REQUEST
              else HTTP_STATUS.METHOD_NOT_ALLOWED)
    ∧ (rq_method request = "OPTIONS" → answer = handleOptions).
Proof.
  intros Hreject. unfold withApiMiddleware. cbn zeta.
  destruct (bool_decide (rq_method request = "OPTIONS")) eqn:Hopt.
  { eexists. by split_and!. }
  apply bool_decide_eq_false in Hopt. unfold validateHttpMethod.
  destruct (bool_decide (rq_method request ∈ _)) eqn:Hallowed.
  - apply bool_decide_eq_true in Hallowed.
    destruct (validateContentType request) as [contentTypeError|] eqn:Hct;
      [|by destruct Hreject as [?|[?|?]]].
    eexists. split_and!; [done| |done].
    unfold validateContentType in Hct.
    repeat case_match; simplify_eq; by destruct (default true _).
  - eexists. split_and!; [done| |done]. by destruct (default true _).
Qed.

Lemma cors_keeps_header key value headers :
  key ∉ corsHeaders.*1 →
  (key, value) ∈ headers →
  (key, value) ∈ foldl (λ headers kv, set_header kv.1 kv.2 headers) headers corsHeaders.
Proof.
  assert (∀ k v hs, k ≠ key → (key, value) ∈ hs → (key, value) ∈ set_header k v hs) as Hset.
  { intros k v hs Hne. induction hs as [|[k' v'] hs IH]; cbn; [by intros ?%elem_of_nil|].
    intros [[= <- <-]|Hin]%elem_of_cons.
    - rewrite decide_False by done. by left.
    - destruct (decide (k' = k)); right; [done|by apply IH]. }
  generalize corsHeaders. intros cors. revert headers.
  induction cors as [|[k v] cors IH]; intros headers Hkey Hin; [done|]. cbn in *.
  apply not_elem_of_cons in Hkey as [Hne Hkey]. apply IH; [done|]. by apply Hset.
Qed.

(** X22 — a client over its limit is answered 429 without the handler being
    run: when the request passes the method and content-type checks, rate
    limiting is on and the client (as [getClientIP] names it) has a live
    window with [limit] calls or more, the answer has status 429, the
    message "Too many requests" under the error label "Unknown Error" (429
    is not among the statuses [getErrorType] names), a [Retry-After] header
    with the seconds to the reset time, rounded up; the handler's state and
    the client's window are unchanged. *)
Theorem withApiMiddleware_rate_limited {S : Type}
    (handler : Request → S → (Exn + Served) * S) options request now later requestCounts s
    limit windowMs existing :
  rq_method request ≠ "OPTIONS" →
  rq_method request
    ∈ default ["GET"; "POST"; "PUT"; "DELETE"; "PATCH"] (options ≫= o_allowedMethods) →
  validateContentType request = None →
  options ≫= o_rateLimit = Some (limit, windowMs) →
  requestCounts !! getClientIP request = Some existing →
  (now ≤ rw_resetTime existing)%Z →
  (limit ≤ rw_count existing)%Z →
  ∃ answer requestCounts',
    withApiMiddleware handler options request now later requestCounts s
      = (answer, requestCounts', s)
    ∧ sv_status answer = 429
    ∧ sv_body answer = Some (BError "Unknown Error" "Too many requests" None)
    ∧ ("Retry-After", pretty (ceil_seconds (rw_resetTime existing - later)))
        ∈ sv_headers answer
    ∧ requestCounts' !! getClientIP request = Some existing.
Proof.
  intros Hopt Hallowed Hct Hrate Hl Hlive Hfull. unfold withApiMiddleware. cbn zeta.
  rewrite (bool_decide_eq_false_2 _ Hopt). unfold validateHttpMethod.
  rewrite (bool_decide_eq_true_2 _ Hallowed), Hct, Hrate.
  destruct (checkRateLimit_live (getClientIP request) limit windowMs now requestCounts
              existing Hl Hlive) as (requestCounts' & -> & Hl').
  rewrite (bool_decide_eq_false_2 (rw_count existing < limit)%Z) in Hl' |- * by lia.
  cbn [fst snd allowed resetTime]. eexists _, _. split; [done|].
  split_and!.
  - by destruct (default true _).
  - by destruct (default true _).
  - destruct (default true _); [|cbn; by left].
    unfold addCorsHeaders. cbn [sv_headers serve set_header].
    apply cors_keeps_header; [|by left].
    apply (bool_decide_unpack _). by vm_compute.
  - by destruct existing.
Qed.

Lemma withApiMiddleware_rejects_for_free_witness :
  ∃ answer,
    withApiMiddleware Wire.toggle None Wire.post_plain 4000 4100 Wire.used_up Gym.db2
      = (answer, Wire.used_up, Gym.db2)
    ∧ sv_status answer = HTTP_STATUS.BAD_REQUEST.
Proof.
  destruct (withApiMiddleware_rejects_for_free Wire.toggle None Wire.post_plain 4000 4100
              Wire.used_up Gym.db2) as (answer & Hrun & Hstatus & _).
  { right. right. by vm_compute. }
  exists answer. split; [done|]. rewrite Hstatus. by vm_compute.
Defined.

Lemma withApiMiddleware_rate_limited_witness :
  getClientIP Wire.get_behind_proxy = "10.0.0.7"
  ∧ ∃ answer requestCounts',
      withApiMiddleware Wire.toggle (Some Wire.two_per_second) Wire.get_behind_proxy
        4000 4100 Wire.used_up Gym.db2 = (answer, requestCounts', Gym.db2)
      ∧ sv_status answer = 429
      ∧ sv_body answer = Some (BError "Unknown Error" "Too many requests" None)
      ∧ ("Retry-After", "1") ∈ sv_headers answer
      ∧ requestCounts' !! "10.0.0.7" = Some {| rw_count := 2; rw_resetTime := 5000 |}.
Proof.
  split; [by vm_compute|].
  apply (withApiMiddleware_rate_limited Wire.toggle (Some Wire.two_per_second)
           Wire.get_behind_proxy 4000 4100 Wire.used_up Gym.db2 2 1000
           {| rw_count := 2; rw_resetTime := 5000 |}); try done.
  apply (bool_decide_unpack _). by vm_compute.
Defined.

(** ** [getCategoryStats] *)

Lemma count_in_bump category acc k :
  count_in k (bump category acc)
  = (count_in k acc + if decide (k = category) then 1 else 0)%Z.
Proof.
  induction acc as [|[k0 n0] acc IH]; cbn.
  - destruct (decide (category = k)) as [->|Hne].
    + by rewrite decide_True.
    + by rewrite decide_False.
  - destruct (decide (k0 = category)) as [->|Hne]; cbn.
    + destruct (decide (category = k)) as [->|Hk].
      * by rewrite decide_True.
      * rewrite decide_False by done. lia.
    + destruct (decide (k0 = k)) as [->|Hk]; [|done].
      rewrite decide_False by done. lia.
Qed.

Lemma bump_keys category acc :
  (bump category acc).*1
  = if decide (category ∈ acc.*1) then acc.*1 else (acc.*1 ++ [category])%list.
Proof.
  induction acc as [|[k0 n0] acc IH]; cbn; [done|].
  destruct (decide (k0 = category)) as [->|Hne]; cbn.
  - rewrite decide_True; [done|by left].
  - rewrite IH. destruct (decide (category ∈ acc.*1)) as [Hin|Hnin].
    + rewrite decide_True; [done|by right].
    + rewrite decide_False; [done|]. rewrite not_elem_of_cons. done.
Qed.

Lemma elem_of_tally acc k n :
  NoDup acc.*1 → (k, n) ∈ acc ↔ k ∈ acc.*1 ∧ count_in k acc = n.
Proof.
  induction acc as [|[k0 n0] acc IH]; cbn.
  - intros _. split; [by intros ?%elem_of_nil|by intros [?%elem_of_nil _]].
  - intros [Hnin Hnd]%NoDup_cons. rewrite !elem_of_cons, (IH Hnd).
    destruct (decide (k0 = k)) as [->|Hne].
    + split.
      * intros [Heq|[Hin _]]; [|done]. injection Heq as ->. split; [by left|done].
      * intros [_ <-]. by left.
    + split.
      * intros [Heq|[Hin Hc]]; [by injection Heq as ? _|]. split; [by right|done].
      * intros [[Heq|Hin] Hc]; [done|]. by right.
Qed.

(** The tally after the loop over the completions. *)
Lemma tally_spec categories :
  NoDup (foldl (λ acc category, bump category acc) [] categories).*1
  ∧ ∀ k n, (k, n) ∈ foldl (λ acc category, bump category acc) [] categories
           ↔ n = occurrences k categories ∧ (0 < n)%Z.
Proof.
  enough (NoDup (foldl (λ acc category, bump category acc) [] categories).*1
          ∧ (∀ k, count_in k (foldl (λ acc category, bump category acc) [] categories)
                  = occurrences k categories)
          ∧ (∀ k, k ∈ (foldl (λ acc category, bump category acc) [] categories).*1
                  ↔ (0 < occurrences k categories)%Z)) as (Hnd & Hcount & Hkeys).
  { split; [done|]. intros k n. rewrite (elem_of_tally _ _ _ Hnd), Hkeys, Hcount.
    split; [intros [? <-]|intros [-> ?]]; done. }
  induction categories as [|c categories (IHnd & IHcount & IHkeys)] using rev_ind.
  { split_and!; [constructor|done|]. intros k. cbn. unfold occurrences. cbn.
    split; [by intros ?%elem_of_nil|lia]. }
  rewrite foldl_app. cbn [foldl].
  set (acc := foldl (λ acc category, bump category acc) [] categories) in *.
  assert (∀ k, occurrences k (categories ++ [c])
               = (occurrences k categories + if decide (k = c) then 1 else 0)%Z) as Hocc.
  { intros k. unfold occurrences. rewrite filter_app, length_app, filter_cons, filter_nil.
    destruct (decide (c = k)) as [->|Hne]; [rewrite decide_True by done; cbn; lia|].
    rewrite decide_False by done. cbn. lia. }
  assert (∀ k, 0 ≤ occurrences k categories)%Z as Hnonneg
    by (intros k; unfold occurrences; lia).
  split_and!.
  - rewrite bump_keys. destruct (decide (c ∈ acc.*1)); [done|].
    apply NoDup_app. split_and!; [done| |apply NoDup_singleton].
    intros x Hx ->%list_elem_of_singleton. done.
  - intros k. by rewrite count_in_bump, Hocc, IHcount.
  - intros k. rewrite bump_keys, Hocc. specialize (Hnonneg k).
    destruct (decide (c ∈ acc.*1)) as [Hin|Hnin].
    + rewrite IHkeys. destruct (decide (k = c)) as [->|Hne]; [|lia].
      apply IHkeys in Hin. lia.
    + rewrite elem_of_app, list_elem_of_singleton, IHkeys.
      destruct (decide (k = c)) as [->|Hne]; [|split; [intros [?|?]; [lia|done]|left; lia]].
      split; [lia|by right].
Qed.

Lemma insert_by_count_Permutation x sorted : insert_by_count x sorted ≡ₚ x :: sorted.
Proof.
  induction sorted as [|y sorted IH]; cbn; [done|].
  case_bool_decide; [|done]. rewrite IH. apply Permutation_swap.
Qed.

Lemma sort_by_count_Permutation entries : sort_by_count entries ≡ₚ entries.
Proof.
  induction entries as [|x entries IH]; cbn; [done|].
  by rewrite insert_by_count_Permutation, IH.
Qed.

Lemma sort_by_count_sorted entries :
  StronglySorted (λ a b, b.2 ≤ a.2)%Z (sort_by_count entries).
Proof.
  unfold sort_by_count. induction entries as [|x entries IH]; cbn [foldr]; [constructor|].
  revert IH. generalize (foldr insert_by_count [] entries). intros sorted Hs.
  induction Hs as [|y sorted Hs IH Hall]; cbn;
    [apply SSorted_cons; [apply SSorted_nil|apply Forall_nil_2]|].
  rewrite Forall_forall in Hall. case_bool_decide as Hlt.
  - constructor; [done|]. rewrite Forall_forall. intros z.
    rewrite insert_by_count_Permutation. intros [->|Hz]%elem_of_cons; [lia|by apply Hall].
  - constructor; [by constructor; [|apply Forall_forall]|].
    apply Forall_cons. split; [lia|]. apply Forall_forall. intros z Hz.
    specialize (Hall z Hz). lia.
Qed.

(** X23 — the category statistics of the progress page are the top five:
    the result has at most five entries, no category twice, larger counts
    first; the count shown for a category is the number of completions of
    the last 90 days whose workout has that category; and a category with
    such completions that is not shown has no more of them than any
    category shown, the list then being full. *)
Theorem getCategoryStats_top_five now db :
  (length (getCategoryStats now db) ≤ 5)%nat
  ∧ NoDup (getCategoryStats now db).*1
  ∧ StronglySorted (λ a b, b.2 ≤ a.2)%Z (getCategoryStats now db)
  ∧ (∀ category n, (category, n) ∈ getCategoryStats now db →
       n = occurrences category (recent_categories now db) ∧ (0 < n)%Z)
  ∧ (∀ category, (0 < occurrences category (recent_categories now db))%Z →
       category ∉ (getCategoryStats now db).*1 →
       length (getCategoryStats now db) = 5%nat
       ∧ ∀ shown n, (shown, n) ∈ getCategoryStats now db →
           (occurrences category (recent_categories now db) ≤ n)%Z).
Proof.
  unfold getCategoryStats. cbn zeta.
  destruct (tally_spec (recent_categories now db)) as [Hnd Htally].
  revert Hnd Htally.
  generalize (foldl (λ acc category, bump category acc) [] (recent_categories now db)).
  intros tally Hnd Htally.
  pose proof (sort_by_count_Permutation tally) as Hp.
  pose proof (sort_by_count_sorted tally) as Hs.
  revert Hp Hs. generalize (sort_by_count tally). intros sorted Hp Hs.
  rewrite <- (take_drop 5 sorted) in Hp, Hs.
  split_and!.
  - rewrite length_take. lia.
  - assert (NoDup ((take 5 sorted ++ drop 5 sorted)%list).*1) as Hnd' by by rewrite Hp.
    rewrite fmap_app in Hnd'. by apply NoDup_app in Hnd' as [? _].
  - by apply StronglySorted_app_1_l in Hs.
  - intros category n Hin. apply Htally. rewrite <- Hp. apply elem_of_app. by left.
  - intros category Hpos Hnot.
    assert ((category, occurrences category (recent_categories now db)) ∈ drop 5 sorted)
      as Hrest.
    { assert ((category, occurrences category (recent_categories now db)) ∈ tally) as Hin
        by by apply Htally.
      rewrite <- Hp in Hin. apply elem_of_app in Hin as [Hin|Hin]; [|done].
      exfalso. apply Hnot, list_elem_of_fmap. by eexists (_, _). }
    split.
    + rewrite length_take. destruct (decide (5 ≤ length sorted)%nat); [lia|].
      rewrite drop_ge in Hrest by lia. by apply elem_of_nil in Hrest.
    + intros shown n Hin.
      by apply (StronglySorted_app_1_elem_of _ _ _ _ _ Hs Hin Hrest).
Qed.

(** ** [formatDate] *)

Lemma ceil_days_spec diffTime n :
  ceil_days diffTime = n ↔ ((n - 1) * DAY < diffTime ≤ n * DAY)%Z.
Proof.
  unfold ceil_days.
  pose proof (Z.div_mod (- diffTime) DAY ltac:(done)) as Hdiv.
  pose proof (Z.mod_pos_bound (- diffTime) DAY ltac:(done)) as Hmod.
  revert Hdiv Hmod. generalize ((- diffTime) `div` DAY)%Z ((- diffTime) `mod` DAY)%Z.
  intros q r Hdiv Hmod. unfold DAY in *. split; [intros <-; lia|nia].
Qed.

(** X24 — [formatDate] names the day by whole 24-hour spans counted back
    from the instant of the call, rounded up, not by the calendar: every
    instant of the last 24 hours, even a millisecond ago, reads
    "Yesterday"; "Today" is shown only for the instant of the call itself
    or one less than a day ahead; and an instant between [n - 1] and [n]
    days back, for [n] from 2 to 6, reads "n days ago". *)
Theorem formatDate_by_elapsed_days toLocaleDateString getFullYear now date :
  ((0 < now - date ≤ DAY)%Z →
     formatDate toLocaleDateString getFullYear now date = "Yesterday")
  ∧ ((- DAY < now - date ≤ 0)%Z →
       formatDate toLocaleDateString getFullYear now date = "Today")
  ∧ (∀ n, (2 ≤ n ≤ 6)%Z → ((n - 1) * DAY < now - date ≤ n * DAY)%Z →
       formatDate toLocaleDateString getFullYear now date = pretty n +:+ " days ago").
Proof.
  unfold formatDate. cbn zeta. split_and!.
  - intros Hd. assert (ceil_days (now - date) = 1%Z) as -> by (apply ceil_days_spec; lia).
    done.
  - intros Hd. assert (ceil_days (now - date) = 0%Z) as -> by (apply ceil_days_spec; lia).
    done.
  - intros n Hn Hd. assert (ceil_days (now - date) = n) as -> by by apply ceil_days_spec.
    rewrite !bool_decide_eq_false_2 by lia. by rewrite bool_decide_eq_true_2 by lia.
Qed.

(** ** [validateUpdateExercise] *)

Lemma set_keys key v fields :
  (set key v fields).*1
  = if decide (key ∈ fields.*1) then fields.*1 else (fields.*1 ++ [key])%list.
Proof.
  induction fields as [|[k x] fields IH]; cbn; [done|].
  destruct (decide (k = key)) as [->|Hne]; cbn.
  - rewrite decide_True; [done|by left].
  - rewrite IH. destruct (decide (key ∈ fields.*1)) as [Hin|Hnin].
    + rewrite decide_True; [done|by right].
    + rewrite decide_False; [done|]. rewrite not_elem_of_cons. done.
Qed.

Lemma set_NoDup key v fields : NoDup fields.*1 → NoDup (set key v fields).*1.
Proof.
  intros Hnd. rewrite set_keys. destruct (decide (key ∈ fields.*1)); [done|].
  apply NoDup_app. split_and!; [done| |apply NoDup_singleton].
  intros x Hx ->%list_elem_of_singleton. done.
Qed.

(** Reading a key back after an assignment. *)
Lemma lookup_field_set key v fields k :
  NoDup fields.*1 →
  lookup_field k (set key v fields) = if decide (k = key) then v else lookup_field k fields.
Proof.
  induction fields as [|[k0 x] fields IH]; cbn.
  - intros _. destruct (decide (key = k)) as [->|Hne].
    + by rewrite decide_True.
    + by rewrite decide_False.
  - intros [Hnin Hnd]%NoDup_cons. destruct (decide (k0 = key)) as [->|Hne]; cbn.
    + destruct (decide (key = k)) as [->|Hk].
      * rewrite decide_True by done. by rewrite (lookup_field_absent _ _ Hnin).
      * by rewrite decide_False.
    + rewrite (IH Hnd). destruct (decide (k = key)) as [->|Hk]; [|done].
      rewrite decide_False by done. by destruct v.
Qed.

Lemma assign_if_defined_NoDup data key v fields :
  NoDup fields.*1 → NoDup (assign_if_defined data key v fields).*1.
Proof.
  intros Hnd. unfold assign_if_defined. destruct (is_undefined _); [done|by apply set_NoDup].
Qed.

Lemma lookup_field_assign data key v fields k :
  NoDup fields.*1 →
  lookup_field k (assign_if_defined data key v fields)
  = if decide (k = key)
    then if is_undefined (get data key) then lookup_field k fields else v
    else lookup_field k fields.
Proof.
  intros Hnd. unfold assign_if_defined. destruct (is_undefined (get data key)).
  - by destruct (decide (k = key)).
  - by apply lookup_field_set.
Qed.

Ltac read_assigned :=
  cbn [get];
  repeat (rewrite lookup_field_assign
            by (repeat apply assign_if_defined_NoDup; apply NoDup_nil_2);
          first [rewrite decide_False by done | rewrite decide_True by done]);
  cbn [lookup_field].

(** X25 — the directive [validateUpdateExercise] hands on reflects the
    payload field by field: [id] and [_action] are passed as they are, and
    are absent or, respectively, a text (possibly empty) and one of
    "update", "create", "delete"; the name is absent or a text of 1 to 100
    characters, passed sanitized; the order is absent or the parsed
    integer; and each of [reps], [sets], [duration], [notes] is absent
    when the payload has no such key, [null] when the payload's value is
    [null] (or another falsy value), and the parsed or sanitized value
    otherwise. *)
Theorem validateUpdateExercise_field_by_field (Number parseInt : value → number) data result :
  validateUpdateExercise Number parseInt data = inr result →
  (get result "id" = get data "id"
   ∧ (get data "id" = VUndefined ∨ ∃ id, get data "id" = VStr id))
  ∧ (get result "_action" = get data "_action"
     ∧ (get data "_action" = VUndefined ∨ get data "_action" ∈ actions))
  ∧ (get result "name" = sanitized (get data "name")
     ∧ (get data "name" = VUndefined
        ∨ ∃ name, get data "name" = VStr name ∧ (1 ≤ String.length name ≤ 100)%nat))
  ∧ get result "order"
    = (if is_undefined (get data "order") then VUndefined
       else VNum (parseInt (get data "order")))
  ∧ get result "reps"
    = (if is_undefined (get data "reps") then VUndefined
       else if truthy_value (get data "reps") then VNum (parseInt (get data "reps"))
            else VNull)
  ∧ get result "sets"
    = (if is_undefined (get data "sets") then VUndefined
       else if truthy_value (get data "sets") then VNum (parseInt (get data "sets"))
            else VNull)
  ∧ get result "duration"
    = (if is_undefined (get data "duration") then VUndefined
       else if truthy_value (get data "duration") then sanitized (get data "duration")
            else VNull)
  ∧ get result "notes"
    = (if is_undefined (get data "notes") then VUndefined
       else if truthy_value (get data "notes") then sanitized (get data "notes")
            else VNull).
Proof.
  unfold validateUpdateExercise. destruct (is_nullish data); [done|].
  destruct (bool_decide _) eqn:Herr; [done|]. apply errors_nil in Herr. intros [= <-].
  unfold updateExercise_errors in Herr.
  apply app_eq_nil in Herr as [Hid Herr]. apply app_eq_nil in Herr as [Hname Herr].
  apply app_eq_nil in Herr as [_ Herr]. apply app_eq_nil in Herr as [_ Haction].
  split_and!.
  - read_assigned. by destruct (get data "id").
  - destruct (get data "id") as [| | | |id| |]; cbn in Hid; try done; eauto.
  - read_assigned. by destruct (get data "_action").
  - destruct (get data "_action") as [| | | |a| |] eqn:Ha; cbn in Haction; try done;
      [by left|right].
    unfold actions. rewrite !elem_of_cons.
    repeat case_bool_decide; simplify_eq; cbn in Haction; try done; tauto.
  - read_assigned. by destruct (get data "name").
  - destruct (is_undefined (get data "name")) eqn:Hundef;
      [left; by apply is_undefined_true|right].
    apply opt_to_list_nil, optional_text_ok in Hname as (name & ? & ?).
    exists name. split; [done|lia].
  - by read_assigned.
  - by read_assigned.
  - by read_assigned.
  - by read_assigned.
  - by read_assigned.
Qed.

Lemma validateUpdateExercise_field_by_field_witness :
  get Gym.validated_patch "id" = VStr "e1"
  ∧ get Gym.validated_patch "name" = VStr "Back squats"
  ∧ get Gym.validated_patch "reps" = VNull
  ∧ get Gym.validated_patch "sets" = VUndefined
  ∧ get Gym.validated_patch "order" = Examples.num 2.
Proof.
  destruct (validateUpdateExercise_field_by_field Examples.example_Number
              Examples.example_parseInt Gym.patch_payload Gym.validated_patch)
    as ([-> _] & _ & [-> _] & -> & -> & -> & _); [by vm_compute|].
  by vm_compute.
Defined.

(** ** [PUT]: a full replacement *)

Section put_replacement.
Context `{IdGen}.

(** The loop over directives that all come without an id: one new row
    for each, under ids that were not in use, and nothing else touched. *)
Lemma handleDirectives_create_only wid ex updates upd db :
  is_Some (workouts db !! wid) →
  Forall (λ d, u_id d = None) updates →
  ∃ upd' db' news,
    handleDirectives wid ex updates upd db = (inr upd', db')
    ∧ workouts db' = workouts db
    ∧ exercises db ⊆ exercises db'
    ∧ exercises_of wid db' ≡ₚ news ++ exercises_of wid db
    ∧ news.*2 ≡ₚ (λ d, new_row (createData_of wid d)) <$> updates
    ∧ Forall (λ p, exercises db !! p.1 = None) news.
Proof.
  intros Hw Hall. revert upd db Hw.
  induction Hall as [|d updates Hd Hall IH]; intros upd db Hw.
  { exists upd, db, []. by split_and!. }
  cbn [handleDirectives].
  set (i := cuid (dom (exercises db))). set (row := new_row (createData_of wid d)).
  pose (db1 := set_exercises <[i := row]> db).
  assert (exercises db !! i = None) as Hfresh by apply cuid_lookup.
  assert (handleDirective wid ex d upd db = (inr ({[i]} ∪ upd), db1)) as Hrun.
  { unfold handleDirective. rewrite Hd. cbn [truthy andb].
    rewrite andb_false_r. unfold bind, exercise_create. cbn [cd_workoutId createData_of].
    by destruct Hw as [w ->]. }
  destruct (IH ({[i]} ∪ upd) db1 Hw) as (upd' & db' & news & Hrest & Hws & Hsub & Hp & Hrows & Hnew).
  exists upd', db', ((i, row) :: news). rewrite (bind_inr _ _ _ _ _ Hrun).
  split_and!; [done|done| | | |].
  - etrans; [|exact Hsub]. cbn. by apply insert_subseteq.
  - rewrite Hp. unfold db1.
    rewrite (exercises_of_insert_fresh wid db i row) by done.
    cbn. by rewrite Permutation_middle.
  - cbn. by rewrite Hrows.
  - constructor; [done|]. eapply Forall_impl; [exact Hnew|].
    intros [j r] Hj. cbn in *. apply lookup_insert_None in Hj as [? _]. done.
Qed.

(** X26 — a full replacement leaves exactly the payload: when every
    directive of a non-empty [exercises] array comes without an id, the
    [PUT] on an existing workout answers 200, and afterwards the workout
    owns one exercise for each directive, with the data of the directive
    (name and order defaulted as the create branch does), all under ids that
    were not in use before; none of its former exercises is left. *)
Theorem PUT_full_replacement now id validatedData updates db :
  is_Some (workouts db !! id) →
  r_exercises validatedData = Some updates →
  updates ≠ [] →
  (∀ d, d ∈ updates → u_id d = None) →
  status (PUT now id (inr validatedData) db).1 = HTTP_STATUS.OK
  ∧ (exercises_of id (PUT now id (inr validatedData) db).2).*2
    ≡ₚ (λ d, new_row (createData_of id d)) <$> updates
  ∧ ∀ eid e, (eid, e) ∈ exercises_of id (PUT now id (inr validatedData) db).2 →
             exercises db !! eid = None.
Proof.
  intros Hw Hupdates Hne Hall.
  destruct (update_workout_fields now id validatedData db) as [r db1] eqn:Hstep.
  pose proof (update_workout_fields_ok now id validatedData db Hw) as Hr.
  rewrite Hstep in Hr. cbn in Hr. subst r.
  pose proof Hstep as (Hex & Hdom & _)%update_workout_fields_inv.
  assert (is_Some (workouts db1 !! id)) as Hw1.
  { apply elem_of_dom. rewrite Hdom. by apply elem_of_dom. }
  assert (exercises_of id db1 = exercises_of id db) as Hsame
    by (unfold exercises_of; by rewrite Hex).
  destruct (handleDirectives_create_only id (list_to_set (exercises_of id db).*1)
              updates ∅ db1 Hw1) as (upd' & db2 & news & Hloop & Hws & Hsub & Hp & Hrows & Hnew).
  { by apply Forall_forall. }
  assert (hasCompleteExerciseList updates = true) as Hcomplete.
  { destruct updates as [|d updates]; [done|].
    apply (hasCompleteExerciseList_intro _ d); [by left|]. left. apply Hall. by left. }
  destruct (handleExerciseUpdates id updates (exercises_of id db) db1) as [r3 db3] eqn:Hrec.
  assert (r3 = inr ()
          ∧ (∀ eid e, exercises db3 !! eid = Some e → exercises db2 !! eid = Some e)
          ∧ (∀ eid e, exercises db2 !! eid = Some e → eid ∉ (exercises_of id db).*1 →
                      exercises db3 !! eid = Some e)) as (-> & Hback & Hkeep).
  { unfold handleExerciseUpdates in Hrec. rewrite (bind_inr _ _ _ _ _ Hloop) in Hrec.
    cbn zeta in Hrec. destruct (hasCompleteExerciseList updates && _).
    - injection Hrec as <- <-. split; [done|]. cbn. split.
      + intros eid e [? _]%map_lookup_filter_Some. done.
      + intros eid e He Hnin. apply map_lookup_filter_Some. split; [done|]. cbn.
        intros ([i e'] & -> & Hin)%list_elem_of_fmap. apply Hnin.
        unfold exercisesToDelete in Hin.
        apply list_elem_of_filter in Hin as [_ Hin]. apply list_elem_of_filter in Hin as [_ Hin].
        apply list_elem_of_fmap. by exists (i, e').
    - unfold ret in Hrec. injection Hrec as <- <-. done. }
  destruct (PUT_commit now id validatedData db db1 db3) as [Hst Hdb]; [done|done| |].
  { by rewrite Hupdates. }
  rewrite Hdb. clear Hdb.
  assert (∀ p, p ∈ exercises_of id db3 ↔ p ∈ news) as Hiff.
  { intros [eid e]. rewrite elem_of_exercises_of. split.
    - intros [He Howner].
      assert ((eid, e) ∈ exercises_of id db2) as Hin
        by (apply elem_of_exercises_of; split; [by apply Hback|done]).
      rewrite Hp in Hin. apply elem_of_app in Hin as [Hin|Hin]; [done|]. exfalso.
      rewrite Hsame in Hin. pose proof Hin as [He1 _]%elem_of_exercises_of.
      rewrite <- Hex in He1.
      enough (exercises db3 !! eid = None) by congruence.
      eapply handleExerciseUpdates_replace; [exact Hrec|done|exact Hin|exact He1|].
      intros d Hd. rewrite (Hall d Hd). done.
    - intros Hin.
      assert ((eid, e) ∈ exercises_of id db2) as [He Howner]%elem_of_exercises_of
        by (rewrite Hp; apply elem_of_app; by left).
      split; [|done]. apply Hkeep; [done|].
      intros ([i e'] & Hi & Hin')%list_elem_of_fmap. cbn in Hi. subst i.
      apply elem_of_exercises_of in Hin' as [He' _]. rewrite <- Hex in He'.
      rewrite Forall_forall in Hnew. specialize (Hnew _ Hin). cbn in Hnew. congruence. }
  split_and!; [done| |].
  - rewrite <- Hrows. apply fmap_Permutation, NoDup_Permutation; [|
                        |done].
    + apply NoDup_map_to_list.
    + assert (NoDup (exercises_of id db2)) as Hnd by apply NoDup_map_to_list.
      rewrite Hp in Hnd. by apply NoDup_app in Hnd as [? _].
  - intros eid e Hin%Hiff. rewrite Forall_forall in Hnew. specialize (Hnew _ Hin).
    cbn in Hnew. by rewrite <- Hex.
Qed.

End put_replacement.

Lemma PUT_full_replacement_witness :
  status (PUT (H := longer_idgen) 9 "w1" (inr (Examples.request Gym.new_plan)) Gym.db2).1
    = HTTP_STATUS.OK
  ∧ (exercises_of "w1"
       (PUT (H := longer_idgen) 9 "w1" (inr (Examples.request Gym.new_plan)) Gym.db2).2).*2
    ≡ₚ (λ d, new_row (createData_of "w1" d)) <$> Gym.new_plan
  ∧ ∀ eid e,
      (eid, e) ∈ exercises_of "w1"
                   (PUT (H := longer_idgen) 9 "w1" (inr (Examples.request Gym.new_plan))
                      Gym.db2).2 →
      exercises Gym.db2 !! eid = None.
Proof.
  apply (PUT_full_replacement (H := longer_idgen) 9 "w1" (Examples.request Gym.new_plan)
           Gym.new_plan Gym.db2); [|done|done|].
  - exists Examples.leg_day. by vm_compute.
  - intros d Hd. unfold Gym.new_plan in Hd.
    repeat (apply elem_of_cons in Hd as [-> | Hd]; [done|]). by apply elem_of_nil in Hd.
Defined.

(** ** [PUT]: what an update directive writes *)

Section put_update.
Context `{IdGen}.

Lemma handleDirective_mono wid ex d upd db upd' db' :
  handleDirective wid ex d upd db = (inr upd', db') → upd ⊆ upd'.
Proof.
  rewrite handleDirective_dispatch. destruct (dispatch_of ex d); intros Hrun;
    apply bind_inr_inv in Hrun as (x & db1 & _ & [= <- <-]); [done|..];
    apply union_subseteq_r.
Qed.

Lemma handleDirectives_mono wid ex updates upd db upd' db' :
  handleDirectives wid ex updates upd db = (inr upd', db') → upd ⊆ upd'.
Proof.
  revert upd db. induction updates as [|d updates IH]; intros upd db Hrun.
  - by injection Hrun as <- <-.
  - cbn in Hrun. apply bind_inr_inv in Hrun as (upd1 & db1 & Hd & Hrest).
    etrans; [by eapply handleDirective_mono|by eapply IH].
Qed.

Lemma handleDirectives_app_inv wid ex pre post upd db upd' db' :
  handleDirectives wid ex (pre ++ post)%list upd db = (inr upd', db') →
  ∃ upd1 db1, handleDirectives wid ex pre upd db = (inr upd1, db1)
              ∧ handleDirectives wid ex post upd1 db1 = (inr upd', db').
Proof.
  revert upd db. induction pre as [|d pre IH]; intros upd db Hrun; [by exists upd, db|].
  cbn in Hrun. apply bind_inr_inv in Hrun as (upd0 & db0 & Hd & Hrest).
  destruct (IH _ _ Hrest) as (upd1 & db1 & Hpre & Hpost).
  exists upd1, db1. split; [|done]. cbn. by rewrite (bind_inr _ _ _ _ _ Hd).
Qed.

Lemma apply_update_fields d e :
  apply_update (updateData_of d) e
  = {| e_name := default (e_name e) (u_name d);
       e_reps := default (e_reps e) (u_reps d);
       e_sets := default (e_sets e) (u_sets d);
       e_duration := default (e_duration e) (u_duration d);
       e_notes := default (e_notes e) (u_notes d);
       e_workoutId := e_workoutId e;
       e_order := default (e_order e) (u_order d) |}.
Proof. done. Qed.

(** X27 — an update directive overwrites exactly the fields it supplies:
    after a [PUT] answered 200 whose payload has one directive for an
    exercise of the workout, not tagged as a delete, the exercise has the
    directive's value in every field the directive carries ([null] clears
    reps, sets, duration or notes), keeps its own in every other field, and
    still belongs to the same workout. *)
Theorem PUT_update_overwrites_supplied_fields now id validatedData pre d post db eid e :
  r_exercises validatedData = Some (pre ++ d :: post)%list →
  exercises db !! eid = Some e →
  e_workoutId e = id →
  u_id d = Some eid →
  eid ≠ "" →
  u_action d ≠ Some ActDelete →
  (∀ d', d' ∈ (pre ++ post)%list → u_id d' ≠ Some eid) →
  status (PUT now id (inr validatedData) db).1 = HTTP_STATUS.OK →
  exercises (PUT now id (inr validatedData) db).2 !! eid
  = Some {| e_name := default (e_name e) (u_name d);
            e_reps := default (e_reps e) (u_reps d);
            e_sets := default (e_sets e) (u_sets d);
            e_duration := default (e_duration e) (u_duration d);
            e_notes := default (e_notes e) (u_notes d);
            e_workoutId := e_workoutId e;
            e_order := default (e_order e) (u_order d) |}.
Proof.
  intros Hupdates He Howner Hid Hne Hact Hothers Hst.
  destruct (PUT_cases now id (inr validatedData) db)
    as [[_ ?]|(w & v & db1 & _ & [= <-] & Hstep & Hrec & _)]; [done|].
  apply update_workout_fields_inv in Hstep as (Hex & _ & _).
  rewrite Hupdates in Hrec. rewrite <- Hex in He.
  clear Hst. revert Hrec. generalize (PUT now id (inr validatedData) db).2.
  intros db' Hrec.
  unfold handleExerciseUpdates in Hrec.
  apply bind_inr_inv in Hrec as (upd' & db4 & Hloop & Hfinal).
  apply handleDirectives_app_inv in Hloop as (upd1 & db2 & Hpre & Hloop).
  cbn [handleDirectives] in Hloop.
  apply bind_inr_inv in Hloop as (upd2 & db3 & Hd & Hpost).
  destruct (handleDirectives_frame _ _ _ _ _ _ _ eid e Hpre) as [He2 _]; [|done|].
  { intros d' Hd'. apply Hothers, elem_of_app. by left. }
  assert (exercises db3 !! eid = Some (apply_update (updateData_of d) e)
          ∧ upd2 = {[eid]} ∪ upd1) as [He3 ->].
  { unfold handleDirective, is_action in Hd. rewrite Hid in Hd.
    cbn [default from_option Datatypes.id truthy] in Hd.
    rewrite (bool_decide_eq_false_2 (u_action d = Some ActDelete)) in Hd by done.
    rewrite (bool_decide_eq_true_2 (eid ≠ "")) in Hd by done.
    rewrite bool_decide_eq_true_2 in Hd.
    2:{ apply elem_of_existingExerciseIds. exists e. by rewrite <- Hex. }
    cbn [andb] in Hd. apply bind_inr_inv in Hd as ([] & db3' & Hop & [= <- <-]).
    split; [|done]. destruct (has_keys (updateData_of d)) eqn:Hkeys.
    - apply exercise_update_inv in Hop as [(? & _)|(e0 & _ & He0 & ->)]; [done|].
      cbn. rewrite lookup_insert_eq. congruence.
    - unfold ret in Hop. injection Hop as <-. rewrite He2. f_equal.
      unfold has_keys, updateData_of in Hkeys. cbn in Hkeys.
      destruct d as [? [?|] [?|] [?|] [?|] [?|] [?|] ?]; try done. by destruct e. }
  destruct (handleDirectives_frame _ _ _ _ _ _ _ eid (apply_update (updateData_of d) e)
              Hpost) as [He4 _]; [|done|].
  { intros d' Hd'. apply Hothers, elem_of_app. by right. }
  assert (eid ∈ upd') as Hin.
  { apply (handleDirectives_mono _ _ _ _ _ _ _ Hpost), elem_of_union. left.
    by apply elem_of_singleton. }
  rewrite <- apply_update_fields. cbn zeta in Hfinal.
  destruct (hasCompleteExerciseList _ && _); [|unfold ret in Hfinal; by simplify_eq].
  pose proof (lookup_deleteMany
                ((exercisesToDelete (pre ++ d :: post)%list (exercises_of id db) upd').*1)
                db4 eid) as Hl.
  rewrite Hfinal in Hl. cbn [snd] in Hl. rewrite Hl, decide_False; [done|].
  intros ([i e'] & -> & Hdel)%list_elem_of_fmap. unfold exercisesToDelete in Hdel.
  apply list_elem_of_filter in Hdel as [_ Hdel].
  apply list_elem_of_filter in Hdel as [Hnot _]. done.
Qed.

End put_update.

Lemma PUT_update_overwrites_supplied_fields_witness :
  exercises Gym.db2 !! "e1" = Some Examples.squats
  ∧ exercises (PUT (H := longer_idgen) 9 "w1"
                 (inr (Examples.request [Gym.rename_e2; Gym.clear_reps])) Gym.db2).2 !! "e1"
    = Some {| e_name := "Back Squats"; e_reps := None; e_sets := Some 4; e_duration := None;
              e_notes := None; e_workoutId := "w1"; e_order := 1 |}.
Proof.
  split; [by vm_compute|].
  apply (PUT_update_overwrites_supplied_fields (H := longer_idgen) 9 "w1"
           (Examples.request [Gym.rename_e2; Gym.clear_reps]) [Gym.rename_e2] Gym.clear_reps []
           Gym.db2 "e1" Examples.squats);
    [reflexivity|by vm_compute|done|done|done|done| |by vm_compute].
  intros d' Hd'. cbn in Hd'. apply list_elem_of_singleton in Hd'. by subst.
Defined.

(** ** [validateUpdateWorkout]: the fields handed on *)

(** X28 — when the update validator accepts a payload, the object it
    returns has exactly the keys among name, description, category and
    exercises that the payload supplies, so an absent field stays absent;
    a description that is the empty string is emitted as [null]. *)
Theorem validateUpdateWorkout_supplied_fields (Number parseInt : value → number) data result :
  validateUpdateWorkout Number parseInt data = inr result →
  ∃ fields,
    result = VObj fields
    ∧ (∀ key, key ∈ fields.*1 ↔
         key ∈ ["name"; "description"; "category"; "exercises"]
         ∧ get data key ≠ VUndefined)
    ∧ (get data "description" = VStr "" → get result "description" = VNull).
Proof.
  intros (_ & exercises & ->)%validateUpdateWorkout_inr.
  eexists. split; [done|]. unfold assign_if_defined. split.
  - intros key.
    destruct (is_undefined (get data "name")) eqn:Hn;
    destruct (is_undefined (get data "description")) eqn:Hd;
    destruct (is_undefined (get data "category")) eqn:Hc;
    destruct (is_undefined (get data "exercises")) eqn:He;
    repeat match goal with
           | H : is_undefined _ = true |- _ => apply is_undefined_true in H
           | H : is_undefined _ = false |- _ => apply is_undefined_false in H
           end;
    match goal with
    | |- context [?l.*1] => let r := eval vm_compute in (l.*1) in change (l.*1) with r
    end;
    rewrite ?elem_of_cons, ?elem_of_nil;
    (split;
     [ intros Hkey; repeat (destruct Hkey as [->|Hkey]); try done; auto 10
     | intros [Hkey Hdef]; repeat (destruct Hkey as [->|Hkey]); try done; auto 10 ]).
  - intros Hempty. rewrite Hempty.
    destruct (is_undefined (get data "name"));
    destruct (is_undefined (get data "category"));
    destruct (is_undefined (get data "exercises")); reflexivity.
Qed.

Lemma validateUpdateWorkout_supplied_fields_witness :
  ∃ fields,
    VObj [("description", VNull)] = VObj fields
    ∧ (∀ key, key ∈ fields.*1 ↔
         key ∈ ["name"; "description"; "category"; "exercises"]
         ∧ get (VObj [("description", VStr "")]) key ≠ VUndefined)
    ∧ (get (VObj [("description", VStr "")]) "description" = VStr "" →
       get (VObj [("description", VNull)]) "description" = VNull).
Proof.
  exact (validateUpdateWorkout_supplied_fields example_Number example_parseInt
           (VObj [("description", VStr "")]) (VObj [("description", VNull)]) eq_refl).
Defined.

